(** * Gateway protocol core: dedupe cache, event fan-out, presence registry, client gap detection

    A shallow embedding of [src/gateway/server.ts], [src/gateway/client.ts],
    [src/infra/system-presence.ts] and the parts of [src/gateway/protocol/schema.ts]
    they use, followed by the properties of the protocol core.

    Conventions of the embedding.
    - JavaScript numbers that occur here (sequence numbers, state versions,
      millisecond timestamps, byte counts) are integers far inside the range
      in which double arithmetic is exact; they are values of [Z].
    - JavaScript strings are [string]s holding the UTF-8 encoding of the text.
    - A [Map] iterates in insertion order; it is an association list with
      distinct keys ([JsMap]).  The per-connection closures of the server are
      kept in a [gmap] indexed by connection id.
    - Every handler runs to completion up to its first [await]; the suspended
      rest is kept in the state and resumed by a later step that carries the
      outcome of the awaited port.
    - [Date.now()] and [randomUUID()] are read from the step that runs the
      handler, one value per call in the source.
    - A socket is what [ws] shows of it: [send] queues a frame on an open
      socket and drops it, without throwing, on one that is closing or
      closed; [bufferedAmount] moves by steps of its own.
    - The callbacks handed to the gateway client return normally; a call is
      recorded in the list of effects of the client.
    - What the client does to its socket and its timer ([new WebSocket],
      [send], [close], [setTimeout]) is returned as a list of operations.
    - A frame on the wire is the value [JSON.parse] gives for the text
      [JSON.stringify] wrote: a property that is [undefined] is absent.
    - Of [src/webchat/server.ts], [handleRpc] is embedded up to the request
      it hands to the gateway client.  The body it reads comes from outside
      the gateway: a member of it may be a number that is no integer.
    - [String(v)] throws on a parsed object that has a member [toString];
      where the source converts a value it has not checked, the throw is
      followed into the [catch] that receives it. *)

From Stdlib Require Import ZArith String Ascii List Lia.
From Stdlib Require Import Sorting.Sorted Sorting.Permutation.
From stdpp Require Import base gmap strings list pretty.

Set Warnings "-register-all".

Local Open Scope Z_scope.

(* ===================================================================== *)
(** ** JavaScript strings *)
(* ===================================================================== *)

(** The string with the bytes [l]. *)
Definition bytes (l : list Z) : string :=
  string_of_list_ascii (List.map (fun z => ascii_of_nat (Z.to_nat z)) l).

(** [s] is truthy: a string is falsy exactly when it is empty. *)
Definition truthy (s : string) : bool :=
  match s with EmptyString => false | String _ _ => true end.

(** The code points [String.prototype.trim] removes (WhiteSpace and
    LineTerminator of ECMA-262), by the length of their UTF-8 encoding. *)
Definition ws1 (a : ascii) : bool :=
  let n := nat_of_ascii a in
  ((9 <=? n)%nat && (n <=? 13)%nat) || (n =? 32)%nat.

(** U+00A0 *)
Definition ws2 (a b : ascii) : bool :=
  (nat_of_ascii a =? 194)%nat && (nat_of_ascii b =? 160)%nat.

(** U+1680, U+2000..U+200A, U+2028, U+2029, U+202F, U+205F, U+3000, U+FEFF *)
Definition ws3 (a b c : ascii) : bool :=
  let x := nat_of_ascii a in
  let y := nat_of_ascii b in
  let z := nat_of_ascii c in
  ((x =? 225) && (y =? 154) && (z =? 128))%nat
  || ((x =? 226) && (y =? 128)
      && (((128 <=? z) && (z <=? 138)) || (z =? 168) || (z =? 169) || (z =? 175)))%nat
  || ((x =? 226) && (y =? 129) && (z =? 159))%nat
  || ((x =? 227) && (y =? 128) && (z =? 128))%nat
  || ((x =? 239) && (y =? 187) && (z =? 191))%nat.

(** Drops leading white space.  With [fwd = false] the list is a reversed
    string and the encodings are matched back to front. *)
Fixpoint dropSpace (fwd : bool) (l : list ascii) : list ascii :=
  match l with
  | [] => []
  | a :: l1 =>
      if ws1 a then dropSpace fwd l1
      else
        match l1 with
        | [] => l
        | b :: l2 =>
            if (if fwd then ws2 a b else ws2 b a) then dropSpace fwd l2
            else
              match l2 with
              | [] => l
              | c :: l3 =>
                  if (if fwd then ws3 a b c else ws3 c b a)
                  then dropSpace fwd l3
                  else l
              end
        end
  end.

Definition trim (s : string) : string :=
  string_of_list_ascii
    (List.rev (dropSpace false (List.rev (dropSpace true (list_ascii_of_string s))))).

(* ===================================================================== *)
(** ** JSON values *)
(* ===================================================================== *)

(** The value [JSON.parse] returns.  An absent property ([undefined]) is
    [None] at the place that reads it.  Numbers are the integral ones. *)
Inductive json : Type :=
| JNull
| JBool (b : bool)
| JNum (n : Z)
| JStr (s : string)
| JArr (xs : list json)
| JObj (fields : list (string * json)).

Fixpoint assoc {V : Type} (k : string) (l : list (string * V)) : option V :=
  match l with
  | [] => None
  | (k', v) :: l' => if String.eqb k k' then Some v else assoc k l'
  end.

(** [v?.k]: property [k] of a parsed value; [undefined] for everything that
    is not an object holding [k]. *)
Definition prop (k : string) (v : json) : option json :=
  match v with
  | JObj fs => assoc k fs
  | _ => None
  end.

(** [o ?? d] *)
Definition nullish (o : option json) (d : json) : json :=
  match o with
  | None | Some JNull => d
  | Some v => v
  end.

(* ===================================================================== *)
(** ** Insertion-ordered maps (JavaScript [Map] with string keys) *)
(* ===================================================================== *)

Module JsMap.
Section Ops.
Context {V : Type}.

Definition t : Type := list (string * V).

Definition empty : t := [].

Definition get (k : string) (m : t) : option V := assoc k m.

(** [m.set(k, v)]: an existing key keeps its position, a new one goes last. *)
Fixpoint set (k : string) (v : V) (m : t) : t :=
  match m with
  | [] => [(k, v)]
  | (k', v') :: m' =>
      if String.eqb k k' then (k, v) :: m' else (k', v') :: set k v m'
  end.

Fixpoint delete (k : string) (m : t) : t :=
  match m with
  | [] => []
  | (k', v') :: m' =>
      if String.eqb k k' then m' else (k', v') :: delete k m'
  end.

Definition size (m : t) : Z := Z.of_nat (List.length m).

Definition keys (m : t) : list string := List.map fst m.

Definition values (m : t) : list V := List.map snd m.
End Ops.
Arguments t : clear implicits.
End JsMap.

(* ===================================================================== *)
(** ** The host the gateway runs on *)
(* ===================================================================== *)

(** One network interface address ([os.NetworkInterfaceInfo]). *)
Record NetAddr : Type := {
  family : string;
  internal : bool;
  address : string;
}.

(** What the process reads from its host: [os], [process.env] and the
    text renderers of the libraries it links. *)
Record Platform : Type := {
  os_hostname : string;
  os_networkInterfaces : list (string * list NetAddr);
  env_CLAWDIS_VERSION : option string;
  env_npm_package_version : option string;
  env_GIT_COMMIT : option string;
  env_CLAWDIS_GATEWAY_TOKEN : option string;
  (** [String.prototype.toLowerCase] *)
  toLowerCase : string -> string;
  (** [Number.prototype.toString] *)
  Number_toString : Z -> string;
  (** [ajv.errorsText] of the errors a schema reports for a rejected value *)
  helloErrorsText : json -> string;
  requestFrameErrorsText : json -> string;
  sendParamsErrorsText : json -> string;
  agentParamsErrorsText : json -> string;
  (** [process.uptime() * 1000], rounded *)
  uptimeMs : Z;
}.

(** [a ?? b] on an environment variable. *)
Definition orElse {A : Type} (a : option A) (b : A) : A :=
  match a with Some x => x | None => b end.

(* ===================================================================== *)
(** ** src/infra/system-presence.ts *)
(* ===================================================================== *)

Record SystemPresence : Type := {
  host : option string;
  ip : option string;
  version : option string;
  lastInputSeconds : option Z;
  mode : option string;
  reason : option string;
  instanceId : option string;
  text : string;
  ts : Z;
}.

(** [Partial<SystemPresence>] as [upsertPresence] receives it.  A property
    that is present with the value [undefined] is [Some None]: the object
    spread copies it over the existing one. *)
Record PresencePatch : Type := {
  p_host : option (option string);
  p_version : option (option string);
  p_mode : option (option string);
  p_instanceId : option (option string);
  p_reason : option (option string);
  p_text : option (option string);
}.

Definition TTL_MS : Z := 5 * 60 * 1000.
Definition MAX_ENTRIES : Z := 200.

(** [{...e, ...p}] on one property. *)
Definition spread {A : Type} (e : option A) (p : option (option A)) : option A :=
  match p with Some v => v | None => e end.

(** [p.f] read from a partial object. *)
Definition given {A : Type} (p : option (option A)) : option A :=
  match p with Some v => v | None => None end.

(** [a || b] on possibly undefined strings. *)
Definition orStr (a : option string) (b : string) : string :=
  match a with
  | Some s => if truthy s then s else b
  | None => b
  end.

(** [a ?? b] on possibly undefined strings. *)
Definition firstSome {A : Type} (a b : option A) : option A :=
  match a with Some _ => a | None => b end.

(** Stable insertion sort; [le a b] says [a] may stay in front of [b]. *)
Fixpoint insertBy {A : Type} (le : A -> A -> bool) (x : A) (l : list A) : list A :=
  match l with
  | [] => [x]
  | y :: l' => if le x y then x :: l else y :: insertBy le x l'
  end.

Fixpoint sortBy {A : Type} (le : A -> A -> bool) (l : list A) : list A :=
  match l with
  | [] => []
  | x :: l' => insertBy le x (sortBy le l')
  end.

(** [for (i = 0; i < toDrop; i++) entries.delete(sorted[i][0])] *)
Fixpoint dropKeys {V : Type} (toDrop : nat) (sorted : list (string * V))
    (m : JsMap.t V) : JsMap.t V :=
  match toDrop, sorted with
  | S n, (k, _) :: rest => dropKeys n rest (JsMap.delete k m)
  | _, _ => m
  end.

Section SystemPresence.
Context (P : Platform).

Definition isExternalIPv4 (n : NetAddr) : bool :=
  String.eqb (family n) "IPv4" && negb (internal n).

(** [list?.find(...)?.address], kept when truthy *)
Definition findAddress (l : list NetAddr) : option string :=
  match List.find isExternalIPv4 l with
  | Some n => if truthy (address n) then Some (address n) else None
  | None => None
  end.

Fixpoint firstAddress (ls : list (list NetAddr)) : option string :=
  match ls with
  | [] => None
  | l :: rest =>
      match findAddress l with
      | Some a => Some a
      | None => firstAddress rest
      end
  end.

Definition pick (names : list string) : option string :=
  let nets := os_networkInterfaces P in
  match firstAddress (List.map (fun n => orElse (assoc n nets) []) names) with
  | Some a => Some a
  | None => firstAddress (List.map snd nets)
  end.

Definition resolvePrimaryIPv4 : string :=
  orElse (pick ["en0"; "eth0"]) (os_hostname P).

Definition selfKey : string := toLowerCase P (os_hostname P).

Definition initSelfPresence (now : Z) (entries : JsMap.t SystemPresence)
    : JsMap.t SystemPresence :=
  let host := os_hostname P in
  let ip := resolvePrimaryIPv4 in
  let version :=
    orElse (env_CLAWDIS_VERSION P) (orElse (env_npm_package_version P) "unknown") in
  let text :=
    "Gateway: " +:+ host +:+ (if truthy ip then " (" +:+ ip +:+ ")" else "")
    +:+ " · app " +:+ version +:+ " · mode gateway · reason self" in
  JsMap.set selfKey
    {| host := Some host; ip := Some ip; version := Some version;
       lastInputSeconds := None; mode := Some "gateway"; reason := Some "self";
       instanceId := None; text := text; ts := now |}
    entries.

(** Reads the clock only when the map is empty. *)
Definition ensureSelfPresence (now : Z) (entries : JsMap.t SystemPresence)
    : JsMap.t SystemPresence :=
  match entries with
  | [] => initSelfPresence now entries
  | _ :: _ => entries
  end.

Definition withTs (e : SystemPresence) (now : Z) : SystemPresence :=
  {| host := host e; ip := ip e; version := version e;
     lastInputSeconds := lastInputSeconds e; mode := mode e; reason := reason e;
     instanceId := instanceId e; text := text e; ts := now |}.

Definition touchSelfPresence (now : Z) (entries : JsMap.t SystemPresence)
    : JsMap.t SystemPresence :=
  match JsMap.get selfKey entries with
  | Some existing => JsMap.set selfKey (withTs existing now) entries
  | None => initSelfPresence now entries
  end.

Definition upsertPresence (key : string) (presence : PresencePatch)
    (now0 now : Z) (entries : JsMap.t SystemPresence) : JsMap.t SystemPresence :=
  let entries := ensureSelfPresence now0 entries in
  let existing := JsMap.get key entries in
  let ex {A} (f : SystemPresence -> option A) : option A :=
    match existing with Some e => f e | None => None end in
  let merged :=
    {| host := spread (ex host) (p_host presence);
       ip := ex ip;
       version := spread (ex version) (p_version presence);
       lastInputSeconds := ex lastInputSeconds;
       mode := spread (ex mode) (p_mode presence);
       reason := spread (ex reason) (p_reason presence);
       instanceId := spread (ex instanceId) (p_instanceId presence);
       ts := now;
       text :=
         orStr (given (p_text presence))
           (orStr (option_map text existing)
              ("Node: "
               +:+ orElse (firstSome (given (p_host presence)) (ex host)) "unknown"
               +:+ " · mode "
               +:+ orElse (firstSome (given (p_mode presence)) (ex mode)) "unknown")) |} in
  JsMap.set key merged entries.

(** [for (const [k, v] of [...entries]) if (now - v.ts > TTL_MS) entries.delete(k)] *)
Definition pruneExpired (now : Z) (entries : JsMap.t SystemPresence)
    : JsMap.t SystemPresence :=
  List.filter (fun kv => negb (TTL_MS <? now - ts (snd kv))) entries.

Definition enforceMax (entries : JsMap.t SystemPresence) : JsMap.t SystemPresence :=
  if MAX_ENTRIES <? JsMap.size entries then
    let sorted := sortBy (fun a b => ts (snd a) <=? ts (snd b)) entries in
    let toDrop := JsMap.size entries - MAX_ENTRIES in
    dropKeys (Z.to_nat toDrop) sorted entries
  else entries.

(** Returns the new registry and the list handed to the caller.  [now0] is
    read by [ensureSelfPresence], [now] by the pruning pass and [now'] by
    [touchSelfPresence]. *)
Definition listSystemPresence (now0 now now' : Z) (entries : JsMap.t SystemPresence)
    : JsMap.t SystemPresence * list SystemPresence :=
  let entries := ensureSelfPresence now0 entries in
  let entries := pruneExpired now entries in
  let entries := enforceMax entries in
  let entries := touchSelfPresence now' entries in
  (entries, sortBy (fun a b => ts b <=? ts a) (JsMap.values entries)).
End SystemPresence.

(* ===================================================================== *)
(** ** src/gateway/protocol/schema.ts *)
(* ===================================================================== *)

Definition PROTOCOL_VERSION : Z := 1.

Inductive ErrorCode : Type :=
| NOT_LINKED
| AGENT_TIMEOUT
| INVALID_REQUEST
| UNAVAILABLE.

Record ErrorShape : Type := {
  code : ErrorCode;
  message : string;
  details : option json;
  retryable : option bool;
  retryAfterMs : option Z;
}.

(** [errorShape(code, message)]; the server never passes [opts]. *)
Definition errorShape (c : ErrorCode) (m : string) : ErrorShape :=
  {| code := c; message := m; details := None; retryable := None;
     retryAfterMs := None |}.

Record StateVersion : Type := {
  sv_presence : Z;
  sv_health : Z;
}.

Record Snapshot : Type := {
  snap_presence : list SystemPresence;
  snap_health : json;
  snap_stateVersion : StateVersion;
  snap_uptimeMs : Z;
}.

Record HelloOk : Type := {
  ok_protocol : Z;
  ok_version : string;
  ok_commit : option string;
  ok_host : string;
  ok_connId : string;
  ok_methods : list string;
  ok_events : list string;
  ok_snapshot : Snapshot;
  ok_maxPayload : Z;
  ok_maxBufferedBytes : Z;
  ok_tickIntervalMs : Z;
}.

(** The frames the server writes to a socket. *)
Inductive Frame : Type :=
| FHelloOk (h : HelloOk)
| FHelloError (reason : string) (expectedProtocol : option Z)
| FRes (id : json) (ok : bool) (payload : option json) (error : option ErrorShape)
| FEvent (event : string) (payload : json) (seq : Z) (stateVersion : option StateVersion).

(** The part of a validated [hello] the server reads. *)
Record Hello : Type := {
  minProtocol : Z;
  maxProtocol : Z;
  client_name : string;
  client_version : string;
  client_platform : string;
  client_mode : string;
  client_instanceId : option string;
  auth_token : option string;
}.

Record RequestFrame : Type := {
  req_id : string;
  req_method : string;
  req_params : option json;
}.

Record SendParams : Type := {
  sp_to : string;
  sp_message : string;
  sp_mediaUrl : option string;
  sp_provider : option string;
  sp_idempotencyKey : string;
}.

Record AgentParams : Type := {
  ap_message : string;
  ap_to : option string;
  ap_sessionId : option string;
  ap_thinking : option string;
  ap_deliver : option bool;
  ap_timeout : option Z;
  ap_idempotencyKey : string;
}.

(** *** Schema checks ([additionalProperties: false] everywhere) *)

Definition onlyKeys (allowed : list string) (fs : list (string * json)) : bool :=
  forallb (fun kv => existsb (String.eqb (fst kv)) allowed) fs.

Definition isString (v : json) : bool :=
  match v with JStr _ => true | _ => false end.

Definition isNonEmptyString (v : json) : bool :=
  match v with JStr s => truthy s | _ => false end.

Definition isBoolean (v : json) : bool :=
  match v with JBool _ => true | _ => false end.

Definition isIntegerMin (m : Z) (v : json) : bool :=
  match v with JNum n => m <=? n | _ => false end.

Definition isArrayOf (check : json -> bool) (v : json) : bool :=
  match v with JArr xs => forallb check xs | _ => false end.

Definition required (k : string) (check : json -> bool) (fs : list (string * json)) : bool :=
  match assoc k fs with Some v => check v | None => false end.

Definition optional (k : string) (check : json -> bool) (fs : list (string * json)) : bool :=
  match assoc k fs with Some v => check v | None => true end.

Definition strOf (o : option json) : string :=
  match o with Some (JStr s) => s | _ => "" end.

Definition optStrOf (o : option json) : option string :=
  match o with Some (JStr s) => Some s | _ => None end.

Definition numOf (o : option json) : Z :=
  match o with Some (JNum n) => n | _ => 0 end.

Definition optNumOf (o : option json) : option Z :=
  match o with Some (JNum n) => Some n | _ => None end.

Definition optBoolOf (o : option json) : option bool :=
  match o with Some (JBool b) => Some b | _ => None end.

Definition isClientDescriptor (v : json) : bool :=
  match v with
  | JObj fs =>
      onlyKeys ["name"; "version"; "platform"; "mode"; "instanceId"] fs
      && required "name" isNonEmptyString fs
      && required "version" isNonEmptyString fs
      && required "platform" isNonEmptyString fs
      && required "mode" isNonEmptyString fs
      && optional "instanceId" isNonEmptyString fs
  | _ => false
  end.

Definition isAuth (v : json) : bool :=
  match v with
  | JObj fs => onlyKeys ["token"] fs && optional "token" isString fs
  | _ => false
  end.

(** [validateHello(parsed)] together with the cast [parsed as Hello]. *)
Definition validateHello (v : json) : option Hello :=
  match v with
  | JObj fs =>
      if onlyKeys ["type"; "minProtocol"; "maxProtocol"; "client"; "caps";
                   "auth"; "locale"; "userAgent"] fs
         && required "type" (fun t => match t with JStr s => String.eqb s "hello" | _ => false end) fs
         && required "minProtocol" (isIntegerMin 1) fs
         && required "maxProtocol" (isIntegerMin 1) fs
         && required "client" isClientDescriptor fs
         && optional "caps" (isArrayOf isNonEmptyString) fs
         && optional "auth" isAuth fs
         && optional "locale" isString fs
         && optional "userAgent" isString fs
      then
        let c := nullish (assoc "client" fs) JNull in
        Some {| minProtocol := numOf (assoc "minProtocol" fs);
                maxProtocol := numOf (assoc "maxProtocol" fs);
                client_name := strOf (prop "name" c);
                client_version := strOf (prop "version" c);
                client_platform := strOf (prop "platform" c);
                client_mode := strOf (prop "mode" c);
                client_instanceId := optStrOf (prop "instanceId" c);
                auth_token :=
                  match assoc "auth" fs with
                  | Some a => optStrOf (prop "token" a)
                  | None => None
                  end |}
      else None
  | _ => None
  end.

(** [validateRequestFrame(parsed)] together with the cast [parsed as RequestFrame]. *)
Definition validateRequestFrame (v : json) : option RequestFrame :=
  match v with
  | JObj fs =>
      if onlyKeys ["type"; "id"; "method"; "params"] fs
         && required "type" (fun t => match t with JStr s => String.eqb s "req" | _ => false end) fs
         && required "id" isNonEmptyString fs
         && required "method" isNonEmptyString fs
      then Some {| req_id := strOf (assoc "id" fs);
                   req_method := strOf (assoc "method" fs);
                   req_params := assoc "params" fs |}
      else None
  | _ => None
  end.

Definition validateSendParams (p : json) : option SendParams :=
  match p with
  | JObj fs =>
      if onlyKeys ["to"; "message"; "mediaUrl"; "provider"; "idempotencyKey"] fs
         && required "to" isNonEmptyString fs
         && required "message" isNonEmptyString fs
         && optional "mediaUrl" isString fs
         && optional "provider" isString fs
         && required "idempotencyKey" isNonEmptyString fs
      then Some {| sp_to := strOf (assoc "to" fs);
                   sp_message := strOf (assoc "message" fs);
                   sp_mediaUrl := optStrOf (assoc "mediaUrl" fs);
                   sp_provider := optStrOf (assoc "provider" fs);
                   sp_idempotencyKey := strOf (assoc "idempotencyKey" fs) |}
      else None
  | _ => None
  end.

Definition validateAgentParams (p : json) : option AgentParams :=
  match p with
  | JObj fs =>
      if onlyKeys ["message"; "to"; "sessionId"; "thinking"; "deliver";
                   "timeout"; "idempotencyKey"] fs
         && required "message" isNonEmptyString fs
         && optional "to" isString fs
         && optional "sessionId" isString fs
         && optional "thinking" isString fs
         && optional "deliver" isBoolean fs
         && optional "timeout" (isIntegerMin 0) fs
         && required "idempotencyKey" isNonEmptyString fs
      then Some {| ap_message := strOf (assoc "message" fs);
                   ap_to := optStrOf (assoc "to" fs);
                   ap_sessionId := optStrOf (assoc "sessionId" fs);
                   ap_thinking := optStrOf (assoc "thinking" fs);
                   ap_deliver := optBoolOf (assoc "deliver" fs);
                   ap_timeout := optNumOf (assoc "timeout" fs);
                   ap_idempotencyKey := strOf (assoc "idempotencyKey" fs) |}
      else None
  | _ => None
  end.

(** *** Values as they are serialised into a payload *)

Definition field (k : string) (o : option json) : list (string * json) :=
  match o with Some v => [(k, v)] | None => [] end.

(** [JSON.stringify] leaves out the properties that are [undefined]. *)
Definition presenceJson (e : SystemPresence) : json :=
  JObj (field "host" (option_map JStr (host e))
        ++ field "ip" (option_map JStr (ip e))
        ++ field "version" (option_map JStr (version e))
        ++ field "lastInputSeconds" (option_map JNum (lastInputSeconds e))
        ++ field "mode" (option_map JStr (mode e))
        ++ field "reason" (option_map JStr (reason e))
        ++ field "instanceId" (option_map JStr (instanceId e))
        ++ [("text", JStr (text e)); ("ts", JNum (ts e))]).

Definition presenceListJson (l : list SystemPresence) : json :=
  JArr (List.map presenceJson l).

Definition errorCodeText (c : ErrorCode) : string :=
  match c with
  | NOT_LINKED => "NOT_LINKED"
  | AGENT_TIMEOUT => "AGENT_TIMEOUT"
  | INVALID_REQUEST => "INVALID_REQUEST"
  | UNAVAILABLE => "UNAVAILABLE"
  end.

Definition errorJson (e : ErrorShape) : json :=
  JObj ([("code", JStr (errorCodeText (code e))); ("message", JStr (message e))]
        ++ field "details" (details e)
        ++ field "retryable" (option_map JBool (retryable e))
        ++ field "retryAfterMs" (option_map JNum (retryAfterMs e))).

Definition stateVersionJson (v : StateVersion) : json :=
  JObj [("presence", JNum (sv_presence v)); ("health", JNum (sv_health v))].

Definition snapshotJson (n : Snapshot) : json :=
  JObj [("presence", presenceListJson (snap_presence n));
        ("health", snap_health n);
        ("stateVersion", stateVersionJson (snap_stateVersion n));
        ("uptimeMs", JNum (snap_uptimeMs n))].

Definition helloOkJson (h : HelloOk) : json :=
  JObj [("type", JStr "hello-ok");
        ("protocol", JNum (ok_protocol h));
        ("server",
         JObj ([("version", JStr (ok_version h))]
               ++ field "commit" (option_map JStr (ok_commit h))
               ++ [("host", JStr (ok_host h)); ("connId", JStr (ok_connId h))]));
        ("features",
         JObj [("methods", JArr (List.map JStr (ok_methods h)));
               ("events", JArr (List.map JStr (ok_events h)))]);
        ("snapshot", snapshotJson (ok_snapshot h));
        ("policy",
         JObj [("maxPayload", JNum (ok_maxPayload h));
               ("maxBufferedBytes", JNum (ok_maxBufferedBytes h));
               ("tickIntervalMs", JNum (ok_tickIntervalMs h))])].

(** What the peer parses from the text the server writes for a frame:
    [JSON.parse(JSON.stringify(obj))] of the object literal handed to
    [send], [broadcast] or [socket.send]. *)
Definition frameJson (f : Frame) : json :=
  match f with
  | FHelloOk h => helloOkJson h
  | FHelloError reason expectedProtocol =>
      JObj ([("type", JStr "hello-error"); ("reason", JStr reason)]
            ++ field "expectedProtocol" (option_map JNum expectedProtocol))
  | FRes id ok payload error =>
      JObj ([("type", JStr "res"); ("id", id); ("ok", JBool ok)]
            ++ field "payload" payload
            ++ field "error" (option_map errorJson error))
  | FEvent event payload seq stateVersion =>
      JObj ([("type", JStr "event"); ("event", JStr event); ("payload", payload);
             ("seq", JNum seq)]
            ++ field "stateVersion" (option_map stateVersionJson stateVersion))
  end.

(* ===================================================================== *)
(** ** src/gateway/server.ts: state *)
(* ===================================================================== *)

Definition METHODS : list string :=
  ["health"; "status"; "system-presence"; "system-event"; "set-heartbeats";
   "send"; "agent"].

Definition EVENTS : list string := ["agent"; "presence"; "tick"; "shutdown"].

Definition MAX_PAYLOAD_BYTES : Z := 512 * 1024.
(** [1.5 * 1024 * 1024] *)
Definition MAX_BUFFERED_BYTES : Z := 1572864.
Definition HANDSHAKE_TIMEOUT_MS : Z := 3000.
Definition TICK_INTERVAL_MS : Z := 30000.
Definition DEDUPE_TTL_MS : Z := 5 * 60000.
Definition DEDUPE_MAX : Z := 1000.

Record DedupeEntry : Type := {
  d_ts : Z;
  d_ok : bool;
  d_payload : option json;
  d_error : option ErrorShape;
}.

Inductive ReadyState : Type := OPEN | CLOSING | CLOSED.

(** A [ws] socket as the server sees it: the frames handed to [send] while
    it was open, and the code and reason of the first [close]. *)
Record Socket : Type := {
  readyState : ReadyState;
  bufferedAmount : Z;
  outbound : list Frame;
  closeSent : option (Z * option string);
}.

(** The closure of one [wss.on("connection")] callback. *)
Record Conn : Type := {
  socket : Socket;
  client : option Hello;
  closed : bool;
}.

(** The rest of a handler behind its [await], with the variables it captured. *)
Inductive Suspended : Type :=
| AwaitHelloHealth (connId : string) (snapshot : Snapshot)
| AwaitHealth (connId : string) (id : string)
| AwaitStatus (connId : string) (id : string)
| AwaitSend (connId : string) (id : string) (idem : string) (to : string)
| AwaitAgent (connId : string) (id : string) (idem : string) (runId : string).

(** A call into a collaborator. *)
Inductive PortCall : Type :=
| GetHealthSnapshot
| GetStatusSummary
| SendMessageWhatsApp (to : string) (message : string) (mediaUrl : option string)
| AgentCommand (message : string) (to sessionId thinking : option string)
    (deliver : option bool) (timeout : option string).

Record SendResult : Type := {
  messageId : string;
  toJid : option string;
}.

(** How an awaited promise settles; [Threw] carries [String(err)]. *)
Inductive Outcome : Type :=
| Value (v : json)
| Sent (r : SendResult)
| Returned
| Threw (err : string).

Record State : Type := mkState {
  seq : Z;
  presenceVersion : Z;
  healthVersion : Z;
  dedupe : JsMap.t DedupeEntry;
  entries : JsMap.t SystemPresence;
  (** texts handed to [enqueueSystemEvent], oldest first *)
  systemEvents : list string;
  (** the [clients] set, in insertion order *)
  clients : list string;
  conns : gmap string Conn;
  suspended : list Suspended;
  portCalls : list PortCall;
  (** number of [logError] calls *)
  logged : nat;
  (** [close()] of the server has run: intervals cleared, bus unsubscribed *)
  stopped : bool;
}.

Definition setSeq (n : Z) (s : State) : State :=
  mkState n (presenceVersion s) (healthVersion s) (dedupe s) (entries s)
    (systemEvents s) (clients s) (conns s) (suspended s) (portCalls s)
    (logged s) (stopped s).

Definition setPresenceVersion (n : Z) (s : State) : State :=
  mkState (seq s) n (healthVersion s) (dedupe s) (entries s)
    (systemEvents s) (clients s) (conns s) (suspended s) (portCalls s)
    (logged s) (stopped s).

Definition setHealthVersion (n : Z) (s : State) : State :=
  mkState (seq s) (presenceVersion s) n (dedupe s) (entries s)
    (systemEvents s) (clients s) (conns s) (suspended s) (portCalls s)
    (logged s) (stopped s).

Definition setDedupe (d : JsMap.t DedupeEntry) (s : State) : State :=
  mkState (seq s) (presenceVersion s) (healthVersion s) d (entries s)
    (systemEvents s) (clients s) (conns s) (suspended s) (portCalls s)
    (logged s) (stopped s).

Definition setEntries (e : JsMap.t SystemPresence) (s : State) : State :=
  mkState (seq s) (presenceVersion s) (healthVersion s) (dedupe s) e
    (systemEvents s) (clients s) (conns s) (suspended s) (portCalls s)
    (logged s) (stopped s).

Definition setSystemEvents (q : list string) (s : State) : State :=
  mkState (seq s) (presenceVersion s) (healthVersion s) (dedupe s) (entries s)
    q (clients s) (conns s) (suspended s) (portCalls s)
    (logged s) (stopped s).

Definition setClients (cs : list string) (s : State) : State :=
  mkState (seq s) (presenceVersion s) (healthVersion s) (dedupe s) (entries s)
    (systemEvents s) cs (conns s) (suspended s) (portCalls s)
    (logged s) (stopped s).

Definition setConns (m : gmap string Conn) (s : State) : State :=
  mkState (seq s) (presenceVersion s) (healthVersion s) (dedupe s) (entries s)
    (systemEvents s) (clients s) m (suspended s) (portCalls s)
    (logged s) (stopped s).

Definition setSuspended (l : list Suspended) (s : State) : State :=
  mkState (seq s) (presenceVersion s) (healthVersion s) (dedupe s) (entries s)
    (systemEvents s) (clients s) (conns s) l (portCalls s)
    (logged s) (stopped s).

Definition setPortCalls (l : list PortCall) (s : State) : State :=
  mkState (seq s) (presenceVersion s) (healthVersion s) (dedupe s) (entries s)
    (systemEvents s) (clients s) (conns s) (suspended s) l
    (logged s) (stopped s).

Definition setLogged (n : nat) (s : State) : State :=
  mkState (seq s) (presenceVersion s) (healthVersion s) (dedupe s) (entries s)
    (systemEvents s) (clients s) (conns s) (suspended s) (portCalls s)
    n (stopped s).

Definition setStopped (b : bool) (s : State) : State :=
  mkState (seq s) (presenceVersion s) (healthVersion s) (dedupe s) (entries s)
    (systemEvents s) (clients s) (conns s) (suspended s) (portCalls s)
    (logged s) b.

(** The module-level variables of [server.ts] when the process starts, on
    top of the registry [system-presence.ts] seeded at load time [t]. *)
Definition initialState (P : Platform) (t : Z) : State :=
  {| seq := 0; presenceVersion := 1; healthVersion := 1;
     dedupe := JsMap.empty; entries := initSelfPresence P t JsMap.empty;
     systemEvents := []; clients := []; conns := ∅; suspended := [];
     portCalls := []; logged := 0%nat; stopped := false |}.

(** *** Sockets *)

Definition newSocket : Socket :=
  {| readyState := OPEN; bufferedAmount := 0; outbound := []; closeSent := None |}.

(** [socket.send(JSON.stringify(frame))]: queued on an open socket, dropped
    by [ws] on one that is closing or closed. *)
Definition sockSend (f : Frame) (k : Socket) : Socket :=
  match readyState k with
  | OPEN =>
      {| readyState := OPEN; bufferedAmount := bufferedAmount k;
         outbound := outbound k ++ [f]; closeSent := closeSent k |}
  | _ => k
  end.

(** [socket.close(code, reason)]: starts the closing handshake once. *)
Definition sockClose (c : Z) (r : option string) (k : Socket) : Socket :=
  match readyState k with
  | OPEN =>
      {| readyState := CLOSING; bufferedAmount := bufferedAmount k;
         outbound := outbound k; closeSent := Some (c, r) |}
  | _ => k
  end.

Definition sockClosed (k : Socket) : Socket :=
  {| readyState := CLOSED; bufferedAmount := bufferedAmount k;
     outbound := outbound k; closeSent := closeSent k |}.

Definition sockBuffered (n : Z) (k : Socket) : Socket :=
  {| readyState := readyState k; bufferedAmount := n;
     outbound := outbound k; closeSent := closeSent k |}.

Definition onSocket (f : Socket -> Socket) (c : Conn) : Conn :=
  {| socket := f (socket c); client := client c; closed := closed c |}.

Definition withSocket (connId : string) (f : Socket -> Socket) (s : State) : State :=
  setConns (alter (onSocket f) connId (conns s)) s.

(** The [send] closure of a connection. *)
Definition send (connId : string) (f : Frame) (s : State) : State :=
  withSocket connId (sockSend f) s.

(** The [respond] closure of a request. *)
Definition respond (connId : string) (id : string) (ok : bool)
    (payload : option json) (error : option ErrorShape) (s : State) : State :=
  send connId (FRes (JStr id) ok payload error) s.

(** [clients.add(client)] *)
Definition addClient (connId : string) (cs : list string) : list string :=
  if existsb (String.eqb connId) cs then cs else cs ++ [connId].

(** [clients.delete(client)] *)
Definition deleteClient (connId : string) (cs : list string) : list string :=
  List.filter (fun c => negb (String.eqb connId c)) cs.

(** The [close] closure of a connection. *)
Definition close (connId : string) (s : State) : State :=
  match conns s !! connId with
  | None => s
  | Some c =>
      if closed c then s
      else
        let s :=
          match client c with
          | Some _ => setClients (deleteClient connId (clients s)) s
          | None => s
          end in
        setConns
          (<[connId := {| socket := sockClose 1000 None (socket c);
                          client := client c; closed := true |}]> (conns s)) s
  end.

(** *** broadcast *)

Definition deliver (dropIfSlow : bool) (frame : Frame) (k : Socket) : Socket :=
  let slow := MAX_BUFFERED_BYTES <? bufferedAmount k in
  if slow && dropIfSlow then k
  else if slow then sockClose 1008 (Some "slow consumer") k
  else sockSend frame k.

Definition broadcast (event : string) (payload : json) (dropIfSlow : bool)
    (stateVersion : option StateVersion) (s : State) : State :=
  let s := setSeq (seq s + 1) s in
  let frame := FEvent event payload (seq s) stateVersion in
  List.fold_left (fun s c => withSocket c (deliver dropIfSlow frame) s) (clients s) s.

(** *** dedupe cache cleanup *)

(** [for (let i = 0; i < dedupe.size - DEDUPE_MAX; i++) dedupe.delete(entries[i][0])];
    [rest] is [entries] from index [i] on.  The bound is read again on
    every round. *)
Fixpoint evictLoop (i : Z) (rest : list (string * DedupeEntry))
    (d : JsMap.t DedupeEntry) : JsMap.t DedupeEntry :=
  match rest with
  | [] => d
  | (k, _) :: rest' =>
      if i <? JsMap.size d - DEDUPE_MAX
      then evictLoop (i + 1) rest' (JsMap.delete k d)
      else d
  end.

Definition dedupeCleanup (now : Z) (d : JsMap.t DedupeEntry) : JsMap.t DedupeEntry :=
  let d := List.filter (fun kv => negb (DEDUPE_TTL_MS <? now - d_ts (snd kv))) d in
  if DEDUPE_MAX <? JsMap.size d then
    let entries := sortBy (fun a b => d_ts (snd a) <=? d_ts (snd b)) d in
    evictLoop 0 entries d
  else d.

(* ===================================================================== *)
(** ** src/gateway/server.ts: handlers *)
(* ===================================================================== *)

Definition join (sep : string) (l : list string) : string := String.concat sep l.

(** Modelled from the spec: [enqueueSystemEvent] of [src/infra/system-events.ts]
    is not among the sources.  Section 4.6 of the specification says that
    [system-event] pushes the text to the system-event queue; the queue is
    the list of the texts pushed, oldest first. *)
Definition enqueueSystemEvent (text : string) (queue : list string) : list string :=
  queue ++ [text].

(** Whether [String(v)], or [v.toString()] for a [v] that is not [null],
    throws a [TypeError]: a parsed object that has a key [toString] holds a
    value there that is no function, and the [valueOf] it falls back to
    returns no primitive; an array converts its elements, taking [null] for
    the empty string. *)
Fixpoint toStringThrows (v : json) : bool :=
  match v with
  | JObj fs => List.existsb (fun kv => String.eqb (fst kv) "toString") fs
  | JArr xs => List.existsb toStringThrows xs
  | _ => false
  end.

Section Server.
Context (P : Platform).

(** [String(v)], when it does not throw *)
Fixpoint js_String (v : json) : string :=
  match v with
  | JNull => "null"
  | JBool true => "true"
  | JBool false => "false"
  | JNum n => Number_toString P n
  | JStr s => s
  | JArr xs =>
      join ","
        (List.map (fun x => match x with JNull => "" | _ => js_String x end) xs)
  | JObj _ => "[object Object]"
  end.

Definition serverVersion : string :=
  orElse (env_CLAWDIS_VERSION P) (orElse (env_npm_package_version P) "dev").

(** [listSystemPresence()] on the registry of the process. *)
Definition listPresence (t0 t1 t2 : Z) (s : State) : State * list SystemPresence :=
  let r := listSystemPresence P t0 t1 t2 (entries s) in
  (setEntries (fst r) s, snd r).

Definition buildSnapshot (t0 t1 t2 : Z) (s : State) : State * Snapshot :=
  let r := listPresence t0 t1 t2 s in
  (fst r,
   {| snap_presence := snd r;
      snap_health := JObj [];
      snap_stateVersion :=
        {| sv_presence := presenceVersion (fst r); sv_health := healthVersion (fst r) |};
      snap_uptimeMs := uptimeMs P |}).

(** [broadcast("presence", { presence: listSystemPresence() },
      { dropIfSlow: true, stateVersion: { presence: presenceVersion, health: healthVersion } })],
    as both the [system-event] handler and the socket [close] handler call it. *)
Definition broadcastPresence (t0 t1 t2 : Z) (s : State) : State :=
  let r := listPresence t0 t1 t2 s in
  broadcast "presence" (JObj [("presence", presenceListJson (snd r))]) true
    (Some {| sv_presence := presenceVersion (fst r); sv_health := healthVersion (fst r) |})
    (fst r).

Definition logError (s : State) : State := setLogged (S (logged s)) s.

Definition await (call : PortCall) (k : Suspended) (s : State) : State :=
  setSuspended (suspended s ++ [k]) (setPortCalls (portCalls s ++ [call]) s).

(** *** Handshake *)

Definition rejectHello (connId reason : string) (expected : option Z)
    (c : Z) (closeReason : string) (s : State) : State :=
  let s := send connId (FHelloError reason expected) s in
  let s := withSocket connId (sockClose c (Some closeReason)) s in
  close connId s.

(** [token && hello.auth?.token !== token] *)
Definition unauthorized (hello : Hello) : bool :=
  match env_CLAWDIS_GATEWAY_TOKEN P with
  | Some token =>
      truthy token
      && negb (match auth_token hello with
               | Some t => String.eqb t token
               | None => false
               end)
  | None => false
  end.

Definition setClient (connId : string) (hello : Hello) (s : State) : State :=
  setConns
    (alter (fun c => {| socket := socket c; client := Some hello; closed := closed c |})
       connId (conns s)) s.

Definition handleHello (connId : string) (parsed : json) (clock : nat -> Z)
    (s : State) : State :=
  match validateHello parsed with
  | None =>
      rejectHello connId ("invalid hello: " +:+ helloErrorsText P parsed) None
        1008 "invalid hello" s
  | Some hello =>
      if (maxProtocol hello <? PROTOCOL_VERSION) || (PROTOCOL_VERSION <? minProtocol hello)
      then rejectHello connId "protocol mismatch" (Some PROTOCOL_VERSION)
             1002 "protocol mismatch" s
      else if unauthorized hello
      then rejectHello connId "unauthorized" None 1008 "unauthorized" s
      else
        let s := setClient connId hello s in
        let s := setClients (addClient connId (clients s)) s in
        let presenceKey := orStr (client_instanceId hello) connId in
        let s :=
          setEntries
            (upsertPresence P presenceKey
               {| p_host := Some (Some (os_hostname P));
                  p_version := Some (Some serverVersion);
                  p_mode := Some (Some (client_mode hello));
                  p_instanceId := Some (client_instanceId hello);
                  p_reason := Some (Some "connect");
                  p_text := None |}
               (clock 0%nat) (clock 1%nat) (entries s)) s in
        let s := setPresenceVersion (presenceVersion s + 1) s in
        let r := buildSnapshot (clock 2%nat) (clock 3%nat) (clock 4%nat) s in
        await GetHealthSnapshot (AwaitHelloHealth connId (snd r)) (fst r)
  end.

Definition helloOk (connId : string) (snapshot : Snapshot) : HelloOk :=
  {| ok_protocol := PROTOCOL_VERSION;
     ok_version := serverVersion;
     ok_commit := env_GIT_COMMIT P;
     ok_host := os_hostname P;
     ok_connId := connId;
     ok_methods := METHODS;
     ok_events := EVENTS;
     ok_snapshot := snapshot;
     ok_maxPayload := MAX_PAYLOAD_BYTES;
     ok_maxBufferedBytes := MAX_BUFFERED_BYTES;
     ok_tickIntervalMs := TICK_INTERVAL_MS |}.

(** *** Requests *)

Definition okPayload : json := JObj [("ok", JBool true)].

(** Whether [String(params?.text ?? "")] throws. *)
Definition systemEventThrows (params : option json) : bool :=
  toStringThrows (nullish (prop "text" (nullish params JNull)) (JStr "")).

(** [String(params?.text ?? "").trim()], when [String] does not throw *)
Definition systemEventText (params : option json) : string :=
  trim (js_String (nullish (prop "text" (nullish params JNull)) (JStr ""))).

(** When [String] throws, the [catch] of the message handler logs the error;
    the connection has a client, so that it does nothing else. *)
Definition handleSystemEvent (connId : string) (req : RequestFrame)
    (clock : nat -> Z) (s : State) : State :=
  if systemEventThrows (req_params req) then logError s
  else
  let text := systemEventText (req_params req) in
  if negb (truthy text) then
    respond connId (req_id req) false None
      (Some (errorShape INVALID_REQUEST "text required")) s
  else
    let s := setSystemEvents (enqueueSystemEvent text (systemEvents s)) s in
    let s := setPresenceVersion (presenceVersion s + 1) s in
    let s := broadcastPresence (clock 0%nat) (clock 1%nat) (clock 2%nat) s in
    respond connId (req_id req) true (Some okPayload) None s.

Definition handleSend (connId : string) (req : RequestFrame) (s : State) : State :=
  let p := nullish (req_params req) (JObj []) in
  match validateSendParams p with
  | None =>
      respond connId (req_id req) false None
        (Some (errorShape INVALID_REQUEST
                 ("invalid send params: " +:+ sendParamsErrorsText P p))) s
  | Some params =>
      let idem := sp_idempotencyKey params in
      match JsMap.get ("send:" +:+ idem) (dedupe s) with
      | Some cached =>
          respond connId (req_id req) (d_ok cached) (d_payload cached) (d_error cached) s
      | None =>
          let to := trim (sp_to params) in
          let message := trim (sp_message params) in
          await (SendMessageWhatsApp to message (sp_mediaUrl params))
            (AwaitSend connId (req_id req) idem to) s
      end
  end.

Definition handleAgent (connId : string) (req : RequestFrame) (uuid : string)
    (s : State) : State :=
  let p := nullish (req_params req) (JObj []) in
  match validateAgentParams p with
  | None =>
      respond connId (req_id req) false None
        (Some (errorShape INVALID_REQUEST
                 ("invalid agent params: " +:+ agentParamsErrorsText P p))) s
  | Some params =>
      let idem := ap_idempotencyKey params in
      match JsMap.get ("agent:" +:+ idem) (dedupe s) with
      | Some cached =>
          respond connId (req_id req) (d_ok cached) (d_payload cached) (d_error cached) s
      | None =>
          let message := trim (ap_message params) in
          let runId := orStr (ap_sessionId params) uuid in
          let s := setSeq (seq s + 1) s in
          let ackEvent :=
            FEvent "agent"
              (JObj [("runId", JStr runId); ("status", JStr "accepted")])
              (seq s) None in
          let s := withSocket connId (sockSend ackEvent) s in
          await
            (AgentCommand message (ap_to params) (ap_sessionId params)
               (ap_thinking params) (ap_deliver params)
               (option_map (Number_toString P) (ap_timeout params)))
            (AwaitAgent connId (req_id req) idem runId) s
      end
  end.

Definition handleRequest (connId : string) (parsed : json) (clock : nat -> Z)
    (uuid : string) (s : State) : State :=
  match validateRequestFrame parsed with
  | None =>
      send connId
        (FRes (nullish (prop "id" parsed) (JStr "invalid")) false None
           (Some (errorShape INVALID_REQUEST
                    ("invalid request frame: " +:+ requestFrameErrorsText P parsed)))) s
  | Some req =>
      let m := req_method req in
      if String.eqb m "health" then
        await GetHealthSnapshot (AwaitHealth connId (req_id req)) s
      else if String.eqb m "status" then
        await GetStatusSummary (AwaitStatus connId (req_id req)) s
      else if String.eqb m "system-presence" then
        let r := listPresence (clock 0%nat) (clock 1%nat) (clock 2%nat) s in
        respond connId (req_id req) true (Some (presenceListJson (snd r))) None (fst r)
      else if String.eqb m "system-event" then
        handleSystemEvent connId req clock s
      else if String.eqb m "set-heartbeats" then
        respond connId (req_id req) true (Some okPayload) None s
      else if String.eqb m "send" then
        handleSend connId req s
      else if String.eqb m "agent" then
        handleAgent connId req uuid s
      else
        respond connId (req_id req) false None
          (Some (errorShape INVALID_REQUEST ("unknown method: " +:+ m))) s
  end.

(** The [socket.on("message")] callback up to its first [await].
    [parsed] is the result of [JSON.parse(data.toString())], [None] when it
    throws. *)
Definition onMessage (connId : string) (parsed : option json) (clock : nat -> Z)
    (uuid : string) (s : State) : State :=
  match conns s !! connId with
  | None => s
  | Some c =>
      if closed c then s
      else
        match parsed with
        | None =>
            let s := logError s in
            match client c with
            | None => close connId s
            | Some _ => s
            end
        | Some v =>
            match client c with
            | None => handleHello connId v clock s
            | Some _ => handleRequest connId v clock uuid s
            end
        end
  end.

(** *** The code behind each [await] *)

Definition withHealth (snapshot : Snapshot) (health : json) (hv : Z) : Snapshot :=
  {| snap_presence := snap_presence snapshot;
     snap_health := health;
     snap_stateVersion :=
       {| sv_presence := sv_presence (snap_stateVersion snapshot); sv_health := hv |};
     snap_uptimeMs := snap_uptimeMs snapshot |}.

Definition continue (k : Suspended) (o : Outcome) (now : Z) (s : State)
    : option State :=
  match k, o with
  | AwaitHelloHealth connId snapshot, Value health =>
      let s := setHealthVersion (healthVersion s + 1) s in
      Some (send connId
              (FHelloOk (helloOk connId (withHealth snapshot health (healthVersion s)))) s)
  | AwaitHealth connId id, Value health =>
      let s := setHealthVersion (healthVersion s + 1) s in
      Some (respond connId id true (Some health) None s)
  | AwaitStatus connId id, Value status =>
      Some (respond connId id true (Some status) None s)
  | AwaitSend connId id idem to, Sent result =>
      let payload :=
        JObj [("runId", JStr idem);
              ("messageId", JStr (messageId result));
              ("toJid", JStr (orElse (toJid result) (to +:+ "@s.whatsapp.net")))] in
      let s :=
        setDedupe
          (JsMap.set ("send:" +:+ idem)
             {| d_ts := now; d_ok := true; d_payload := Some payload; d_error := None |}
             (dedupe s)) s in
      Some (respond connId id true (Some payload) None s)
  | AwaitSend connId id idem to, Threw err =>
      let error := errorShape UNAVAILABLE err in
      let s :=
        setDedupe
          (JsMap.set ("send:" +:+ idem)
             {| d_ts := now; d_ok := false; d_payload := None; d_error := Some error |}
             (dedupe s)) s in
      Some (respond connId id false None (Some error) s)
  | AwaitAgent connId id idem runId, Returned =>
      let payload :=
        JObj [("runId", JStr runId); ("status", JStr "ok");
              ("summary", JStr "completed")] in
      let s :=
        setDedupe
          (JsMap.set ("agent:" +:+ idem)
             {| d_ts := now; d_ok := true; d_payload := Some payload; d_error := None |}
             (dedupe s)) s in
      Some (respond connId id true (Some payload) None s)
  | AwaitAgent connId id idem runId, Threw err =>
      let error := errorShape UNAVAILABLE err in
      let payload :=
        JObj [("runId", JStr runId); ("status", JStr "error");
              ("summary", JStr err)] in
      let s :=
        setDedupe
          (JsMap.set ("agent:" +:+ idem)
             {| d_ts := now; d_ok := false; d_payload := Some payload;
                d_error := Some error |}
             (dedupe s)) s in
      Some (respond connId id false (Some payload) (Some error) s)
  | AwaitHelloHealth _ _, Threw _
  | AwaitHealth _ _, Threw _
  | AwaitStatus _ _, Threw _ => Some (logError s)
  | _, _ => None
  end.

Definition resume (i : nat) (o : Outcome) (now : Z) (s : State) : State :=
  match suspended s !! i with
  | None => s
  | Some k =>
      match continue k o now (setSuspended (delete i (suspended s)) s) with
      | Some s' => s'
      | None => s
      end
  end.

(** *** Socket and timer callbacks *)

(** [wss.on("connection")]; [connId] is the fresh [randomUUID()]. *)
Definition onConnection (connId : string) (s : State) : State :=
  if stopped s then s
  else
    match conns s !! connId with
    | Some _ => s
    | None =>
        setConns
          (<[connId := {| socket := newSocket; client := None; closed := false |}]>
             (conns s)) s
    end.

(** [socket.once("close")] *)
Definition onSocketClose (connId : string) (clock : nat -> Z) (s : State) : State :=
  match conns s !! connId with
  | None => s
  | Some c =>
      match readyState (socket c) with
      | CLOSED => s
      | _ =>
          let s := withSocket connId sockClosed s in
          let s :=
            match client c with
            | Some hello =>
                let key := orStr (client_instanceId hello) connId in
                let s :=
                  setEntries
                    (upsertPresence P key
                       {| p_host := None; p_version := None; p_mode := None;
                          p_instanceId := None;
                          p_reason := Some (Some "disconnect"); p_text := None |}
                       (clock 0%nat) (clock 1%nat) (entries s)) s in
                let s := setPresenceVersion (presenceVersion s + 1) s in
                broadcastPresence (clock 2%nat) (clock 3%nat) (clock 4%nat) s
            | None => s
            end in
          close connId s
      end
  end.

(** [socket.once("error")] *)
Definition onSocketError (connId : string) (s : State) : State := close connId s.

(** The handshake timer: [if (!client) close()]. *)
Definition onHandshakeTimeout (connId : string) (s : State) : State :=
  match conns s !! connId with
  | None => s
  | Some c =>
      match client c with
      | None => close connId s
      | Some _ => s
      end
  end.

Definition onTick (now : Z) (s : State) : State :=
  if stopped s then s
  else broadcast "tick" (JObj [("ts", JNum now)]) true None s.

Definition onDedupeCleanup (now : Z) (s : State) : State :=
  if stopped s then s
  else setDedupe (dedupeCleanup now (dedupe s)) s.

(** The subscriber registered with [onAgentEvent]. *)
Definition onAgentEvent (evt : json) (s : State) : State :=
  if stopped s then s
  else broadcast "agent" evt false None s.

(** [GatewayServer.close()] *)
Definition serverClose (s : State) : State :=
  let s :=
    broadcast "shutdown"
      (JObj [("reason", JStr "gateway stopping"); ("restartExpectedMs", JNull)])
      false None s in
  let s := setStopped true s in
  let s :=
    List.fold_left
      (fun s c => withSocket c (sockClose 1012 (Some "service restart")) s)
      (clients s) s in
  setClients [] s.

(** *** The event loop *)

Inductive Label : Type :=
| Connection (connId : string)
| Message (connId : string) (parsed : option json) (clock : nat -> Z) (uuid : string)
| Settle (i : nat) (o : Outcome) (now : Z)
| SocketClose (connId : string) (clock : nat -> Z)
| SocketError (connId : string)
| HandshakeTimeout (connId : string)
| Tick (now : Z)
| DedupeCleanup (now : Z)
| AgentEvent (evt : json)
| Buffered (connId : string) (n : Z)
| ServerClose.

Definition step (s : State) (l : Label) : State :=
  match l with
  | Connection connId => onConnection connId s
  | Message connId parsed clock uuid => onMessage connId parsed clock uuid s
  | Settle i o now => resume i o now s
  | SocketClose connId clock => onSocketClose connId clock s
  | SocketError connId => onSocketError connId s
  | HandshakeTimeout connId => onHandshakeTimeout connId s
  | Tick now => onTick now s
  | DedupeCleanup now => onDedupeCleanup now s
  | AgentEvent evt => onAgentEvent evt s
  | Buffered connId n => withSocket connId (sockBuffered n) s
  | ServerClose => serverClose s
  end.

Definition run (s : State) (ls : list Label) : State := List.fold_left step ls s.

Definition reachable (s : State) : Prop :=
  exists t ls, s = run (initialState P t) ls.
End Server.

(* ===================================================================== *)
(** ** src/gateway/client.ts *)
(* ===================================================================== *)

Module Client.

(** Which of the optional callbacks the options carry. *)
Record GatewayClientOptions : Type := {
  onEvent : bool;
  onHelloOk : bool;
  onClose : bool;
  onGap : bool;
}.

(** What [handleMessage] does to the outside, in order. *)
Inductive Effect : Type :=
| CallOnHelloOk (hello : json)
| CallOnEvent (evt : json)
| CallOnGap (expected received : Z)
| Resolve (id : string) (payload : option json)
| Reject (id : string) (message : json)
| WsClose (c : Z) (r : string)
| LogError
| LogDebug.

Record GatewayClient : Type := {
  opts : GatewayClientOptions;
  (** [ws !== null] *)
  ws : bool;
  (** request id to [expectFinal] *)
  pending : JsMap.t bool;
  backoffMs : Z;
  closed : bool;
  lastSeq : option Z;
  effects : list Effect;
}.

Definition emit (e : Effect) (c : GatewayClient) : GatewayClient :=
  {| opts := opts c; ws := ws c; pending := pending c; backoffMs := backoffMs c;
     closed := closed c; lastSeq := lastSeq c; effects := effects c ++ [e] |}.

(** [cb?.(...)] *)
Definition emitIf (b : bool) (e : Effect) (c : GatewayClient) : GatewayClient :=
  if b then emit e c else c.

Definition setLastSeq (n : Z) (c : GatewayClient) : GatewayClient :=
  {| opts := opts c; ws := ws c; pending := pending c; backoffMs := backoffMs c;
     closed := closed c; lastSeq := Some n; effects := effects c |}.

Definition setBackoffMs (n : Z) (c : GatewayClient) : GatewayClient :=
  {| opts := opts c; ws := ws c; pending := pending c; backoffMs := n;
     closed := closed c; lastSeq := lastSeq c; effects := effects c |}.

Definition setPending (m : JsMap.t bool) (c : GatewayClient) : GatewayClient :=
  {| opts := opts c; ws := ws c; pending := m; backoffMs := backoffMs c;
     closed := closed c; lastSeq := lastSeq c; effects := effects c |}.

(** Truthiness of a parsed value. *)
Definition truthyJson (o : option json) : bool :=
  match o with
  | None | Some JNull | Some (JBool false) => false
  | Some (JNum n) => negb (n =? 0)
  | Some (JStr s) => truthy s
  | Some _ => true
  end.

Definition typeIs (t : string) (parsed : json) : bool :=
  match prop "type" parsed with
  | Some (JStr s) => String.eqb s t
  | _ => false
  end.

(** The [event] branch. *)
Definition handleEvent (evt : json) (c : GatewayClient) : GatewayClient :=
  let c :=
    match prop "seq" evt with
    | Some (JNum seq) =>
        let c :=
          match lastSeq c with
          | Some last =>
              if last + 1 <? seq
              then emitIf (onGap (opts c)) (CallOnGap (last + 1) seq) c
              else c
          | None => c
          end in
        setLastSeq seq c
    | _ => c
    end in
  emitIf (onEvent (opts c)) (CallOnEvent evt) c.

(** The [res] branch. *)
Definition handleRes (parsed : json) (c : GatewayClient) : GatewayClient :=
  match prop "id" parsed with
  | Some (JStr id) =>
      match JsMap.get id (pending c) with
      | None => c
      | Some expectFinal =>
          let status := prop "status" (nullish (prop "payload" parsed) JNull) in
          if expectFinal
             && match status with Some (JStr st) => String.eqb st "accepted" | _ => false end
          then c
          else
            let c := setPending (JsMap.delete id (pending c)) c in
            if truthyJson (prop "ok" parsed)
            then emit (Resolve id (prop "payload" parsed)) c
            else emit (Reject id
                         (nullish (prop "message" (nullish (prop "error" parsed) JNull))
                            (JStr "unknown error"))) c
      end
  | _ => c
  end.

(** [handleMessage(raw)]; [parsed] is [JSON.parse(raw)], [None] when it throws. *)
Definition handleMessage (parsed : option json) (c : GatewayClient) : GatewayClient :=
  match parsed with
  | None => emit LogDebug c
  | Some v =>
      if typeIs "hello-ok" v then
        emitIf (onHelloOk (opts c)) (CallOnHelloOk v) (setBackoffMs 1000 c)
      else if typeIs "hello-error" v then
        emitIf (ws c) (WsClose 1008 "hello-error") (emit LogError c)
      else if typeIs "event" v then handleEvent v c
      else if typeIs "res" v then handleRes v c
      else c
  end.

(** The members of [GatewayClientOptions] that are not callbacks. *)
Record ClientConfig : Type := {
  url : option string;
  token : option string;
  instanceId : option string;
  clientName : option string;
  clientVersion : option string;
  platform : option string;
  mode : option string;
  minProtocol : option Z;
  maxProtocol : option Z;
}.

(** What the client does to its socket and its timer, in order; the
    [onClose] callback is in this list, behind the reconnect timer it
    follows. *)
Inductive Op : Type :=
| NewWebSocket (url : string)
| WsSend (frame : json)
(** [ws.close()] without code *)
| WsCloseNoCode
(** [setTimeout(() => this.start(), delay)] *)
| StartAfter (delay : Z)
| CallOnClose (c : Z) (r : string).

Definition setWs (b : bool) (c : GatewayClient) : GatewayClient :=
  {| opts := opts c; ws := b; pending := pending c; backoffMs := backoffMs c;
     closed := closed c; lastSeq := lastSeq c; effects := effects c |}.

Definition setClosed (b : bool) (c : GatewayClient) : GatewayClient :=
  {| opts := opts c; ws := ws c; pending := pending c; backoffMs := backoffMs c;
     closed := b; lastSeq := lastSeq c; effects := effects c |}.

(** The state of a client after its constructor. *)
Definition new (o : GatewayClientOptions) : GatewayClient :=
  {| opts := o; ws := false; pending := JsMap.empty; backoffMs := 1000;
     closed := false; lastSeq := None; effects := [] |}.

Definition start (o : ClientConfig) (c : GatewayClient) : GatewayClient * list Op :=
  if closed c then (c, [])
  else (setWs true c, [NewWebSocket (orElse (url o) "ws://127.0.0.1:18789")]).

(** The [hello] object of [sendHello] as the server parses it;
    [process_platform] is [process.platform]. *)
Definition helloOf (process_platform : string) (o : ClientConfig) : json :=
  JObj ([("type", JStr "hello");
         ("minProtocol", JNum (orElse (minProtocol o) PROTOCOL_VERSION));
         ("maxProtocol", JNum (orElse (maxProtocol o) PROTOCOL_VERSION));
         ("client",
          JObj ([("name", JStr (orElse (clientName o) "webchat-backend"));
                 ("version", JStr (orElse (clientVersion o) "dev"));
                 ("platform", JStr (orElse (platform o) process_platform));
                 ("mode", JStr (orElse (mode o) "backend"))]
                ++ field "instanceId" (option_map JStr (instanceId o))));
         ("caps", JArr [])]
        ++ field "auth"
             (match token o with
              | Some t => if truthy t then Some (JObj [("token", JStr t)]) else None
              | None => None
              end)).

Definition sendHello (process_platform : string) (o : ClientConfig)
    (c : GatewayClient) : list Op :=
  if ws c then [WsSend (helloOf process_platform o)] else [].

(** [for (const [, p] of this.pending) p.reject(err); this.pending.clear()] *)
Definition flushPendingErrors (msg : string) (c : GatewayClient) : GatewayClient :=
  setPending JsMap.empty
    (List.fold_left (fun c kv => emit (Reject (fst kv) (JStr msg)) c) (pending c) c).

Definition stop (c : GatewayClient) : GatewayClient * list Op :=
  let ops := if ws c then [WsCloseNoCode] else [] in
  (flushPendingErrors "gateway client stopped" (setWs false (setClosed true c)), ops).

Definition scheduleReconnect (c : GatewayClient) : GatewayClient * list Op :=
  if closed c then (c, [])
  else
    let delay := backoffMs c in
    (setBackoffMs (Z.min (backoffMs c * 2) 30000) c, [StartAfter delay]).

(** The [close] listener [start] puts on the socket. *)
Definition onWsClose (code : Z) (reason : string) (c : GatewayClient)
    : GatewayClient * list Op :=
  let c := setWs false c in
  let c :=
    flushPendingErrors ("gateway closed (" +:+ pretty code +:+ "): " +:+ reason) c in
  let r := scheduleReconnect c in
  (fst r, snd r ++ (if onClose (opts c) then [CallOnClose code reason] else [])).

(** The [frame] of [request]; a [params] that is [undefined] is no member
    of the text sent. *)
Definition requestFrame (id method : string) (params : option json) : json :=
  JObj ([("type", JStr "req"); ("id", JStr id); ("method", JStr method)]
        ++ field "params" params).

(** The errors [request] throws. *)
Inductive RequestError : Type :=
| NotConnected
| InvalidRequestFrame.

(** [request(method, params, opts)] up to the promise it returns; [open] is
    [this.ws.readyState === WebSocket.OPEN], [id] the [randomUUID()]. *)
Definition request (open : bool) (id method : string) (params : option json)
    (expectFinal : bool) (c : GatewayClient)
    : GatewayClient * list Op + RequestError :=
  if negb (ws c && open) then inr NotConnected
  else
    let frame := requestFrame id method params in
    match validateRequestFrame frame with
    | None => inr InvalidRequestFrame
    | Some _ =>
        inl (setPending (JsMap.set id expectFinal (pending c)) c, [WsSend frame])
    end.

End Client.

(* ===================================================================== *)
(** ** src/webchat/server.ts: the RPC that starts an agent run *)
(* ===================================================================== *)

(** A member of the parsed body of the POST.  The body comes from outside
    the gateway, so that its numbers need not be the integers [json] holds:
    [Fraction text] is a number that is no integer (one with a fraction, or
    one beyond the range of a double, which parses to [Infinity]), [text]
    being what [String] gives for it.  Such a number is truthy. *)
Inductive BodyValue : Type :=
| Whole (v : json)
| Fraction (text : string).

(** The parsed body: [null], or a value with its members; a value that is
    no object (a number, a string, an array) has none of the members read. *)
Inductive Body : Type :=
| BodyNull
| BodyMembers (fs : list (string * BodyValue)).

(** [payload.k], on a body that is not [null] *)
Definition member (k : string) (b : Body) : option BodyValue :=
  match b with
  | BodyNull => None
  | BodyMembers fs => assoc k fs
  end.

(** How [handleRpc] goes up to its [gateway.request]: it returns an error,
    throws, or asks the gateway for the method [agent] with the members
    [params], expecting a final answer. *)
Inductive RpcStart : Type :=
| RpcError (error : string)
| RpcThrows
| RpcAgent (params : list (string * BodyValue)).

(** [(payload.text ?? "").toString()]; [None] when [toString] throws. *)
Definition rpcText (P : Platform) (b : Body) : option string :=
  match member "text" b with
  | None | Some (Whole JNull) => Some ""
  | Some (Whole v) => if toStringThrows v then None else Some (js_String P v)
  | Some (Fraction t) => Some t
  end.

(** [typeof v === "string" ? v : undefined] *)
Definition onlyString (o : option BodyValue) : option BodyValue :=
  match o with Some (Whole (JStr t)) => Some (Whole (JStr t)) | _ => None end.

(** [typeof v === "number" ? v : undefined] *)
Definition onlyNumber (o : option BodyValue) : option BodyValue :=
  match o with
  | Some (Whole (JNum n)) => Some (Whole (JNum n))
  | Some (Fraction t) => Some (Fraction t)
  | _ => None
  end.

(** [Boolean(v)] *)
Definition toBoolean (o : option BodyValue) : bool :=
  match o with
  | None => false
  | Some (Whole v) => Client.truthyJson (Some v)
  | Some (Fraction _) => true
  end.

(** A member of an object literal; one that is [undefined] is left out of
    the text sent. *)
Definition memberIf (k : string) (o : option BodyValue) : list (string * BodyValue) :=
  match o with Some v => [(k, v)] | None => [] end.

(** [body] is the parsed body of the POST, [{}] when it does not parse;
    [gatewayUp] is [gateway && gatewayReady]; [uuid] the [randomUUID()].
    Reading [payload.text] throws on a body that is [null]. *)
Definition handleRpc (P : Platform) (gatewayUp : bool) (body : Body) (uuid : string)
    : RpcStart :=
  match body with
  | BodyNull => RpcThrows
  | BodyMembers _ =>
      match rpcText P body with
      | None => RpcThrows
      | Some text =>
          if negb (truthy (trim text)) then RpcError "empty text"
          else if negb gatewayUp then RpcError "gateway unavailable"
          else
            let thinking := onlyString (member "thinking" body) in
            let to := onlyString (member "to" body) in
            let deliver := toBoolean (member "deliver" body) in
            let timeout := onlyNumber (member "timeout" body) in
            RpcAgent
              ([("message", Whole (JStr text))]
               ++ memberIf "thinking" thinking
               ++ [("deliver", Whole (JBool deliver))]
               ++ memberIf "to" to
               ++ memberIf "timeout" timeout
               ++ [("idempotencyKey", Whole (JStr uuid))])
      end
  end.

(** The members of an object none of which is a number that is no integer. *)
Fixpoint wholeMembers (fs : list (string * BodyValue)) : option (list (string * json)) :=
  match fs with
  | [] => Some []
  | (k, Whole v) :: rest => option_map (cons (k, v)) (wholeMembers rest)
  | (_, Fraction _) :: _ => None
  end.

(** The gateway's [validateAgentParams] on the params of a request that
    may hold a number that is no integer.  Every property of
    [AgentParamsSchema] is a string, a boolean or an integer, and it allows
    no other property: an object with such a number as a member fails. *)
Definition validateAgentParamsOf (fs : list (string * BodyValue)) : option AgentParams :=
  match wholeMembers fs with
  | Some ms => validateAgentParams (JObj ms)
  | None => None
  end.

(* ===================================================================== *)
(** ** Observations and sample data *)
(* ===================================================================== *)

(** The frames written to a connection so far. *)
Definition outboundOf (connId : string) (s : State) : list Frame :=
  match conns s !! connId with
  | Some c => outbound (socket c)
  | None => []
  end.

Definition socketOf (connId : string) (s : State) : option Socket :=
  option_map socket (conns s !! connId).

(** The [seq] of the event frames among [fs], in order. *)
Definition eventSeqs (fs : list Frame) : list Z :=
  List.flat_map (fun f => match f with FEvent _ _ n _ => [n] | _ => [] end) fs.

(** The [res] frames among [fs], in order. *)
Definition responses (fs : list Frame) : list Frame :=
  List.filter (fun f => match f with FRes _ _ _ _ => true | _ => false end) fs.

(** What a frame is, without its payload. *)
Definition frameKind (f : Frame) : string :=
  match f with
  | FHelloOk _ => "hello-ok"
  | FHelloError _ _ => "hello-error"
  | FRes _ _ _ _ => "res"
  | FEvent e _ _ _ => "event " +:+ e
  end.

(** The dedupe key a suspended request will write. *)
Definition dedupeKey (k : Suspended) : option string :=
  match k with
  | AwaitSend _ _ idem _ => Some ("send:" +:+ idem)
  | AwaitAgent _ _ idem _ => Some ("agent:" +:+ idem)
  | _ => None
  end.

(** The connection and the request a suspended handler answers. *)
Definition connOf (k : Suspended) : string :=
  match k with
  | AwaitHelloHealth c _ | AwaitHealth c _ | AwaitStatus c _
  | AwaitSend c _ _ _ | AwaitAgent c _ _ _ => c
  end.

Definition idOf (k : Suspended) : string :=
  match k with
  | AwaitHelloHealth _ _ => ""
  | AwaitHealth _ id | AwaitStatus _ id | AwaitSend _ id _ _ | AwaitAgent _ id _ _ => id
  end.

(** The outcomes the port awaited by [k] can settle with. *)
Definition settles (k : Suspended) (o : Outcome) : bool :=
  match k, o with
  | AwaitHelloHealth _ _, (Value _ | Threw _)
  | AwaitHealth _ _, (Value _ | Threw _)
  | AwaitStatus _ _, (Value _ | Threw _)
  | AwaitSend _ _ _ _, (Sent _ | Threw _)
  | AwaitAgent _ _ _ _, (Returned | Threw _) => true
  | _, _ => false
  end.

(** The dedupe key of a request: defined for [send] and [agent] requests
    whose params pass their schema. *)
Definition requestKey (req : RequestFrame) : option string :=
  let p := nullish (req_params req) (JObj []) in
  if String.eqb (req_method req) "send" then
    option_map (fun params => "send:" +:+ sp_idempotencyKey params) (validateSendParams p)
  else if String.eqb (req_method req) "agent" then
    option_map (fun params => "agent:" +:+ ap_idempotencyKey params) (validateAgentParams p)
  else None.

(** The step [l] taken in state [s] leaves the cache entry under [key]
    alone: it is not a cleanup that finds the entry older than the TTL or
    the cache above its cap, and not the completion of another request in
    flight with the same key. *)
Definition keepsStep (key : string) (s : State) (l : Label) : Prop :=
  match l with
  | DedupeCleanup now =>
      (forall e, JsMap.get key (dedupe s) = Some e -> now - d_ts e <= DEDUPE_TTL_MS)
      /\ JsMap.size (dedupe s) <= DEDUPE_MAX
  | Settle i _ _ =>
      forall k, suspended s !! i = Some k -> dedupeKey k <> Some key
  | _ => True
  end.

Fixpoint keeps (P : Platform) (key : string) (s : State) (ls : list Label) : Prop :=
  match ls with
  | [] => True
  | l :: ls' => keepsStep key s l /\ keeps P key (step P s l) ls'
  end.

(** [l] increases strictly and stays at or below [n]. *)
Definition seqsUpTo (n : Z) (l : list Z) : Prop :=
  StronglySorted Z.lt l /\ Forall (fun x => x <= n) l.

(** The clients set has no duplicates, and on every connection the event
    frames written so far carry strictly increasing sequence numbers, none
    above the counter. *)
Record Inv (s : State) : Prop := {
  Inv_clients : NoDup (clients s);
  Inv_seqs :
    forall id c, conns s !! id = Some c ->
      seqsUpTo (seq s) (eventSeqs (outbound (socket c)));
}.

(** A socket operation that writes no event frame. *)
Definition quiet (f : Socket -> Socket) : Prop :=
  forall k, eventSeqs (outbound (f k)) = eventSeqs (outbound k).

(** The cache of [s] is [d]; sealed so that the lemmas below apply by the
    shape of the handler only. *)
Record DedupeIs (d : JsMap.t DedupeEntry) (s : State) : Prop := {
  dedupe_is : dedupe s = d;
}.

(** What a handler that started in [s0] has done to the counter and to the
    event frames by the time it is in [s]: nothing yet, or, when [b] allows
    it, one increment of the counter with event frames of that number. *)
Record Phase (b : bool) (s0 s : State) : Prop := {
  phase :
    (seq s = seq s0
     /\ forall id, eventSeqs (outboundOf id s) = eventSeqs (outboundOf id s0))
    \/ (b = true /\ seq s = seq s0 + 1
        /\ forall id, exists new,
             eventSeqs (outboundOf id s) = eventSeqs (outboundOf id s0) ++ new
             /\ Forall (fun n => n = seq s0 + 1) new);
}.

Definition lowerAscii (a : ascii) : ascii :=
  let n := nat_of_ascii a in
  if ((65 <=? n) && (n <=? 90))%nat then ascii_of_nat (n + 32) else a.

Definition asciiLower (s : string) : string :=
  string_of_list_ascii (List.map lowerAscii (list_ascii_of_string s)).

(** A host named [GW] without interfaces, environment or token. *)
Definition sampleHost : Platform :=
  {| os_hostname := "GW"; os_networkInterfaces := [];
     env_CLAWDIS_VERSION := None; env_npm_package_version := None;
     env_GIT_COMMIT := None; env_CLAWDIS_GATEWAY_TOKEN := None;
     toLowerCase := asciiLower; Number_toString := pretty;
     helloErrorsText := fun _ => "must be object";
     requestFrameErrorsText := fun _ => "must be object";
     sendParamsErrorsText := fun _ => "must be object";
     agentParamsErrorsText := fun _ => "must be object";
     uptimeMs := 0 |}.

(** The [hello] of the test suite. *)
Definition sampleHello : json :=
  JObj [("type", JStr "hello"); ("minProtocol", JNum 1); ("maxProtocol", JNum 1);
        ("client", JObj [("name", JStr "test"); ("version", JStr "1.0.0");
                         ("platform", JStr "test"); ("mode", JStr "test")]);
        ("caps", JArr [])].

Definition reqJson (id m : string) (params : list (string * json)) : json :=
  JObj [("type", JStr "req"); ("id", JStr id); ("method", JStr m);
        ("params", JObj params)].

(** A clock that reads [t] at every call. *)
Definition at_ (t : Z) : nat -> Z := fun _ => t.

(** A client connects, says hello at time [t] and gets its [hello-ok]. *)
Definition dial (connId : string) (t : Z) : list Label :=
  [Connection connId; Message connId (Some sampleHello) (at_ t) "";
   Settle 0 (Value (JObj [("ok", JBool true)])) t].

(** Two clients [A] and [B] after their handshakes. *)
Definition twoClients : State :=
  run sampleHost (initialState sampleHost 0) (dial "A" 10 ++ dial "B" 20).

Definition agentReq (id message idem : string) : json :=
  reqJson id "agent" [("message", JStr message); ("idempotencyKey", JStr idem)].

Definition systemEventReq (id text : string) : json :=
  reqJson id "system-event" [("text", JStr text)].

(** [A] has an [agent] request with key [I] in flight. *)
Definition agentInFlight : State :=
  run sampleHost twoClients
    [Message "A" (Some (agentReq "ag1" "hi" "I")) (at_ 30) "run-1"].

(** [B] stopped reading: its send buffer is above the high-water mark. *)
Definition slowB : State :=
  run sampleHost twoClients [Buffered "B" 2000000].

(** An agent event, an [agent] request of [A], another agent event. *)
Definition gapRun : list Label :=
  [AgentEvent (JObj [("runId", JStr "run-0")]);
   Message "A" (Some (agentReq "ag1" "hi" "I")) (at_ 30) "run-1";
   AgentEvent (JObj [("runId", JStr "run-0")])].

Definition gapState : State := run sampleHost twoClients gapRun.

Definition freshEntry (t : Z) : DedupeEntry :=
  {| d_ts := t; d_ok := true; d_payload := None; d_error := None |}.

(** A cache of [n] entries with distinct keys, all written at time [t]. *)
Definition cacheOf (n : nat) (t : Z) : JsMap.t DedupeEntry :=
  List.map (fun i => ("send:" +:+ pretty i, freshEntry t)) (List.seq 0 n).

Definition sampleClient (last : option Z) : Client.GatewayClient :=
  {| Client.opts := {| Client.onEvent := true; Client.onHelloOk := true;
                       Client.onClose := true; Client.onGap := true |};
     Client.ws := true; Client.pending := JsMap.empty; Client.backoffMs := 1000;
     Client.closed := false; Client.lastSeq := last; Client.effects := [] |}.

Definition eventJson (e : string) (n : Z) : json :=
  JObj [("type", JStr "event"); ("event", JStr e); ("seq", JNum n)].

(** The payload of a [res] is an acknowledgement the client skips when the
    request expects a final answer: [parsed.payload?.status === "accepted"]. *)
Definition acceptedAck (payload : option json) : bool :=
  match payload with
  | Some p => match prop "status" p with
              | Some (JStr st) => String.eqb st "accepted"
              | _ => false
              end
  | None => false
  end.

(** The patch [handleHello] hands to [upsertPresence]. *)
Definition connectPatch (P : Platform) (hello : Hello) : PresencePatch :=
  {| p_host := Some (Some (os_hostname P));
     p_version := Some (Some (serverVersion P));
     p_mode := Some (Some (client_mode hello));
     p_instanceId := Some (client_instanceId hello);
     p_reason := Some (Some "connect");
     p_text := None |}.

(** The registry and the list [buildSnapshot] takes during the handshake of
    [connId], after the upsert of its entry. *)
Definition helloPresence (P : Platform) (connId : string) (hello : Hello)
    (clock : nat -> Z) (es : JsMap.t SystemPresence)
    : JsMap.t SystemPresence * list SystemPresence :=
  listSystemPresence P (clock 2%nat) (clock 3%nat) (clock 4%nat)
    (upsertPresence P (orStr (client_instanceId hello) connId) (connectPatch P hello)
       (clock 0%nat) (clock 1%nat) es).

(* ===================================================================== *)
(** ** The frames and presence updates of shutdown, keepalive and disconnect *)
(* ===================================================================== *)

(** The [shutdown] event of [GatewayServer.close()] with the number [n]. *)
Definition shutdownEvent (n : Z) : Frame :=
  FEvent "shutdown"
    (JObj [("reason", JStr "gateway stopping"); ("restartExpectedMs", JNull)]) n None.

(** The [tick] event of the keepalive timer. *)
Definition tickEvent (now n : Z) : Frame :=
  FEvent "tick" (JObj [("ts", JNum now)]) n None.

(** The patch the socket [close] listener hands to [upsertPresence]. *)
Definition disconnectPatch : PresencePatch :=
  {| p_host := None; p_version := None; p_mode := None; p_instanceId := None;
     p_reason := Some (Some "disconnect"); p_text := None |}.

(** The registry and the list of the presence broadcast when the socket of
    the client [hello] on [connId] closes. *)
Definition goodbyePresence (P : Platform) (connId : string) (hello : Hello)
    (clock : nat -> Z) (es : JsMap.t SystemPresence)
    : JsMap.t SystemPresence * list SystemPresence :=
  listSystemPresence P (clock 2%nat) (clock 3%nat) (clock 4%nat)
    (upsertPresence P (orStr (client_instanceId hello) connId) disconnectPatch
       (clock 0%nat) (clock 1%nat) es).

(* ===================================================================== *)
(** ** Invariants of the reachable states *)
(* ===================================================================== *)

(** The connection [id] got through the checks of its [hello]. *)
Record HasClient (id : string) (s : State) : Prop := {
  has_client : exists c, conns s !! id = Some c /\ client c <> None;
}.

(** Nothing, or one [hello-error]. *)
Definition helloErrorOnly (fs : list Frame) : Prop :=
  fs = [] \/ exists reason expected, fs = [FHelloError reason expected].

(** Who the server talks to: the clients set holds connections that got
    through the checks of [hello] and that the server did not close;
    suspended handlers answer such connections; a connection that did not
    get through has been written nothing but the [hello-error] that went
    with its close; and a connection the server closed has a socket that is
    not open. *)
Record Auth (s : State) : Prop := {
  Auth_clients :
    forall id, In id (clients s) ->
      exists c, conns s !! id = Some c /\ client c <> None /\ closed c = false;
  Auth_suspended : forall k, In k (suspended s) -> HasClient (connOf k) s;
  Auth_waiting :
    forall id c, conns s !! id = Some c -> client c = None -> closed c = false ->
      outbound (socket c) = [];
  Auth_rejected :
    forall id c, conns s !! id = Some c -> client c = None ->
      helloErrorOnly (outbound (socket c));
  Auth_closed :
    forall id c, conns s !! id = Some c -> closed c = true ->
      readyState (socket c) <> OPEN;
}.

(** [Auth], in a handler of the connection [id], which has a client. *)
Record AuthC (id : string) (s : State) : Prop := {
  authc_auth : Auth s;
  authc_has : HasClient id s;
}.

(** A socket operation after which a socket that was not open is not open. *)
Definition keepsShut (f : Socket -> Socket) : Prop :=
  forall k, readyState k <> OPEN -> readyState (f k) <> OPEN.

(** What a connection [c] can have become at a later time: frames are only
    added to what was written; a socket that is not open gets no frame,
    keeps its close code and does not open again; a connection the server
    closed stays closed, with the client it had; and a client, once set, is
    not replaced. *)
Record Later (c c' : Conn) : Prop := {
  later_frames : exists new, outbound (socket c') = outbound (socket c) ++ new;
  later_shut :
    readyState (socket c) <> OPEN ->
    outbound (socket c') = outbound (socket c)
    /\ closeSent (socket c') = closeSent (socket c)
    /\ readyState (socket c') <> OPEN;
  later_closed : closed c = true -> closed c' = true /\ client c' = client c;
  later_client : forall h, client c = Some h -> client c' = Some h;
}.

(** Every connection of [s0] is in [s], as what it has become. *)
Record Sim (s0 s : State) : Prop := {
  sim :
    forall id c, conns s0 !! id = Some c ->
      exists c', conns s !! id = Some c' /\ Later c c';
}.

(** A socket operation that only adds frames and leaves alone a socket
    that is not open. *)
Definition steady (f : Socket -> Socket) : Prop :=
  forall k,
    (exists new, outbound (f k) = outbound k ++ new)
    /\ (readyState k <> OPEN ->
        outbound (f k) = outbound k /\ closeSent (f k) = closeSent k
        /\ readyState (f k) <> OPEN).

(** The process-wide counters of [s] are at or above those of [s0], and a
    server that was stopped in [s0] is stopped in [s]. *)
Record Mono (s0 s : State) : Prop := {
  mono_seq : seq s0 <= seq s;
  mono_presence : presenceVersion s0 <= presenceVersion s;
  mono_health : healthVersion s0 <= healthVersion s;
  mono_stopped : stopped s0 = true -> stopped s = true;
}.

(** Between [s0] and [s] a handler has answered nobody and called no port:
    the [res] frames written, the suspended handlers and the port calls are
    those of [s0], and every socket is in the state it was in. *)
Record Quiet (s0 s : State) : Prop := {
  quiet_suspended : suspended s = suspended s0;
  quiet_portCalls : portCalls s = portCalls s0;
  quiet_responses :
    forall id, responses (outboundOf id s) = responses (outboundOf id s0);
  quiet_ready :
    forall id, option_map readyState (socketOf id s) = option_map readyState (socketOf id s0);
}.

(** A socket operation that writes no [res] and keeps the state of the socket. *)
Definition calm (f : Socket -> Socket) : Prop :=
  forall k, responses (outbound (f k)) = responses (outbound k)
            /\ readyState (f k) = readyState k.

(* ===================================================================== *)
(** ** More sample data *)
(* ===================================================================== *)

(** A connection as [wss.on("connection")] creates it. *)
Definition freshConn : Conn :=
  {| socket := newSocket; client := None; closed := false |}.

(** [A] has connected and not said [hello] yet. *)
Definition oneConnection : State :=
  run sampleHost (initialState sampleHost 0) [Connection "A"].

(** What the server read from [sampleHello]. *)
Definition sampleHelloRead : Hello :=
  {| minProtocol := 1; maxProtocol := 1; client_name := "test";
     client_version := "1.0.0"; client_platform := "test"; client_mode := "test";
     client_instanceId := None; auth_token := None |}.

(** A [hello] for protocol versions 2 to 3. *)
Definition futureHello : json :=
  JObj [("type", JStr "hello"); ("minProtocol", JNum 2); ("maxProtocol", JNum 3);
        ("client", JObj [("name", JStr "t"); ("version", JStr "1");
                         ("platform", JStr "test"); ("mode", JStr "test")]);
        ("caps", JArr [])].

(** The connection of [A] in [twoClients]. *)
Definition connA : Conn :=
  match conns twoClients !! "A" with Some c => c | None => freshConn end.

(** [A] was refused for its protocol versions. *)
Definition refusedA : State :=
  run sampleHost oneConnection [Message "A" (Some futureHello) (at_ 10) ""].

Definition refusedConnA : Conn :=
  match conns refusedA !! "A" with Some c => c | None => freshConn end.

(** A registry of [n] entries written at time [t]. *)
Definition registryOf (n : nat) (t : Z) : JsMap.t SystemPresence :=
  List.map
    (fun i =>
       ("node-" +:+ pretty i,
        {| host := None; ip := None; version := None; lastInputSeconds := None;
           mode := None; reason := None; instanceId := None;
           text := "Node: " +:+ pretty i; ts := t + Z.of_nat i |}))
    (List.seq 0 n).

(** The host [GW] with a loopback interface, an Ethernet interface without
    an IPv4 address and a wireless one with one. *)
Definition wifiHost : Platform :=
  {| os_hostname := "GW";
     os_networkInterfaces :=
       [("lo", [{| family := "IPv4"; internal := true; address := "127.0.0.1" |}]);
        ("eth0", [{| family := "IPv6"; internal := false; address := "fe80::1" |}]);
        ("wlan0", [{| family := "IPv6"; internal := false; address := "fe80::2" |};
                   {| family := "IPv4"; internal := false; address := "192.168.1.7" |}]);
        ("tun0", [{| family := "IPv4"; internal := false; address := "10.8.0.2" |}])];
     env_CLAWDIS_VERSION := None; env_npm_package_version := None;
     env_GIT_COMMIT := None; env_CLAWDIS_GATEWAY_TOKEN := None;
     toLowerCase := asciiLower; Number_toString := pretty;
     helloErrorsText := fun _ => "must be object";
     requestFrameErrorsText := fun _ => "must be object";
     sendParamsErrorsText := fun _ => "must be object";
     agentParamsErrorsText := fun _ => "must be object";
     uptimeMs := 0 |}.

(** A cache of [n] entries with distinct keys, the entry of index [i]
    written at time [i]. *)
Definition agedCache (n : nat) : JsMap.t DedupeEntry :=
  List.map (fun i => ("send:" +:+ pretty i, freshEntry (Z.of_nat i))) (List.seq 0 n).

(** The connection of [A] while its agent request is in flight. *)
Definition socketAInFlight : Socket :=
  match socketOf "A" agentInFlight with Some k => k | None => newSocket end.

(** The entry [registryOf] writes at index [i]. *)
Definition nodeEntry (i : nat) (t : Z) : SystemPresence :=
  {| host := None; ip := None; version := None; lastInputSeconds := None;
     mode := None; reason := None; instanceId := None;
     text := "Node: " +:+ pretty i; ts := t + Z.of_nat i |}.

(** A client with all four callbacks, just constructed. *)
Definition allCallbacks : Client.GatewayClientOptions :=
  {| Client.onEvent := true; Client.onHelloOk := true; Client.onClose := true;
     Client.onGap := true |}.

(** The request frame [systemEventReq "e1" "note"] as the server reads it. *)
Definition noteReq : RequestFrame :=
  {| req_id := "e1"; req_method := "system-event";
     req_params := Some (JObj [("text", JStr "note")]) |}.

(* ===================================================================== *)
(** ** The definitions on small inputs *)
(* ===================================================================== *)

Example trim_ascii : trim "  note from test 	" = "note from test".
Proof. reflexivity. Qed.

Example trim_blank : trim " " = "".
Proof. reflexivity. Qed.

(** U+00A0 in front, U+2028 and a line feed behind. *)
Example trim_unicode : trim (bytes [194; 160; 97; 32; 98; 226; 128; 168; 10]) = "a b".
Proof. reflexivity. Qed.

(** A byte of a longer encoding is not white space on its own. *)
Example trim_keeps_text : trim (bytes [226; 128; 148; 97]) = bytes [226; 128; 148; 97].
Proof. reflexivity. Qed.

Example set_keeps_position :
  JsMap.set "a" 3 (JsMap.set "b" 2 (JsMap.set "a" 1 JsMap.empty)) = [("a", 3); ("b", 2)].
Proof. reflexivity. Qed.

Example sortBy_is_stable :
  sortBy (fun a b : string * Z => snd a <=? snd b) [("x", 2); ("y", 1); ("z", 2); ("w", 1)]
  = [("y", 1); ("w", 1); ("x", 2); ("z", 2)].
Proof. reflexivity. Qed.

Example validateRequestFrame_accepts :
  validateRequestFrame (systemEventReq "e1" "note")
  = Some {| req_id := "e1"; req_method := "system-event";
            req_params := Some (JObj [("text", JStr "note")]) |}.
Proof. reflexivity. Qed.

Example validateRequestFrame_rejects_extra_member :
  validateRequestFrame
    (JObj [("type", JStr "req"); ("id", JStr "a"); ("method", JStr "health");
           ("extra", JNull)]) = None.
Proof. reflexivity. Qed.

Example validateRequestFrame_rejects_hello : validateRequestFrame sampleHello = None.
Proof. reflexivity. Qed.

Example validateHello_accepts :
  option_map client_mode (validateHello sampleHello) = Some "test".
Proof. reflexivity. Qed.

Example validateAgentParams_needs_key :
  validateAgentParams (JObj [("message", JStr "hi")]) = None.
Proof. reflexivity. Qed.

Example systemEventText_of_number :
  systemEventText sampleHost (Some (JObj [("text", JNum 42)])) = "42".
Proof. reflexivity. Qed.

Example systemEventText_missing : systemEventText sampleHost None = "".
Proof. reflexivity. Qed.

(** After the two handshakes: both clients are in the set, no event was
    emitted, and the registry holds the gateway and the two connections. *)
Example twoClients_state :
  clients twoClients = ["A"; "B"]
  /\ seq twoClients = 0
  /\ presenceVersion twoClients = 3
  /\ JsMap.keys (entries twoClients) = ["gw"; "A"; "B"]
  /\ List.map frameKind (outboundOf "A" twoClients) = ["hello-ok"]
  /\ suspended twoClients = [].
Proof. vm_compute. repeat split. Qed.

(** The handshake of the specification's first scenario. *)
Example protocol_mismatch_is_rejected :
  let hello :=
    JObj [("type", JStr "hello"); ("minProtocol", JNum 2); ("maxProtocol", JNum 3);
          ("client", JObj [("name", JStr "t"); ("version", JStr "1");
                           ("platform", JStr "test"); ("mode", JStr "test")]);
          ("caps", JArr [])] in
  socketOf "A"
    (run sampleHost (initialState sampleHost 0)
       [Connection "A"; Message "A" (Some hello) (at_ 10) ""])
  = Some {| readyState := CLOSING; bufferedAmount := 0;
            outbound := [FHelloError "protocol mismatch" (Some 1)];
            closeSent := Some (1002, Some "protocol mismatch") |}.
Proof. vm_compute. reflexivity. Qed.

Example small_cache_is_kept :
  dedupeCleanup 60000 (cacheOf 3 0) = cacheOf 3 0.
Proof. vm_compute. reflexivity. Qed.

Example expired_entries_are_swept :
  dedupeCleanup 300001 (cacheOf 3 0) = [].
Proof. vm_compute. reflexivity. Qed.

Example gap_callback_fires :
  Client.effects (Client.handleMessage (Some (eventJson "tick" 7)) (sampleClient (Some 4)))
  = [Client.CallOnGap 5 7; Client.CallOnEvent (eventJson "tick" 7)].
Proof. reflexivity. Qed.

Example no_gap_on_next_seq :
  Client.effects (Client.handleMessage (Some (eventJson "tick" 5)) (sampleClient (Some 4)))
  = [Client.CallOnEvent (eventJson "tick" 5)].
Proof. reflexivity. Qed.

(* ===================================================================== *)
(** ** Lemmas on strings, maps and sorting *)
(* ===================================================================== *)

Lemma assoc_In {V : Type} (k : string) (v : V) (l : list (string * V)) :
  assoc k l = Some v -> In (k, v) l.
Proof.
  induction l as [|[k' v'] l IH]; simpl; [discriminate|].
  destruct (String.eqb_spec k k') as [->|Hne].
  - intros [= ->]. now left.
  - intros H. right. now apply IH.
Qed.

Lemma get_set_eq {V : Type} (k : string) (v : V) (m : JsMap.t V) :
  JsMap.get k (JsMap.set k v m) = Some v.
Proof.
  unfold JsMap.get.
  induction m as [|[k' v'] m IH]; simpl.
  - now rewrite String.eqb_refl.
  - destruct (String.eqb_spec k k') as [->|Hne]; simpl.
    + now rewrite String.eqb_refl.
    + destruct (String.eqb_spec k k'); [contradiction|exact IH].
Qed.

Lemma get_set_ne {V : Type} (k k' : string) (v : V) (m : JsMap.t V) :
  k <> k' -> JsMap.get k' (JsMap.set k v m) = JsMap.get k' m.
Proof.
  intros Hne. unfold JsMap.get.
  induction m as [|[k0 v0] m IH]; simpl.
  - destruct (String.eqb_spec k' k); [congruence|reflexivity].
  - destruct (String.eqb_spec k k0) as [->|Hk]; simpl.
    + destruct (String.eqb_spec k' k0); [congruence|reflexivity].
    + destruct (String.eqb_spec k' k0); [reflexivity|exact IH].
Qed.


Lemma In_delete {V : Type} (k : string) (m : JsMap.t V) (kv : string * V) :
  In kv (JsMap.delete k m) -> In kv m.
Proof.
  induction m as [|[k' v'] m IH]; simpl; [tauto|].
  destruct (String.eqb k k'); simpl.
  - intros H. now right.
  - intros [<-|H]; [now left|right; now apply IH].
Qed.

Lemma In_dropKeys {V : Type} (n : nat) (sorted : list (string * V))
    (m : JsMap.t V) (kv : string * V) :
  In kv (dropKeys n sorted m) -> In kv m.
Proof.
  revert sorted m.
  induction n as [|n IH]; intros [|[k v] rest] m; simpl; try tauto.
  intros H. apply IH in H. now apply In_delete in H.
Qed.

Lemma get_filter {V : Type} (p : string * V -> bool) (k : string) (v : V)
    (m : JsMap.t V) :
  JsMap.get k m = Some v -> p (k, v) = true ->
  JsMap.get k (List.filter p m) = Some v.
Proof.
  unfold JsMap.get. intros Hget Hp.
  induction m as [|[k' v'] m IH]; simpl in *; [discriminate|].
  destruct (String.eqb_spec k k') as [->|Hne].
  - injection Hget as ->. rewrite Hp. simpl. now rewrite String.eqb_refl.
  - destruct (p (k', v')); simpl; [|now apply IH].
    destruct (String.eqb_spec k k'); [contradiction|now apply IH].
Qed.

Lemma length_filter_le {A : Type} (p : A -> bool) (l : list A) :
  (List.length (List.filter p l) <= List.length l)%nat.
Proof.
  induction l as [|x l IH]; simpl; [lia|].
  destruct (p x); simpl; lia.
Qed.

Lemma insertBy_Permutation {A : Type} (le : A -> A -> bool) (x : A) (l : list A) :
  Permutation (insertBy le x l) (x :: l).
Proof.
  induction l as [|y l IH]; simpl; [reflexivity|].
  destruct (le x y); [reflexivity|].
  rewrite IH. apply perm_swap.
Qed.

Lemma sortBy_Permutation {A : Type} (le : A -> A -> bool) (l : list A) :
  Permutation (sortBy le l) l.
Proof.
  induction l as [|x l IH]; simpl; [reflexivity|].
  rewrite insertBy_Permutation. now constructor.
Qed.

Lemma In_sortBy {A : Type} (le : A -> A -> bool) (l : list A) (x : A) :
  In x (sortBy le l) <-> In x l.
Proof.
  split; apply Permutation_in; [|symmetry]; apply sortBy_Permutation.
Qed.

Section Sorting.
Context {A : Type} (le : A -> A -> bool) (R : A -> A -> Prop).
Hypothesis le_R : forall a b, le a b = true -> R a b.
Hypothesis nle_R : forall a b, le a b = false -> R b a.
Hypothesis R_trans : forall a b c, R a b -> R b c -> R a c.

Lemma insertBy_sorted (x : A) (l : list A) :
  StronglySorted R l -> StronglySorted R (insertBy le x l).
Proof.
  induction 1 as [|y l Hs IH Hall]; simpl.
  - constructor; constructor.
  - destruct (le x y) eqn:E.
    + constructor; [now constructor|].
      constructor; [now apply le_R|].
      eapply Forall_impl; [exact Hall|].
      intros z Hz. eapply R_trans; [apply le_R; exact E|exact Hz].
    + constructor; [exact IH|].
      rewrite List.Forall_forall. intros z Hz.
      apply (Permutation_in _ (insertBy_Permutation le x l)) in Hz.
      destruct Hz as [<-|Hz]; [now apply nle_R|].
      rewrite List.Forall_forall in Hall. now apply Hall.
Qed.

Lemma sortBy_sorted (l : list A) : StronglySorted R (sortBy le l).
Proof.
  induction l as [|x l IH]; simpl; [constructor|now apply insertBy_sorted].
Qed.
End Sorting.

(* ===================================================================== *)
(** ** The presence registry *)
(* ===================================================================== *)

Lemma get_In_values {V : Type} (k : string) (v : V) (m : JsMap.t V) :
  JsMap.get k m = Some v -> In v (JsMap.values m).
Proof.
  intros H. apply assoc_In in H.
  unfold JsMap.values. change v with (snd (k, v)). now apply in_map.
Qed.



Lemma enforceMax_In (es : JsMap.t SystemPresence) (kv : string * SystemPresence) :
  In kv (enforceMax es) -> In kv es.
Proof.
  unfold enforceMax. destruct (MAX_ENTRIES <? JsMap.size es); [|tauto].
  apply In_dropKeys.
Qed.

Lemma pruneExpired_In (now : Z) (es : JsMap.t SystemPresence)
    (kv : string * SystemPresence) :
  In kv (pruneExpired now es) -> now - ts (snd kv) <= TTL_MS.
Proof.
  unfold pruneExpired. rewrite filter_In. intros [_ H].
  apply negb_true_iff, Z.ltb_ge in H. exact H.
Qed.

Lemma touchSelfPresence_get_other (P : Platform) (now : Z) (es : JsMap.t SystemPresence)
    (k : string) :
  k <> selfKey P -> JsMap.get k (touchSelfPresence P now es) = JsMap.get k es.
Proof.
  intros Hne. unfold touchSelfPresence, initSelfPresence.
  destruct (JsMap.get (selfKey P) es); apply get_set_ne; congruence.
Qed.

(** A listing under the cap keeps a fresh entry under its key. *)
Lemma listSystemPresence_get_fresh (P : Platform) (now0 now now' : Z)
    (es : JsMap.t SystemPresence) (k : string) (e : SystemPresence) :
  let es0 := ensureSelfPresence P now0 es in
  JsMap.size es0 <= MAX_ENTRIES ->
  JsMap.get k es0 = Some e ->
  now - ts e <= TTL_MS ->
  let r := listSystemPresence P now0 now now' es in
  let e' := if String.eqb k (selfKey P) then withTs e now' else e in
  JsMap.get k (fst r) = Some e' /\ In e' (snd r).
Proof.
  intros es0 Hsize Hget Hfresh r e'.
  assert (Hpruned : JsMap.get k (pruneExpired now es0) = Some e).
  { apply get_filter; [exact Hget|]. simpl. apply negb_true_iff, Z.ltb_ge. exact Hfresh. }
  assert (Hmax : enforceMax (pruneExpired now es0) = pruneExpired now es0).
  { unfold enforceMax.
    assert (JsMap.size (pruneExpired now es0) <= JsMap.size es0).
    { unfold JsMap.size, pruneExpired. pose proof (length_filter_le
        (fun kv : string * SystemPresence => negb (TTL_MS <? now - ts (snd kv))) es0). lia. }
    destruct (MAX_ENTRIES <? JsMap.size (pruneExpired now es0)) eqn:E; [|reflexivity].
    apply Z.ltb_lt in E. lia. }
  assert (Hr : JsMap.get k (fst r) = Some e').
  { subst r e'. unfold listSystemPresence. cbn [fst]. fold es0. rewrite Hmax.
    destruct (String.eqb_spec k (selfKey P)) as [->|Hne].
    - unfold touchSelfPresence. rewrite Hpruned. apply get_set_eq.
    - rewrite touchSelfPresence_get_other by exact Hne. exact Hpruned. }
  split; [exact Hr|].
  subst r. unfold listSystemPresence in *. cbn [fst snd] in *.
  apply In_sortBy. eapply get_In_values. exact Hr.
Qed.


(** A listing read 300 005 ms after [A] said hello: the
    entry of [A] has expired, the gateway's own entry and the entry of [B]
    are kept, the own entry with its timestamp renewed and listed first. *)
Example listSystemPresence_prunes_touches_sorts :
  let r := listSystemPresence sampleHost 0 300015 300016 (entries twoClients) in
  List.map (fun kv => (fst kv, ts (snd kv))) (entries twoClients)
  = [("gw", 20); ("A", 10); ("B", 20)]
  /\ List.map (fun kv => (fst kv, ts (snd kv))) (fst r) = [("gw", 300016); ("B", 20)]
  /\ List.map (fun e => (reason e, ts e)) (snd r)
     = [(Some "self", 300016); (Some "connect", 20)].
Proof. vm_compute. repeat split. Qed.


(* ===================================================================== *)
(** ** The gateway client *)
(* ===================================================================== *)

Lemma typeIs_event_only (evt : json) :
  Client.typeIs "event" evt = true ->
  Client.typeIs "hello-ok" evt = false /\ Client.typeIs "hello-error" evt = false.
Proof.
  unfold Client.typeIs.
  destruct (prop "type" evt) as [[| | |s| |]|]; try discriminate.
  intros H. apply String.eqb_eq in H. subst s. split; reflexivity.
Qed.

(** C9: on an event frame with a numeric [seq], the gap callback is called
    with [{expected: lastSeq + 1, received: seq}] exactly when [lastSeq] was
    set and [seq > lastSeq + 1]; in every case [lastSeq] becomes [seq]. *)
Theorem handleMessage_event_gap (c : Client.GatewayClient) (evt : json) (n : Z) :
  Client.onGap (Client.opts c) = true ->
  Client.typeIs "event" evt = true ->
  prop "seq" evt = Some (JNum n) ->
  let c' := Client.handleMessage (Some evt) c in
  Client.lastSeq c' = Some n
  /\ exists new,
       Client.effects c' = Client.effects c ++ new
       /\ forall expected received,
            In (Client.CallOnGap expected received) new
            <-> exists last,
                  Client.lastSeq c = Some last /\ n > last + 1
                  /\ expected = last + 1 /\ received = n.
Proof.
  intros Hgap Hty Hseq.
  destruct (typeIs_event_only evt Hty) as [H1 H2].
  unfold Client.handleMessage. rewrite H1, H2, Hty.
  unfold Client.handleEvent. rewrite Hseq.
  destruct c as [o w p b st last eff]. cbn in Hgap. cbn.
  destruct last as [last|]; cbn.
  - destruct (last + 1 <? n) eqn:E; unfold Client.emitIf; cbn; rewrite ?Hgap; cbn.
    + apply Z.ltb_lt in E.
      destruct (Client.onEvent o); cbn; (split; [reflexivity|]);
        rewrite <- ?app_assoc; eexists; (split; [reflexivity|]);
        intros e r; cbn; split.
      * intros [[= <- <-]|[[=]|[]]]. exists last. repeat split; trivial; lia.
      * intros (l & [= <-] & _ & -> & ->). now left.
      * intros [[= <- <-]|[]]. exists last. repeat split; trivial; lia.
      * intros (l & [= <-] & _ & -> & ->). now left.
    + apply Z.ltb_ge in E.
      destruct (Client.onEvent o); cbn; (split; [reflexivity|]).
      * exists [Client.CallOnEvent evt]. split; [reflexivity|].
        intros e r; cbn; split.
        -- intros [[=]|[]].
        -- intros (l & [= <-] & Hl & _). lia.
      * exists []. split; [now rewrite app_nil_r|].
        intros e r; cbn; split; [tauto|].
        intros (l & [= <-] & Hl & _). lia.
  - unfold Client.emitIf; cbn.
    destruct (Client.onEvent o); cbn; (split; [reflexivity|]).
    + exists [Client.CallOnEvent evt]. split; [reflexivity|].
      intros e r; cbn; split.
      * intros [[=]|[]].
      * intros (l & [=] & _).
    + exists []. split; [now rewrite app_nil_r|].
      intros e r; cbn; split; [tauto|].
      intros (l & [=] & _).
Qed.

Lemma handleMessage_event_gap_witness :
  let c' := Client.handleMessage (Some (eventJson "tick" 7)) (sampleClient (Some 4)) in
  Client.lastSeq c' = Some 7
  /\ exists new,
       Client.effects c' = Client.effects (sampleClient (Some 4)) ++ new
       /\ forall expected received,
            In (Client.CallOnGap expected received) new
            <-> exists last,
                  Client.lastSeq (sampleClient (Some 4)) = Some last /\ 7 > last + 1
                  /\ expected = last + 1 /\ received = 7.
Proof.
  apply (handleMessage_event_gap (sampleClient (Some 4)) (eventJson "tick" 7) 7);
    reflexivity.
Defined.

(* ===================================================================== *)
(** ** The dedupe cache cleanup *)
(* ===================================================================== *)

Lemma evictLoop_In (i : Z) (rest : list (string * DedupeEntry))
    (d : JsMap.t DedupeEntry) (kv : string * DedupeEntry) :
  In kv (evictLoop i rest d) -> In kv d.
Proof.
  revert i d. induction rest as [|[k v] rest IH]; intros i d; simpl; [tauto|].
  destruct (i <? JsMap.size d - DEDUPE_MAX); [|tauto].
  intros H. apply IH in H. now apply In_delete in H.
Qed.

(** The TTL half of the sweep: nothing older than [DEDUPE_TTL_MS] is left. *)
Lemma dedupeCleanup_expired_removed (now : Z) (d : JsMap.t DedupeEntry)
    (kv : string * DedupeEntry) :
  In kv (dedupeCleanup now d) -> now - d_ts (snd kv) <= DEDUPE_TTL_MS.
Proof.
  unfold dedupeCleanup.
  set (d' := List.filter _ d).
  assert (Hd' : In kv d' -> now - d_ts (snd kv) <= DEDUPE_TTL_MS).
  { subst d'. rewrite filter_In. intros [_ H].
    apply negb_true_iff, Z.ltb_ge in H. exact H. }
  destruct (DEDUPE_MAX <? JsMap.size d'); [|exact Hd'].
  intros H. apply evictLoop_In in H. now apply Hd'.
Qed.

Lemma keys_delete_length {V : Type} (k : string) (m : JsMap.t V) :
  k ∈ JsMap.keys m -> JsMap.size (JsMap.delete k m) = JsMap.size m - 1.
Proof.
  unfold JsMap.size, JsMap.keys.
  induction m as [|[k' v'] m IH]; simpl; intros Hin.
  - now apply elem_of_nil in Hin.
  - destruct (String.eqb_spec k k') as [->|Hne]; [lia|].
    apply elem_of_cons in Hin. destruct Hin as [->|Hin]; [contradiction|].
    simpl. specialize (IH Hin). lia.
Qed.

Lemma keys_delete_other {V : Type} (k k' : string) (m : JsMap.t V) :
  k' <> k -> k' ∈ JsMap.keys m -> k' ∈ JsMap.keys (JsMap.delete k m).
Proof.
  unfold JsMap.keys. intros Hne.
  induction m as [|[k0 v0] m IH]; simpl; intros Hin; [exact Hin|].
  apply elem_of_cons in Hin.
  destruct (String.eqb_spec k k0) as [->|Hk].
  - destruct Hin as [->|Hin]; [contradiction|exact Hin].
  - simpl. apply elem_of_cons. destruct Hin as [->|Hin]; [now left|right; now apply IH].
Qed.

(** How far the eviction loop gets: it stops once [i] has caught up with
    the shrinking excess, after half of it (rounded up) is gone. *)
Lemma evictLoop_size (rest : list (string * DedupeEntry)) :
  forall (i : Z) (d : JsMap.t DedupeEntry),
    NoDup (JsMap.keys rest) ->
    (forall k, k ∈ JsMap.keys rest -> k ∈ JsMap.keys d) ->
    JsMap.size d - DEDUPE_MAX - i <= Z.of_nat (List.length rest) ->
    JsMap.size (evictLoop i rest d)
    = if i <? JsMap.size d - DEDUPE_MAX
      then JsMap.size d - (JsMap.size d - DEDUPE_MAX - i + 1) / 2
      else JsMap.size d.
Proof.
  induction rest as [|[k v] rest IH]; intros i d Hnd Hsub Hlen; simpl.
  - destruct (i <? JsMap.size d - DEDUPE_MAX) eqn:E; [|reflexivity].
    apply Z.ltb_lt in E. simpl in Hlen. lia.
  - destruct (i <? JsMap.size d - DEDUPE_MAX) eqn:E; [|reflexivity].
    apply Z.ltb_lt in E.
    unfold JsMap.keys in Hnd. simpl in Hnd. apply NoDup_cons in Hnd.
    destruct Hnd as [Hk Hnd].
    assert (Hsize : JsMap.size (JsMap.delete k d) = JsMap.size d - 1).
    { apply keys_delete_length, Hsub. unfold JsMap.keys. simpl. apply elem_of_cons.
      now left. }
    rewrite IH.
    + rewrite Hsize.
      destruct (i + 1 <? JsMap.size d - 1 - DEDUPE_MAX) eqn:E'.
      * apply Z.ltb_lt in E'.
        replace (JsMap.size d - DEDUPE_MAX - i + 1)
          with ((JsMap.size d - 1 - DEDUPE_MAX - (i + 1) + 1) + 1 * 2) by lia.
        rewrite Z.div_add by lia. lia.
      * apply Z.ltb_ge in E'.
        assert (H12 : JsMap.size d - DEDUPE_MAX - i + 1 = 2
                      \/ JsMap.size d - DEDUPE_MAX - i + 1 = 3) by lia.
        destruct H12 as [->| ->]; reflexivity.
    + exact Hnd.
    + intros k' Hk'. apply keys_delete_other.
      * intros ->. contradiction.
      * apply Hsub. unfold JsMap.keys. simpl. apply elem_of_cons. now right.
    + rewrite Hsize. simpl in Hlen. lia.
Qed.

Lemma filter_all {A : Type} (p : A -> bool) (l : list A) :
  (forall x, In x l -> p x = true) -> List.filter p l = l.
Proof.
  induction l as [|x l IH]; simpl; intros H; [reflexivity|].
  rewrite (H x) by now left. f_equal. apply IH. intros y Hy. apply H. now right.
Qed.

(** The size the sweep leaves when no entry is older than the TTL: of an
    excess of [n] entries over [DEDUPE_MAX], only [(n + 1) / 2] are evicted. *)
Lemma dedupeCleanup_size (now : Z) (d : JsMap.t DedupeEntry) :
  NoDup (JsMap.keys d) ->
  (forall kv, In kv d -> now - d_ts (snd kv) <= DEDUPE_TTL_MS) ->
  JsMap.size (dedupeCleanup now d)
  = if DEDUPE_MAX <? JsMap.size d
    then JsMap.size d - (JsMap.size d - DEDUPE_MAX + 1) / 2
    else JsMap.size d.
Proof.
  intros Hnd Hfresh. unfold dedupeCleanup. cbv zeta.
  rewrite filter_all.
  2:{ intros kv Hkv. apply negb_true_iff, Z.ltb_ge. now apply Hfresh. }
  destruct (DEDUPE_MAX <? JsMap.size d) eqn:E; [|reflexivity].
  apply Z.ltb_lt in E.
  set (le := fun a b : string * DedupeEntry => d_ts (snd a) <=? d_ts (snd b)).
  assert (Hperm : Permutation (JsMap.keys (sortBy le d)) (JsMap.keys d)).
  { unfold JsMap.keys. apply Permutation_map, sortBy_Permutation. }
  rewrite evictLoop_size.
  - assert (E' : (0 <? JsMap.size d - DEDUPE_MAX) = true) by (apply Z.ltb_lt; lia).
    rewrite E'.
    replace (JsMap.size d - DEDUPE_MAX - 0 + 1) with (JsMap.size d - DEDUPE_MAX + 1)
      by lia.
    reflexivity.
  - now rewrite Hperm.
  - intros k Hk. now rewrite <- Hperm.
  - rewrite (Permutation_length (sortBy_Permutation le d)).
    unfold JsMap.size, DEDUPE_MAX. lia.
Qed.

(** C4, at a cache of 1002 entries that are all younger than the TTL: the
    sweep evicts a single entry and leaves 1001, above [DEDUPE_MAX]. *)
Theorem dedupeCleanup_stops_above_cap :
  JsMap.size (cacheOf 1002 0) = 1002
  /\ JsMap.size (dedupeCleanup 60000 (cacheOf 1002 0)) = 1001
  /\ DEDUPE_MAX < JsMap.size (dedupeCleanup 60000 (cacheOf 1002 0)).
Proof.
  vm_compute. repeat split.
Qed.

(* ===================================================================== *)
(** ** Sockets and broadcast *)
(* ===================================================================== *)

Lemma setConns_same (s : State) : setConns (conns s) s = s.
Proof. now destruct s. Qed.

Lemma fold_withSocket (f : Socket -> Socket) (cs : list string) (s : State) :
  List.fold_left (fun s c => withSocket c f s) cs s
  = setConns (List.fold_left (fun m c => alter (onSocket f) c m) cs (conns s)) s.
Proof.
  revert s. induction cs as [|c cs IH]; intros s; simpl.
  - now rewrite setConns_same.
  - rewrite IH. reflexivity.
Qed.

Lemma lookup_fold_alter (g : Conn -> Conn) (cs : list string)
    (m : gmap string Conn) (id : string) :
  NoDup cs ->
  List.fold_left (fun m c => alter g c m) cs m !! id
  = if decide (id ∈ cs) then g <$> m !! id else m !! id.
Proof.
  revert m. induction cs as [|c cs IH]; intros m Hnd; cbn [List.fold_left].
  - destruct (decide (id ∈ [])) as [H|H]; [|reflexivity].
    now apply elem_of_nil in H.
  - apply NoDup_cons in Hnd. destruct Hnd as [Hc Hnd].
    rewrite IH by exact Hnd.
    destruct (decide (id = c)) as [->|Hne].
    + destruct (decide (c ∈ cs)) as [H|_]; [contradiction|].
      destruct (decide (c ∈ c :: cs)) as [_|H].
      * apply lookup_alter_eq.
      * exfalso. apply H, elem_of_cons. now left.
    + rewrite lookup_alter_ne by congruence.
      destruct (decide (id ∈ cs)) as [Hin|Hnin];
        destruct (decide (id ∈ c :: cs)) as [Hin'|Hnin']; try reflexivity.
      * exfalso. apply Hnin', elem_of_cons. now right.
      * exfalso. apply elem_of_cons in Hin'. tauto.
Qed.

Lemma broadcast_eq (event : string) (payload : json) (dropIfSlow : bool)
    (sv : option StateVersion) (s : State) :
  broadcast event payload dropIfSlow sv s
  = setConns
      (List.fold_left
         (fun m c =>
            alter (onSocket (deliver dropIfSlow (FEvent event payload (seq s + 1) sv))) c m)
         (clients s) (conns s))
      (setSeq (seq s + 1) s).
Proof.
  unfold broadcast. cbv zeta. rewrite fold_withSocket. reflexivity.
Qed.

Lemma broadcast_lookup (event : string) (payload : json) (dropIfSlow : bool)
    (sv : option StateVersion) (s : State) (id : string) :
  NoDup (clients s) ->
  conns (broadcast event payload dropIfSlow sv s) !! id
  = if decide (id ∈ clients s)
    then onSocket (deliver dropIfSlow (FEvent event payload (seq s + 1) sv))
           <$> conns s !! id
    else conns s !! id.
Proof.
  intros Hnd. rewrite broadcast_eq. cbn [conns setConns].
  now apply lookup_fold_alter.
Qed.

Lemma withSocket_lookup (id id' : string) (f : Socket -> Socket) (s : State) :
  conns (withSocket id f s) !! id'
  = if decide (id = id') then onSocket f <$> conns s !! id else conns s !! id'.
Proof. unfold withSocket. cbn [conns setConns]. apply lookup_alter. Qed.

Lemma eventSeqs_app (l k : list Frame) :
  eventSeqs (l ++ k) = eventSeqs l ++ eventSeqs k.
Proof. unfold eventSeqs. apply flat_map_app. Qed.

(* ===================================================================== *)
(** ** Sequence numbers on one connection *)
(* ===================================================================== *)

Lemma StronglySorted_suffix {A : Type} (R : A -> A -> Prop) (l k : list A) :
  StronglySorted R (l ++ k) -> StronglySorted R k.
Proof.
  induction l as [|x l IH]; simpl; [trivial|].
  intros H. apply StronglySorted_inv in H. now apply IH.
Qed.

Lemma seqsUpTo_mono (n m : Z) (l : list Z) :
  n <= m -> seqsUpTo n l -> seqsUpTo m l.
Proof.
  intros Hnm [Hs Hb]. split; [exact Hs|].
  eapply Forall_impl; [exact Hb|]. intros x Hx. cbn in *. lia.
Qed.

Lemma seqsUpTo_snoc (n : Z) (l : list Z) :
  seqsUpTo n l -> seqsUpTo (n + 1) (l ++ [n + 1]).
Proof.
  intros [Hs Hb]. split.
  - induction Hs as [|x l Hs IH Hx]; simpl.
    + constructor; constructor.
    + apply Forall_cons in Hb. destruct Hb as [Hxn Hb].
      constructor; [now apply IH|].
      apply Forall_app. split; [exact Hx|].
      constructor; [lia|constructor].
  - apply Forall_app. split.
    + eapply Forall_impl; [exact Hb|]. intros x Hx. cbn in *. lia.
    + constructor; [lia|constructor].
Qed.

Lemma quiet_sockClose (c : Z) (r : option string) : quiet (sockClose c r).
Proof. intros k. unfold sockClose. now destruct (readyState k). Qed.

Lemma quiet_sockClosed : quiet sockClosed.
Proof. intros k. reflexivity. Qed.

Lemma quiet_sockBuffered (n : Z) : quiet (sockBuffered n).
Proof. intros k. reflexivity. Qed.

Lemma quiet_sockSend (f : Frame) :
  eventSeqs [f] = [] -> quiet (sockSend f).
Proof.
  intros Hf k. unfold sockSend. destruct (readyState k); trivial.
  cbn [outbound]. rewrite eventSeqs_app, Hf. apply app_nil_r.
Qed.

Lemma Inv_fields (s s' : State) :
  clients s' = clients s -> conns s' = conns s -> seq s' = seq s ->
  Inv s -> Inv s'.
Proof.
  intros Hcl Hco Hse [Hnd Hc]. split; [now rewrite Hcl|].
  rewrite Hco, Hse. exact Hc.
Qed.

Lemma Inv_setSeq (s : State) : Inv s -> Inv (setSeq (seq s + 1) s).
Proof.
  intros [Hnd Hc]. split; [exact Hnd|].
  intros id c Hl. cbn. eapply seqsUpTo_mono; [|now apply (Hc id c)]. lia.
Qed.

Lemma Inv_setClients (cs : list string) (s : State) :
  NoDup cs -> Inv s -> Inv (setClients cs s).
Proof. intros Hnd [_ Hc]. split; [exact Hnd|exact Hc]. Qed.

Lemma NoDup_addClient (id : string) (cs : list string) :
  NoDup cs -> NoDup (addClient id cs).
Proof.
  intros Hnd. unfold addClient.
  destruct (existsb (String.eqb id) cs) eqn:E; [exact Hnd|].
  apply NoDup_app. repeat split; trivial.
  - intros x Hx Hx'. apply list_elem_of_singleton in Hx'. subst x.
    assert (existsb (String.eqb id) cs = true); [|congruence].
    apply existsb_exists. exists id. split; [now apply list_elem_of_In|].
    apply String.eqb_refl.
  - apply NoDup_singleton.
Qed.

Lemma NoDup_deleteClient (id : string) (cs : list string) :
  NoDup cs -> NoDup (deleteClient id cs).
Proof.
  unfold deleteClient. induction 1 as [|c cs Hc Hnd IH]; simpl; [constructor|].
  destruct (negb (String.eqb id c)); [|exact IH].
  constructor; [|exact IH].
  intros Hin. apply Hc. apply list_elem_of_In in Hin. apply filter_In in Hin.
  apply list_elem_of_In. tauto.
Qed.

(** Replacing the connection table by one whose sockets carry the same
    event frames, or none on a new connection. *)
Lemma Inv_setConns (m : gmap string Conn) (s : State) :
  (forall id c', m !! id = Some c' ->
     eventSeqs (outbound (socket c')) = []
     \/ exists c, conns s !! id = Some c
          /\ eventSeqs (outbound (socket c')) = eventSeqs (outbound (socket c))) ->
  Inv s -> Inv (setConns m s).
Proof.
  intros Hm [Hnd Hc]. split; [exact Hnd|].
  intros id c' Hl. cbn in Hl |- *.
  destruct (Hm id c' Hl) as [->|(c & Hl' & ->)].
  - split; constructor.
  - now apply (Hc id c).
Qed.

Lemma Inv_alter (id : string) (g : Conn -> Conn) (s : State) :
  (forall c, eventSeqs (outbound (socket (g c))) = eventSeqs (outbound (socket c))) ->
  Inv s -> Inv (setConns (alter g id (conns s)) s).
Proof.
  intros Hg. apply Inv_setConns. intros id' c' Hl. right.
  rewrite lookup_alter in Hl. destruct (decide (id = id')) as [->|Hne].
  - destruct (conns s !! id') as [c|]; [|discriminate].
    injection Hl as <-. exists c. split; [reflexivity|apply Hg].
  - exists c'. split; [exact Hl|reflexivity].
Qed.

Lemma Inv_withSocket (id : string) (f : Socket -> Socket) (s : State) :
  quiet f -> Inv s -> Inv (withSocket id f s).
Proof. intros Hf. apply Inv_alter. intros c. apply Hf. Qed.

Lemma Inv_send (id : string) (f : Frame) (s : State) :
  eventSeqs [f] = [] -> Inv s -> Inv (send id f s).
Proof. intros Hf. apply Inv_withSocket. now apply quiet_sockSend. Qed.

Lemma Inv_respond (connId id : string) (ok : bool) (payload : option json)
    (error : option ErrorShape) (s : State) :
  Inv s -> Inv (respond connId id ok payload error s).
Proof. now apply Inv_send. Qed.

Lemma Inv_close (id : string) (s : State) : Inv s -> Inv (close id s).
Proof.
  intros HI. unfold close.
  destruct (conns s !! id) as [c|] eqn:Hl; [|exact HI].
  destruct (closed c); [exact HI|].
  assert (HI' : Inv (match client c with
                     | Some _ => setClients (deleteClient id (clients s)) s
                     | None => s
                     end)).
  { destruct (client c); [|exact HI].
    apply Inv_setClients; [|exact HI]. apply NoDup_deleteClient, HI. }
  apply Inv_setConns; [|exact HI'].
  intros id' c' Hl'. right.
  assert (Hconns : conns (match client c with
                          | Some _ => setClients (deleteClient id (clients s)) s
                          | None => s
                          end) = conns s) by now destruct (client c).
  rewrite Hconns in Hl' |- *.
  rewrite lookup_insert in Hl'. destruct (decide (id = id')) as [->|Hne].
  - injection Hl' as <-. exists c. split; [exact Hl|]. apply quiet_sockClose.
  - exists c'. split; [exact Hl'|reflexivity].
Qed.

Lemma deliver_seqs (n : Z) (d : bool) (e : string) (p : json)
    (sv : option StateVersion) (k : Socket) :
  seqsUpTo n (eventSeqs (outbound k)) ->
  seqsUpTo (n + 1) (eventSeqs (outbound (deliver d (FEvent e p (n + 1) sv) k))).
Proof.
  intros H.
  assert (Hsame : seqsUpTo (n + 1) (eventSeqs (outbound k))).
  { eapply seqsUpTo_mono; [|exact H]. lia. }
  unfold deliver. cbv zeta.
  destruct (MAX_BUFFERED_BYTES <? bufferedAmount k); cbn [andb].
  - destruct d; [exact Hsame|]. now rewrite quiet_sockClose.
  - unfold sockSend. destruct (readyState k); trivial.
    cbn [outbound]. rewrite eventSeqs_app. cbn. now apply seqsUpTo_snoc.
Qed.

Lemma Inv_broadcast (event : string) (payload : json) (dropIfSlow : bool)
    (sv : option StateVersion) (s : State) :
  Inv s -> Inv (broadcast event payload dropIfSlow sv s).
Proof.
  intros [Hnd Hc]. split.
  - rewrite broadcast_eq. exact Hnd.
  - intros id c' Hl. rewrite broadcast_lookup in Hl by exact Hnd.
    rewrite broadcast_eq. cbn [seq setConns setSeq].
    destruct (decide (id ∈ clients s)).
    + destruct (conns s !! id) as [c|] eqn:Hl'; [|discriminate].
      injection Hl as <-. cbn [socket onSocket].
      apply deliver_seqs. now apply (Hc id c).
    + eapply seqsUpTo_mono; [|now apply (Hc id c')]. lia.
Qed.

(** The [accepted] event of the agent handler: one event frame to one socket. *)
Lemma Inv_ack (id e : string) (p : json) (sv : option StateVersion) (s : State) :
  Inv s ->
  Inv (withSocket id (sockSend (FEvent e p (seq s + 1) sv)) (setSeq (seq s + 1) s)).
Proof.
  intros [Hnd Hc]. split; [exact Hnd|].
  intros id' c' Hl. rewrite withSocket_lookup in Hl.
  cbn [seq conns setSeq withSocket setConns] in Hl |- *.
  destruct (decide (id = id')) as [->|Hne].
  - destruct (conns s !! id') as [c|] eqn:Hl'; [|discriminate].
    injection Hl as <-. cbn [socket onSocket].
    specialize (Hc id' c Hl').
    unfold sockSend. destruct (readyState (socket c)).
    + cbn [outbound]. rewrite eventSeqs_app. cbn. now apply seqsUpTo_snoc.
    + eapply seqsUpTo_mono; [|exact Hc]. lia.
    + eapply seqsUpTo_mono; [|exact Hc]. lia.
  - eapply seqsUpTo_mono; [|now apply (Hc id' c')]. lia.
Qed.

Lemma Inv_setEntries (e : JsMap.t SystemPresence) (s : State) :
  Inv s -> Inv (setEntries e s).
Proof. now apply Inv_fields. Qed.

Lemma Inv_setDedupe (d : JsMap.t DedupeEntry) (s : State) :
  Inv s -> Inv (setDedupe d s).
Proof. now apply Inv_fields. Qed.

Lemma Inv_setSystemEvents (q : list string) (s : State) :
  Inv s -> Inv (setSystemEvents q s).
Proof. now apply Inv_fields. Qed.

Lemma Inv_setPresenceVersion (n : Z) (s : State) :
  Inv s -> Inv (setPresenceVersion n s).
Proof. now apply Inv_fields. Qed.

Lemma Inv_setHealthVersion (n : Z) (s : State) :
  Inv s -> Inv (setHealthVersion n s).
Proof. now apply Inv_fields. Qed.

Lemma Inv_setSuspended (l : list Suspended) (s : State) :
  Inv s -> Inv (setSuspended l s).
Proof. now apply Inv_fields. Qed.

Lemma Inv_setStopped (b : bool) (s : State) : Inv s -> Inv (setStopped b s).
Proof. now apply Inv_fields. Qed.

Lemma Inv_logError (s : State) : Inv s -> Inv (logError s).
Proof. now apply Inv_fields. Qed.

Lemma Inv_await (call : PortCall) (k : Suspended) (s : State) :
  Inv s -> Inv (await call k s).
Proof. now apply Inv_fields. Qed.

Lemma Inv_listPresence (P : Platform) (t0 t1 t2 : Z) (s : State) :
  Inv s -> Inv (fst (listPresence P t0 t1 t2 s)).
Proof. now apply Inv_fields. Qed.

Lemma Inv_buildSnapshot (P : Platform) (t0 t1 t2 : Z) (s : State) :
  Inv s -> Inv (fst (buildSnapshot P t0 t1 t2 s)).
Proof. now apply Inv_fields. Qed.

Lemma Inv_broadcastPresence (P : Platform) (t0 t1 t2 : Z) (s : State) :
  Inv s -> Inv (broadcastPresence P t0 t1 t2 s).
Proof. intros H. unfold broadcastPresence. now apply Inv_broadcast, Inv_listPresence. Qed.

Lemma Inv_setClient (id : string) (hello : Hello) (s : State) :
  Inv s -> Inv (setClient id hello s).
Proof. apply Inv_alter. reflexivity. Qed.

Lemma Inv_addClient (id : string) (s : State) :
  Inv s -> Inv (setClients (addClient id (clients s)) s).
Proof. intros H. apply Inv_setClients; [|exact H]. apply NoDup_addClient, H. Qed.

Lemma Inv_rejectHello (id reason : string) (expected : option Z) (c : Z)
    (closeReason : string) (s : State) :
  Inv s -> Inv (rejectHello id reason expected c closeReason s).
Proof.
  intros H. unfold rejectHello.
  apply Inv_close, Inv_withSocket; [apply quiet_sockClose|].
  now apply Inv_send.
Qed.

Lemma Inv_foldClose (c : Z) (r : option string) (cs : list string) (s : State) :
  Inv s -> Inv (List.fold_left (fun s id => withSocket id (sockClose c r) s) cs s).
Proof.
  revert s. induction cs as [|id cs IH]; intros s H; simpl; [exact H|].
  apply IH, Inv_withSocket; [apply quiet_sockClose|exact H].
Qed.

(** Chains the preservation lemmas along the body of a handler. *)
Ltac inv_step :=
  first
    [ assumption
    | apply Inv_respond | apply Inv_await | apply Inv_logError
    | apply Inv_setEntries | apply Inv_setDedupe | apply Inv_setSystemEvents
    | apply Inv_setPresenceVersion | apply Inv_setHealthVersion
    | apply Inv_setSuspended | apply Inv_setStopped
    | apply Inv_listPresence | apply Inv_buildSnapshot
    | apply Inv_broadcastPresence | apply Inv_broadcast
    | apply Inv_setClient | apply Inv_addClient | apply Inv_rejectHello
    | apply Inv_close | apply Inv_ack
    | apply Inv_setClients; [constructor|]
    | apply Inv_send; [reflexivity|]
    | apply Inv_withSocket;
      [first [apply quiet_sockClose | apply quiet_sockClosed | apply quiet_sockBuffered]|]
    | match goal with
      | |- Inv (match ?x with _ => _ end) => destruct x eqn:?
      end ].

Ltac inv_auto := cbv zeta; repeat inv_step.

Lemma Inv_handleHello (P : Platform) (id : string) (v : json) (clock : nat -> Z)
    (s : State) :
  Inv s -> Inv (handleHello P id v clock s).
Proof. intros H. unfold handleHello. inv_auto. Qed.

Lemma Inv_handleRequest (P : Platform) (id : string) (v : json) (clock : nat -> Z)
    (uuid : string) (s : State) :
  Inv s -> Inv (handleRequest P id v clock uuid s).
Proof.
  intros H.
  unfold handleRequest, handleSystemEvent, handleSend, handleAgent. inv_auto.
Qed.

Lemma Inv_onMessage (P : Platform) (id : string) (parsed : option json)
    (clock : nat -> Z) (uuid : string) (s : State) :
  Inv s -> Inv (onMessage P id parsed clock uuid s).
Proof.
  intros H. unfold onMessage.
  destruct (conns s !! id) as [c|]; [|exact H].
  destruct (closed c); [exact H|].
  destruct parsed as [v|]; destruct (client c).
  - now apply Inv_handleRequest.
  - now apply Inv_handleHello.
  - now apply Inv_logError.
  - now apply Inv_close, Inv_logError.
Qed.

Lemma Inv_continue (P : Platform) (k : Suspended) (o : Outcome) (now : Z)
    (s s' : State) :
  Inv s -> continue P k o now s = Some s' -> Inv s'.
Proof.
  intros H. unfold continue.
  destruct k, o; intros [= <-]; inv_auto.
Qed.

Lemma Inv_resume (P : Platform) (i : nat) (o : Outcome) (now : Z) (s : State) :
  Inv s -> Inv (resume P i o now s).
Proof.
  intros H. unfold resume.
  destruct (suspended s !! i) as [k|]; [|exact H].
  destruct (continue P k o now _) as [s'|] eqn:E; [|exact H].
  eapply Inv_continue; [|exact E]. now apply Inv_setSuspended.
Qed.

Lemma Inv_onConnection (id : string) (s : State) : Inv s -> Inv (onConnection id s).
Proof.
  intros H. unfold onConnection.
  destruct (stopped s); [exact H|].
  destruct (conns s !! id) eqn:Hl; [exact H|].
  apply Inv_setConns; [|exact H].
  intros id' c' Hl'. rewrite lookup_insert in Hl'.
  destruct (decide (id = id')) as [->|Hne].
  - injection Hl' as <-. now left.
  - right. exists c'. split; [exact Hl'|reflexivity].
Qed.

Lemma Inv_onSocketClose (P : Platform) (id : string) (clock : nat -> Z) (s : State) :
  Inv s -> Inv (onSocketClose P id clock s).
Proof. intros H. unfold onSocketClose. inv_auto. Qed.

Lemma Inv_serverClose (s : State) : Inv s -> Inv (serverClose s).
Proof.
  intros H. unfold serverClose. cbv zeta.
  apply Inv_setClients; [constructor|].
  apply Inv_foldClose. inv_auto.
Qed.

Lemma Inv_step (P : Platform) (s : State) (l : Label) : Inv s -> Inv (step P s l).
Proof.
  intros H. destruct l; cbn [step].
  - now apply Inv_onConnection.
  - now apply Inv_onMessage.
  - now apply Inv_resume.
  - now apply Inv_onSocketClose.
  - now apply Inv_close.
  - unfold onHandshakeTimeout. inv_auto.
  - unfold onTick. inv_auto.
  - unfold onDedupeCleanup. inv_auto.
  - unfold onAgentEvent. inv_auto.
  - apply Inv_withSocket; [apply quiet_sockBuffered|exact H].
  - now apply Inv_serverClose.
Qed.

Lemma Inv_run (P : Platform) (ls : list Label) (s : State) :
  Inv s -> Inv (run P s ls).
Proof.
  revert s. induction ls as [|l ls IH]; intros s H; simpl; [exact H|].
  now apply IH, Inv_step.
Qed.

Lemma Inv_initialState (P : Platform) (t : Z) : Inv (initialState P t).
Proof.
  split; [constructor|].
  intros id c Hl. cbn in Hl. now rewrite lookup_empty in Hl.
Qed.

Lemma reachable_Inv (P : Platform) (s : State) : reachable P s -> Inv s.
Proof. intros (t & ls & ->). apply Inv_run, Inv_initialState. Qed.

Lemma reachable_step (P : Platform) (s : State) (l : Label) :
  reachable P s -> reachable P (step P s l).
Proof.
  intros (t & ls & ->). exists t, (ls ++ [l]).
  unfold run. now rewrite fold_left_app.
Qed.

(* ===================================================================== *)
(** ** The dedupe cache along a run *)
(* ===================================================================== *)

Lemma DedupeIs_fields (d : JsMap.t DedupeEntry) (s s' : State) :
  dedupe s' = dedupe s -> DedupeIs d s -> DedupeIs d s'.
Proof. intros H [Hd]. split. congruence. Qed.

Lemma DedupeIs_withSocket d id f s : DedupeIs d s -> DedupeIs d (withSocket id f s).
Proof. now apply DedupeIs_fields. Qed.

Lemma DedupeIs_send d id f s : DedupeIs d s -> DedupeIs d (send id f s).
Proof. now apply DedupeIs_fields. Qed.

Lemma DedupeIs_respond d connId id ok payload error s :
  DedupeIs d s -> DedupeIs d (respond connId id ok payload error s).
Proof. now apply DedupeIs_fields. Qed.

Lemma DedupeIs_setConns d m s : DedupeIs d s -> DedupeIs d (setConns m s).
Proof. now apply DedupeIs_fields. Qed.

Lemma DedupeIs_setClients d cs s : DedupeIs d s -> DedupeIs d (setClients cs s).
Proof. now apply DedupeIs_fields. Qed.

Lemma DedupeIs_setClient d id hello s : DedupeIs d s -> DedupeIs d (setClient id hello s).
Proof. now apply DedupeIs_fields. Qed.

Lemma DedupeIs_setEntries d e s : DedupeIs d s -> DedupeIs d (setEntries e s).
Proof. now apply DedupeIs_fields. Qed.

Lemma DedupeIs_setSystemEvents d q s : DedupeIs d s -> DedupeIs d (setSystemEvents q s).
Proof. now apply DedupeIs_fields. Qed.

Lemma DedupeIs_setPresenceVersion d n s :
  DedupeIs d s -> DedupeIs d (setPresenceVersion n s).
Proof. now apply DedupeIs_fields. Qed.

Lemma DedupeIs_setSeq d n s : DedupeIs d s -> DedupeIs d (setSeq n s).
Proof. now apply DedupeIs_fields. Qed.

Lemma DedupeIs_setStopped d b s : DedupeIs d s -> DedupeIs d (setStopped b s).
Proof. now apply DedupeIs_fields. Qed.

Lemma DedupeIs_logError d s : DedupeIs d s -> DedupeIs d (logError s).
Proof. now apply DedupeIs_fields. Qed.

Lemma DedupeIs_await d call k s : DedupeIs d s -> DedupeIs d (await call k s).
Proof. now apply DedupeIs_fields. Qed.

Lemma DedupeIs_listPresence d P t0 t1 t2 s :
  DedupeIs d s -> DedupeIs d (fst (listPresence P t0 t1 t2 s)).
Proof. now apply DedupeIs_fields. Qed.

Lemma DedupeIs_buildSnapshot d P t0 t1 t2 s :
  DedupeIs d s -> DedupeIs d (fst (buildSnapshot P t0 t1 t2 s)).
Proof. now apply DedupeIs_fields. Qed.

Lemma DedupeIs_broadcast d event payload dropIfSlow sv s :
  DedupeIs d s -> DedupeIs d (broadcast event payload dropIfSlow sv s).
Proof. apply DedupeIs_fields. now rewrite broadcast_eq. Qed.

Lemma DedupeIs_broadcastPresence d P t0 t1 t2 s :
  DedupeIs d s -> DedupeIs d (broadcastPresence P t0 t1 t2 s).
Proof.
  intros H. unfold broadcastPresence.
  now apply DedupeIs_broadcast, DedupeIs_listPresence.
Qed.

Lemma DedupeIs_close d id s : DedupeIs d s -> DedupeIs d (close id s).
Proof.
  apply DedupeIs_fields. unfold close.
  destruct (conns s !! id) as [c|]; [|reflexivity].
  destruct (closed c); [reflexivity|]. now destruct (client c).
Qed.

Lemma DedupeIs_rejectHello d id reason expected c closeReason s :
  DedupeIs d s -> DedupeIs d (rejectHello id reason expected c closeReason s).
Proof.
  intros H. unfold rejectHello.
  now apply DedupeIs_close, DedupeIs_withSocket, DedupeIs_send.
Qed.

Lemma DedupeIs_foldClose d c r cs s :
  DedupeIs d s ->
  DedupeIs d (List.fold_left (fun s id => withSocket id (sockClose c r) s) cs s).
Proof. apply DedupeIs_fields. now rewrite fold_withSocket. Qed.

Ltac dedupe_step :=
  first
    [ assumption
    | apply DedupeIs_respond | apply DedupeIs_await | apply DedupeIs_logError
    | apply DedupeIs_setEntries | apply DedupeIs_setSystemEvents
    | apply DedupeIs_setPresenceVersion | apply DedupeIs_setSeq
    | apply DedupeIs_setStopped | apply DedupeIs_setConns
    | apply DedupeIs_setClients | apply DedupeIs_setClient
    | apply DedupeIs_listPresence | apply DedupeIs_buildSnapshot
    | apply DedupeIs_broadcastPresence | apply DedupeIs_broadcast
    | apply DedupeIs_rejectHello | apply DedupeIs_close
    | apply DedupeIs_send | apply DedupeIs_withSocket
    | match goal with
      | |- DedupeIs _ (match ?x with _ => _ end) => destruct x eqn:?
      end ].

Ltac dedupe_auto := cbv zeta; repeat dedupe_step.

Lemma DedupeIs_onMessage d P id parsed clock uuid s :
  DedupeIs d s -> DedupeIs d (onMessage P id parsed clock uuid s).
Proof.
  intros H.
  unfold onMessage, handleHello, handleRequest, handleSystemEvent, handleSend,
    handleAgent.
  dedupe_auto.
Qed.

(** Only the cleanup and the completion of a request write the cache. *)
Lemma dedupe_step_other (P : Platform) (s : State) (l : Label) :
  match l with
  | DedupeCleanup _ | Settle _ _ _ => True
  | _ => dedupe (step P s l) = dedupe s
  end.
Proof.
  assert (H : DedupeIs (dedupe s) s) by now split.
  destruct l; trivial; apply dedupe_is; cbn [step].
  - unfold onConnection. dedupe_auto.
  - now apply DedupeIs_onMessage.
  - unfold onSocketClose. dedupe_auto.
  - now apply DedupeIs_close.
  - unfold onHandshakeTimeout. dedupe_auto.
  - unfold onTick. dedupe_auto.
  - unfold onAgentEvent. dedupe_auto.
  - unfold serverClose. cbv zeta.
    apply DedupeIs_setClients, DedupeIs_foldClose. dedupe_auto.
Qed.

Lemma dedupeCleanup_keeps (now : Z) (d : JsMap.t DedupeEntry) (key : string)
    (e : DedupeEntry) :
  JsMap.get key d = Some e ->
  now - d_ts e <= DEDUPE_TTL_MS ->
  JsMap.size d <= DEDUPE_MAX ->
  JsMap.get key (dedupeCleanup now d) = Some e.
Proof.
  intros Hget Hts Hsize. unfold dedupeCleanup. cbv zeta.
  set (p := fun kv : string * DedupeEntry => negb (DEDUPE_TTL_MS <? now - d_ts (snd kv))).
  assert (Hle : JsMap.size (List.filter p d) <= DEDUPE_MAX).
  { unfold JsMap.size in *. pose proof (length_filter_le p d). lia. }
  apply Z.ltb_ge in Hle. rewrite Hle.
  apply get_filter; [exact Hget|].
  unfold p. cbn. apply negb_true_iff, Z.ltb_ge. exact Hts.
Qed.

Lemma continue_other_key (P : Platform) (k : Suspended) (o : Outcome) (now : Z)
    (s s' : State) (key : string) :
  dedupeKey k <> Some key ->
  continue P k o now s = Some s' ->
  JsMap.get key (dedupe s') = JsMap.get key (dedupe s).
Proof.
  intros Hk. unfold continue.
  destruct k, o; intros [= <-]; cbn in Hk |- *; trivial;
    apply get_set_ne; congruence.
Qed.

Lemma keepsStep_get (P : Platform) (key : string) (s : State) (l : Label)
    (e : DedupeEntry) :
  keepsStep key s l ->
  JsMap.get key (dedupe s) = Some e ->
  JsMap.get key (dedupe (step P s l)) = Some e.
Proof.
  intros Hk Hget. pose proof (dedupe_step_other P s l) as Ho.
  destruct l; try (rewrite Ho; exact Hget).
  - (* Settle *)
    cbn [step]. unfold resume. cbn in Hk.
    destruct (suspended s !! i) as [k|] eqn:Hi; [|exact Hget].
    destruct (continue P k o now _) as [s'|] eqn:E; [|exact Hget].
    rewrite (continue_other_key P k o now _ s' key (Hk k eq_refl) E).
    exact Hget.
  - (* DedupeCleanup *)
    cbn [step]. unfold onDedupeCleanup. destruct Hk as [Hts Hsize].
    destruct (stopped s); [exact Hget|]. cbn.
    apply dedupeCleanup_keeps; auto.
Qed.

Lemma keeps_get (P : Platform) (key : string) (ls : list Label) (s : State)
    (e : DedupeEntry) :
  keeps P key s ls ->
  JsMap.get key (dedupe s) = Some e ->
  JsMap.get key (dedupe (run P s ls)) = Some e.
Proof.
  revert s. induction ls as [|l ls IH]; intros s Hk Hget; [exact Hget|].
  destruct Hk as [Hl Hk]. cbn. apply IH; [exact Hk|].
  now apply keepsStep_get.
Qed.

Lemma socketOf_withSocket (id id' : string) (f : Socket -> Socket) (s : State) :
  socketOf id' (withSocket id f s)
  = if decide (id = id') then option_map f (socketOf id' s) else socketOf id' s.
Proof.
  unfold socketOf. rewrite withSocket_lookup.
  destruct (decide (id = id')) as [->|]; [|reflexivity].
  now destruct (conns s !! id').
Qed.

Lemma socketOf_respond (connId id : string) (ok : bool) (payload : option json)
    (error : option ErrorShape) (s : State) :
  socketOf connId (respond connId id ok payload error s)
  = option_map (sockSend (FRes (JStr id) ok payload error)) (socketOf connId s).
Proof.
  unfold respond, send. rewrite socketOf_withSocket.
  now rewrite decide_True by reflexivity.
Qed.

(** A request whose dedupe key is cached is answered from the cache. *)
Lemma onMessage_cached (P : Platform) (s : State) (connId : string) (c : Conn)
    (hello : Hello) (parsed : json) (req : RequestFrame) (key : string)
    (cached : DedupeEntry) (clock : nat -> Z) (uuid : string) :
  conns s !! connId = Some c -> closed c = false -> client c = Some hello ->
  validateRequestFrame parsed = Some req ->
  requestKey req = Some key ->
  JsMap.get key (dedupe s) = Some cached ->
  onMessage P connId (Some parsed) clock uuid s
  = respond connId (req_id req) (d_ok cached) (d_payload cached) (d_error cached) s.
Proof.
  intros Hc Hclosed Hclient Hreq Hkey Hget.
  unfold onMessage. rewrite Hc, Hclosed, Hclient.
  unfold handleRequest. rewrite Hreq. cbv zeta.
  unfold requestKey in Hkey. cbv zeta in Hkey.
  destruct req as [rid m params]. cbn [req_id req_method req_params] in *.
  destruct (String.eqb_spec m "send") as [->|Hsend].
  - cbn [String.eqb Ascii.eqb Bool.eqb].
    unfold handleSend. cbn [req_id req_method req_params]. cbv zeta.
    destruct (validateSendParams (nullish params (JObj []))) as [sp|];
      [|discriminate].
    injection Hkey as <-. now rewrite Hget.
  - destruct (String.eqb_spec m "agent") as [->|Hagent]; [|discriminate].
    cbn [String.eqb Ascii.eqb Bool.eqb].
    unfold handleAgent. cbn [req_id req_method req_params]. cbv zeta.
    destruct (validateAgentParams (nullish params (JObj []))) as [ap|];
      [|discriminate].
    injection Hkey as <-. now rewrite Hget.
Qed.

(** The completion of a [send] or [agent] request stores the outcome it
    answers with. *)
Lemma continue_stores (P : Platform) (k : Suspended) (o : Outcome) (now : Z)
    (s : State) (key : string) :
  dedupeKey k = Some key -> settles k o = true ->
  exists e,
    d_ts e = now
    /\ continue P k o now s
       = Some (respond (connOf k) (idOf k) (d_ok e) (d_payload e) (d_error e)
                 (setDedupe (JsMap.set key e (dedupe s)) s)).
Proof.
  intros Hk Ho.
  destruct k, o; try discriminate; injection Hk as <-; cbn;
    eexists {| d_ts := now |}; (split; [reflexivity|]); reflexivity.
Qed.

(** C1 (amended): once a [send] or [agent] request has completed, with
    response [res{ok, payload, error}], every later request with the same
    method and idempotency key, on any connection, is answered with the same
    [ok], [payload] and [error] without a call to a port, as long as no
    cleanup found the entry older than the TTL or the cache above its cap and
    no other request with that key, in flight at the same time, completed
    after it. *)
Theorem dedupe_replays_completed_outcome (P : Platform) (s0 : State) (i : nat)
    (k : Suspended) (o : Outcome) (t : Z) (key : string) (ls : list Label)
    (connId : string) (c : Conn) (hello : Hello) (parsed : json)
    (req : RequestFrame) (clock : nat -> Z) (uuid : string) :
  suspended s0 !! i = Some k ->
  dedupeKey k = Some key ->
  settles k o = true ->
  let s1 := step P s0 (Settle i o t) in
  keeps P key s1 ls ->
  let s := run P s1 ls in
  conns s !! connId = Some c -> closed c = false -> client c = Some hello ->
  validateRequestFrame parsed = Some req ->
  requestKey req = Some key ->
  let s' := step P s (Message connId (Some parsed) clock uuid) in
  exists ok payload error,
    socketOf (connOf k) s1
    = option_map (sockSend (FRes (JStr (idOf k)) ok payload error))
        (socketOf (connOf k) s0)
    /\ socketOf connId s'
       = option_map (sockSend (FRes (JStr (req_id req)) ok payload error))
           (socketOf connId s)
    /\ portCalls s' = portCalls s
    /\ suspended s' = suspended s.
Proof.
  intros Hi Hk Ho s1 Hkeeps s Hc Hclosed Hclient Hreq Hkey s'.
  destruct (continue_stores P k o t
              (setSuspended (delete i (suspended s0)) s0) key Hk Ho)
    as (e & Hts & Hcont).
  assert (Hs1 : s1 = respond (connOf k) (idOf k) (d_ok e) (d_payload e) (d_error e)
                       (setDedupe (JsMap.set key e (dedupe s0))
                          (setSuspended (delete i (suspended s0)) s0))).
  { subst s1. cbn [step]. unfold resume. rewrite Hi, Hcont. reflexivity. }
  assert (Hget1 : JsMap.get key (dedupe s1) = Some e).
  { rewrite Hs1. cbn. apply get_set_eq. }
  assert (Hget : JsMap.get key (dedupe s) = Some e).
  { subst s. now apply keeps_get. }
  assert (Hs' : s' = respond connId (req_id req) (d_ok e) (d_payload e) (d_error e) s).
  { subst s'. cbn [step]. eapply onMessage_cached; eauto. }
  exists (d_ok e), (d_payload e), (d_error e). repeat split.
  - rewrite Hs1. now rewrite socketOf_respond.
  - rewrite Hs'. now rewrite socketOf_respond.
  - now rewrite Hs'.
  - now rewrite Hs'.
Qed.

(** C10: an [agent] request whose key is cached gets the cached [res] and
    nothing else: no event frame is written, the sequence counter and the
    cache stay as they are, no handler is suspended and no port is called. *)
Theorem agent_cached_sends_only_res (P : Platform) (s : State) (connId : string)
    (c : Conn) (hello : Hello) (parsed : json) (req : RequestFrame)
    (params : AgentParams) (cached : DedupeEntry) (clock : nat -> Z)
    (uuid : string) :
  conns s !! connId = Some c -> closed c = false -> client c = Some hello ->
  validateRequestFrame parsed = Some req ->
  req_method req = "agent" ->
  validateAgentParams (nullish (req_params req) (JObj [])) = Some params ->
  JsMap.get ("agent:" +:+ ap_idempotencyKey params) (dedupe s) = Some cached ->
  let s' := step P s (Message connId (Some parsed) clock uuid) in
  let res := FRes (JStr (req_id req)) (d_ok cached) (d_payload cached) (d_error cached) in
  seq s' = seq s
  /\ portCalls s' = portCalls s
  /\ suspended s' = suspended s
  /\ dedupe s' = dedupe s
  /\ socketOf connId s' = option_map (sockSend res) (socketOf connId s)
  /\ (option_map readyState (socketOf connId s) = Some OPEN ->
      outboundOf connId s' = outboundOf connId s ++ [res])
  /\ eventSeqs (outboundOf connId s') = eventSeqs (outboundOf connId s)
  /\ forall other, other <> connId -> conns s' !! other = conns s !! other.
Proof.
  intros Hc Hclosed Hclient Hreq Hm Hp Hget s' res.
  assert (Hkey : requestKey req = Some ("agent:" +:+ ap_idempotencyKey params)).
  { unfold requestKey. rewrite Hm, Hp. reflexivity. }
  assert (Hs' : s' = respond connId (req_id req) (d_ok cached) (d_payload cached)
                       (d_error cached) s).
  { subst s'. cbn [step]. eapply onMessage_cached; eauto. }
  assert (Hout : outboundOf connId s' = outbound (sockSend res (socket c))).
  { rewrite Hs'. unfold outboundOf, respond, send. rewrite withSocket_lookup.
    rewrite decide_True by reflexivity. now rewrite Hc. }
  assert (Hout0 : outboundOf connId s = outbound (socket c)).
  { unfold outboundOf. now rewrite Hc. }
  split; [now rewrite Hs'|].
  split; [now rewrite Hs'|].
  split; [now rewrite Hs'|].
  split; [now rewrite Hs'|].
  split; [rewrite Hs'; apply socketOf_respond|].
  split; [|split].
  - intros Hopen. rewrite Hout, Hout0.
    unfold socketOf in Hopen. rewrite Hc in Hopen. cbn in Hopen.
    injection Hopen as Hopen. unfold sockSend. now rewrite Hopen.
  - rewrite Hout, Hout0. now apply quiet_sockSend.
  - intros other Hne. rewrite Hs'. unfold respond, send.
    rewrite withSocket_lookup. now rewrite decide_False by congruence.
Qed.

Lemma dedupe_replays_completed_outcome_witness :
  let s1 := step sampleHost agentInFlight (Settle 0 Returned 40) in
  let s := run sampleHost s1
             [Tick 50; DedupeCleanup 60; SocketClose "A" (at_ 70)] in
  let s' := step sampleHost s
              (Message "B" (Some (agentReq "ag2" "hi again" "I")) (at_ 80) "run-2") in
  exists ok payload error,
    socketOf "A" s1
    = option_map (sockSend (FRes (JStr "ag1") ok payload error))
        (socketOf "A" agentInFlight)
    /\ socketOf "B" s'
       = option_map (sockSend (FRes (JStr "ag2") ok payload error)) (socketOf "B" s)
    /\ portCalls s' = portCalls s
    /\ suspended s' = suspended s.
Proof.
  eapply (dedupe_replays_completed_outcome sampleHost agentInFlight 0
            (AwaitAgent "A" "ag1" "I" "run-1") Returned 40 "agent:I"
            [Tick 50; DedupeCleanup 60; SocketClose "A" (at_ 70)]
            "B" _ _ (agentReq "ag2" "hi again" "I")
            {| req_id := "ag2"; req_method := "agent";
               req_params := Some (JObj [("message", JStr "hi again");
                                         ("idempotencyKey", JStr "I")]) |}
            (at_ 80) "run-2").
  - vm_compute; reflexivity.
  - reflexivity.
  - reflexivity.
  - cbn [keeps keepsStep]. repeat split.
    + intros e He. vm_compute in He. injection He as <-. vm_compute. discriminate.
    + vm_compute. discriminate.
  - vm_compute; reflexivity.
  - vm_compute; reflexivity.
  - vm_compute; reflexivity.
  - vm_compute; reflexivity.
  - vm_compute; reflexivity.
Defined.

(** C1 is false as stated: two [agent] requests with the same key, the
    second arriving while the first is in flight, both reach the agent
    command, and the two responses differ in their [runId]. *)
Lemma same_key_in_flight_runs_twice :
  let s := run sampleHost twoClients
             [Message "A" (Some (agentReq "ag1" "hi" "I")) (at_ 30) "run-1";
              Message "B" (Some (agentReq "ag2" "hi" "I")) (at_ 31) "run-2";
              Settle 0 Returned 40; Settle 0 Returned 41] in
  portCalls s
  = [GetHealthSnapshot; GetHealthSnapshot;
     AgentCommand "hi" None None None None None;
     AgentCommand "hi" None None None None None]
  /\ responses (outboundOf "A" s)
     = [FRes (JStr "ag1") true
          (Some (JObj [("runId", JStr "run-1"); ("status", JStr "ok");
                       ("summary", JStr "completed")])) None]
  /\ responses (outboundOf "B" s)
     = [FRes (JStr "ag2") true
          (Some (JObj [("runId", JStr "run-2"); ("status", JStr "ok");
                       ("summary", JStr "completed")])) None]
  /\ JObj [("runId", JStr "run-1"); ("status", JStr "ok"); ("summary", JStr "completed")]
     <> JObj [("runId", JStr "run-2"); ("status", JStr "ok"); ("summary", JStr "completed")].
Proof. vm_compute. repeat split. discriminate. Qed.

Lemma agent_cached_sends_only_res_witness :
  let s := step sampleHost agentInFlight (Settle 0 Returned 40) in
  let s' := step sampleHost s
              (Message "B" (Some (agentReq "ag2" "hi again" "I")) (at_ 80) "run-2") in
  let res := FRes (JStr "ag2") true
               (Some (JObj [("runId", JStr "run-1"); ("status", JStr "ok");
                            ("summary", JStr "completed")])) None in
  seq s' = seq s
  /\ portCalls s' = portCalls s
  /\ suspended s' = suspended s
  /\ dedupe s' = dedupe s
  /\ socketOf "B" s' = option_map (sockSend res) (socketOf "B" s)
  /\ (option_map readyState (socketOf "B" s) = Some OPEN ->
      outboundOf "B" s' = outboundOf "B" s ++ [res])
  /\ eventSeqs (outboundOf "B" s') = eventSeqs (outboundOf "B" s)
  /\ forall other, other <> "B" -> conns s' !! other = conns s !! other.
Proof.
  eapply (agent_cached_sends_only_res sampleHost
            (step sampleHost agentInFlight (Settle 0 Returned 40)) "B" _ _
            (agentReq "ag2" "hi again" "I")
            {| req_id := "ag2"; req_method := "agent";
               req_params := Some (JObj [("message", JStr "hi again");
                                         ("idempotencyKey", JStr "I")]) |}
            {| ap_message := "hi again"; ap_to := None; ap_sessionId := None;
               ap_thinking := None; ap_deliver := None; ap_timeout := None;
               ap_idempotencyKey := "I" |}
            {| d_ts := 40; d_ok := true;
               d_payload := Some (JObj [("runId", JStr "run-1"); ("status", JStr "ok");
                                        ("summary", JStr "completed")]);
               d_error := None |} (at_ 80) "run-2").
  - vm_compute; reflexivity.
  - vm_compute; reflexivity.
  - vm_compute; reflexivity.
  - vm_compute; reflexivity.
  - reflexivity.
  - vm_compute; reflexivity.
  - vm_compute; reflexivity.
Defined.

(* ===================================================================== *)
(** ** One event per step *)
(* ===================================================================== *)

Lemma outboundOf_withSocket (id id' : string) (f : Socket -> Socket) (s : State) :
  outboundOf id' (withSocket id f s)
  = if decide (id = id')
    then match conns s !! id' with
         | Some c => outbound (f (socket c))
         | None => []
         end
    else outboundOf id' s.
Proof.
  unfold outboundOf. rewrite withSocket_lookup.
  destruct (decide (id = id')) as [->|]; [|reflexivity].
  now destruct (conns s !! id').
Qed.

Lemma Phase_refl (s : State) : Phase false s s.
Proof. split. left. now split. Qed.

Lemma Phase_weaken (s0 s : State) : Phase false s0 s -> Phase true s0 s.
Proof. intros [[H|(Hb & _)]]; [|discriminate]. split. now left. Qed.

(** A step of a handler that leaves the counter and the event frames alone. *)
Lemma Phase_silent (b : bool) (s0 s s' : State) :
  seq s' = seq s ->
  (forall id, eventSeqs (outboundOf id s') = eventSeqs (outboundOf id s)) ->
  Phase b s0 s -> Phase b s0 s'.
Proof.
  intros Hseq Hout [[(H1 & H2)|(Hb & H1 & H2)]]; split.
  - left. split; [congruence|]. intros id. now rewrite Hout.
  - right. split; [exact Hb|]. split; [congruence|].
    intros id. destruct (H2 id) as (new & Hnew & Hall).
    exists new. split; [now rewrite Hout|exact Hall].
Qed.

Lemma Phase_fields (b : bool) (s0 s s' : State) :
  seq s' = seq s -> conns s' = conns s -> Phase b s0 s -> Phase b s0 s'.
Proof.
  intros Hseq Hconns. apply Phase_silent; [exact Hseq|].
  intros id. unfold outboundOf. now rewrite Hconns.
Qed.

Lemma Phase_withSocket b s0 id f s :
  quiet f -> Phase b s0 s -> Phase b s0 (withSocket id f s).
Proof.
  intros Hf. apply Phase_silent; [reflexivity|].
  intros id'. rewrite outboundOf_withSocket. unfold outboundOf.
  destruct (decide (id = id')); [|reflexivity].
  destruct (conns s !! id'); [apply Hf|reflexivity].
Qed.

Lemma Phase_send b s0 id f s :
  eventSeqs [f] = [] -> Phase b s0 s -> Phase b s0 (send id f s).
Proof. intros Hf. apply Phase_withSocket. now apply quiet_sockSend. Qed.

Lemma Phase_respond b s0 connId id ok payload error s :
  Phase b s0 s -> Phase b s0 (respond connId id ok payload error s).
Proof. now apply Phase_send. Qed.

Lemma Phase_setClients b s0 cs s : Phase b s0 s -> Phase b s0 (setClients cs s).
Proof. now apply Phase_fields. Qed.

Lemma Phase_setEntries b s0 e s : Phase b s0 s -> Phase b s0 (setEntries e s).
Proof. now apply Phase_fields. Qed.

Lemma Phase_setDedupe b s0 d s : Phase b s0 s -> Phase b s0 (setDedupe d s).
Proof. now apply Phase_fields. Qed.

Lemma Phase_setSystemEvents b s0 q s : Phase b s0 s -> Phase b s0 (setSystemEvents q s).
Proof. now apply Phase_fields. Qed.

Lemma Phase_setPresenceVersion b s0 n s :
  Phase b s0 s -> Phase b s0 (setPresenceVersion n s).
Proof. now apply Phase_fields. Qed.

Lemma Phase_setHealthVersion b s0 n s :
  Phase b s0 s -> Phase b s0 (setHealthVersion n s).
Proof. now apply Phase_fields. Qed.

Lemma Phase_setSuspended b s0 l s : Phase b s0 s -> Phase b s0 (setSuspended l s).
Proof. now apply Phase_fields. Qed.

Lemma Phase_setStopped b s0 x s : Phase b s0 s -> Phase b s0 (setStopped x s).
Proof. now apply Phase_fields. Qed.

Lemma Phase_logError b s0 s : Phase b s0 s -> Phase b s0 (logError s).
Proof. now apply Phase_fields. Qed.

Lemma Phase_await b s0 call k s : Phase b s0 s -> Phase b s0 (await call k s).
Proof. now apply Phase_fields. Qed.

Lemma Phase_listPresence b s0 P t0 t1 t2 s :
  Phase b s0 s -> Phase b s0 (fst (listPresence P t0 t1 t2 s)).
Proof. now apply Phase_fields. Qed.

Lemma Phase_buildSnapshot b s0 P t0 t1 t2 s :
  Phase b s0 s -> Phase b s0 (fst (buildSnapshot P t0 t1 t2 s)).
Proof. now apply Phase_fields. Qed.

Lemma Phase_setClient b s0 id hello s : Phase b s0 s -> Phase b s0 (setClient id hello s).
Proof.
  apply Phase_silent; [reflexivity|].
  intros id'. unfold outboundOf, setClient. cbn [conns setConns].
  rewrite lookup_alter. destruct (decide (id = id')) as [->|]; [|reflexivity].
  now destruct (conns s !! id').
Qed.

Lemma Phase_close b s0 id s : Phase b s0 s -> Phase b s0 (close id s).
Proof.
  apply Phase_silent.
  - unfold close. destruct (conns s !! id) as [c|]; [|reflexivity].
    destruct (closed c); [reflexivity|]. now destruct (client c).
  - intros id'. unfold close, outboundOf.
    destruct (conns s !! id) as [c|] eqn:Hc; [|reflexivity].
    destruct (closed c); [reflexivity|].
    assert (Hconns : conns (match client c with
                            | Some _ => setClients (deleteClient id (clients s)) s
                            | None => s
                            end) = conns s) by now destruct (client c).
    cbn [conns setConns]. rewrite Hconns, lookup_insert.
    destruct (decide (id = id')) as [->|]; [|reflexivity].
    rewrite Hc. cbn [socket]. apply quiet_sockClose.
Qed.

Lemma Phase_rejectHello b s0 id reason expected c closeReason s :
  Phase b s0 s -> Phase b s0 (rejectHello id reason expected c closeReason s).
Proof.
  intros H. unfold rejectHello.
  apply Phase_close, Phase_withSocket; [apply quiet_sockClose|].
  now apply Phase_send.
Qed.

Lemma Phase_foldClose b s0 c r cs s :
  Phase b s0 s ->
  Phase b s0 (List.fold_left (fun s id => withSocket id (sockClose c r) s) cs s).
Proof.
  revert s. induction cs as [|id cs IH]; intros s H; simpl; [exact H|].
  apply IH, Phase_withSocket; [apply quiet_sockClose|exact H].
Qed.

Lemma deliver_events (d : bool) (e : string) (p : json) (n : Z)
    (sv : option StateVersion) (k : Socket) :
  exists new,
    eventSeqs (outbound (deliver d (FEvent e p n sv) k)) = eventSeqs (outbound k) ++ new
    /\ Forall (fun x => x = n) new.
Proof.
  unfold deliver. cbv zeta.
  destruct (MAX_BUFFERED_BYTES <? bufferedAmount k); cbn [andb].
  - exists []. split; [|constructor].
    rewrite app_nil_r. destruct d; [reflexivity|apply quiet_sockClose].
  - unfold sockSend. destruct (readyState k).
    + exists [n]. split; [|repeat constructor].
      cbn [outbound]. now rewrite eventSeqs_app.
    + exists []. split; [now rewrite app_nil_r|constructor].
    + exists []. split; [now rewrite app_nil_r|constructor].
Qed.

(** The loop of [broadcast]: every socket gets event frames numbered [n] only. *)
Lemma fold_deliver_events (d : bool) (e : string) (p : json) (n : Z)
    (sv : option StateVersion) (cs : list string) (s : State) :
  let s' := List.fold_left (fun s c => withSocket c (deliver d (FEvent e p n sv)) s) cs s in
  seq s' = seq s
  /\ forall id, exists new,
       eventSeqs (outboundOf id s') = eventSeqs (outboundOf id s) ++ new
       /\ Forall (fun x => x = n) new.
Proof.
  revert s. induction cs as [|c cs IH]; intros s; cbn [List.fold_left].
  - split; [reflexivity|]. intros id. exists []. split; [now rewrite app_nil_r|constructor].
  - destruct (IH (withSocket c (deliver d (FEvent e p n sv)) s)) as [Hseq Hout].
    cbv zeta in IH, Hseq, Hout |- *.
    split; [exact Hseq|].
    intros id. destruct (Hout id) as (new2 & Hnew2 & Hall2).
    assert (H1 : exists new1,
               eventSeqs (outboundOf id (withSocket c (deliver d (FEvent e p n sv)) s))
               = eventSeqs (outboundOf id s) ++ new1
               /\ Forall (fun x => x = n) new1).
    { rewrite outboundOf_withSocket. unfold outboundOf.
      destruct (decide (c = id)).
      - destruct (conns s !! id) as [k|].
        + apply deliver_events.
        + exists []. split; [reflexivity|constructor].
      - exists []. split; [now rewrite app_nil_r|constructor]. }
    destruct H1 as (new1 & Hnew1 & Hall1).
    exists (new1 ++ new2). split.
    + rewrite Hnew2, Hnew1. now rewrite app_assoc.
    + apply Forall_app. now split.
Qed.

Lemma Phase_broadcast s0 event payload dropIfSlow sv s :
  Phase false s0 s -> Phase true s0 (broadcast event payload dropIfSlow sv s).
Proof.
  intros [[(Hseq & Hout)|(Hb & _)]]; [|discriminate].
  split. right. split; [reflexivity|].
  unfold broadcast. cbv zeta.
  destruct (fold_deliver_events dropIfSlow event payload (seq (setSeq (seq s + 1) s)) sv
              (clients (setSeq (seq s + 1) s)) (setSeq (seq s + 1) s)) as [Hseq' Hout'].
  cbv zeta in Hseq', Hout'. split.
  - rewrite Hseq'. cbn. now rewrite Hseq.
  - intros id. destruct (Hout' id) as (new & Hnew & Hall).
    exists new. split.
    + rewrite Hnew. f_equal. rewrite <- Hout. reflexivity.
    + cbn [seq setSeq] in Hall. now rewrite Hseq in Hall.
Qed.

Lemma Phase_broadcastPresence s0 P t0 t1 t2 s :
  Phase false s0 s -> Phase true s0 (broadcastPresence P t0 t1 t2 s).
Proof.
  intros H. unfold broadcastPresence. now apply Phase_broadcast, Phase_listPresence.
Qed.

Lemma Phase_ack s0 id e p sv s :
  Phase false s0 s ->
  Phase true s0
    (withSocket id (sockSend (FEvent e p (seq s + 1) sv)) (setSeq (seq s + 1) s)).
Proof.
  intros [[(Hseq & Hout)|(Hb & _)]]; [|discriminate].
  split. right. split; [reflexivity|]. split; [cbn; now rewrite Hseq|].
  intros id'. rewrite outboundOf_withSocket. rewrite <- Hout.
  unfold outboundOf. cbn [conns setSeq].
  destruct (decide (id = id')).
  - destruct (conns s !! id') as [c|].
    + unfold sockSend. destruct (readyState (socket c)).
      * exists [seq s0 + 1]. split; [|repeat constructor].
        cbn [outbound]. rewrite eventSeqs_app. cbn. now rewrite Hseq.
      * exists []. split; [now rewrite app_nil_r|constructor].
      * exists []. split; [now rewrite app_nil_r|constructor].
    + exists []. split; [reflexivity|constructor].
  - exists []. split; [now rewrite app_nil_r|constructor].
Qed.

Ltac phase_step :=
  first
    [ assumption
    | apply Phase_respond | apply Phase_await | apply Phase_logError
    | apply Phase_setEntries | apply Phase_setDedupe | apply Phase_setSystemEvents
    | apply Phase_setPresenceVersion | apply Phase_setHealthVersion
    | apply Phase_setSuspended | apply Phase_setStopped
    | apply Phase_listPresence | apply Phase_buildSnapshot
    | apply Phase_setClient | apply Phase_setClients | apply Phase_rejectHello
    | apply Phase_close
    | apply Phase_broadcastPresence | apply Phase_broadcast | apply Phase_ack
    | apply Phase_send; [reflexivity|]
    | apply Phase_withSocket;
      [first [apply quiet_sockClose | apply quiet_sockClosed | apply quiet_sockBuffered]|]
    | match goal with
      | |- Phase _ _ (match ?x with _ => _ end) => destruct x eqn:?
      end
    | apply Phase_weaken; assumption ].

Ltac phase_auto := cbv zeta; repeat phase_step.

Lemma Phase_onMessage (P : Platform) (id : string) (parsed : option json)
    (clock : nat -> Z) (uuid : string) (s : State) :
  Phase true s (onMessage P id parsed clock uuid s).
Proof.
  pose proof (Phase_refl s) as H.
  unfold onMessage, handleHello, handleRequest, handleSystemEvent, handleSend,
    handleAgent.
  phase_auto.
Qed.

Lemma Phase_resume (P : Platform) (i : nat) (o : Outcome) (now : Z) (s : State) :
  Phase true s (resume P i o now s).
Proof.
  pose proof (Phase_refl s) as H. unfold resume.
  destruct (suspended s !! i) as [k|]; [|now apply Phase_weaken].
  destruct (continue P k o now _) as [s'|] eqn:E; [|now apply Phase_weaken].
  revert E. unfold continue.
  destruct k, o; intros [= <-]; phase_auto.
Qed.

(** Every step moves the counter by at most one, and the event frames it
    writes carry the new value of the counter. *)
Lemma Phase_step (P : Platform) (s : State) (l : Label) : Phase true s (step P s l).
Proof.
  pose proof (Phase_refl s) as H. destruct l; cbn [step].
  - unfold onConnection.
    destruct (stopped s); [now apply Phase_weaken|].
    destruct (conns s !! connId) eqn:Hl; [now apply Phase_weaken|].
    apply Phase_weaken. eapply Phase_silent; [| |exact H]; [reflexivity|].
    intros id. unfold outboundOf. cbn [conns setConns]. rewrite lookup_insert.
    destruct (decide (connId = id)) as [<-|]; [|reflexivity]. now rewrite Hl.
  - apply Phase_onMessage.
  - apply Phase_resume.
  - unfold onSocketClose. phase_auto.
  - unfold onSocketError. phase_auto.
  - unfold onHandshakeTimeout. phase_auto.
  - unfold onTick. phase_auto.
  - unfold onDedupeCleanup. phase_auto.
  - unfold onAgentEvent. phase_auto.
  - phase_auto.
  - unfold serverClose. cbv zeta.
    apply Phase_setClients, Phase_foldClose. phase_auto.
Qed.

(* ===================================================================== *)
(** ** Sequence numbers as a connection sees them *)
(* ===================================================================== *)

(** C2 (amended): on every connection the event frames carry strictly
    increasing sequence numbers, none above the counter of the process.  A
    step of the server moves the counter by at most one, and writes to a
    connection at most one event frame, numbered with the counter it moved
    to.  Consecutive numbers on one connection need not differ by one. *)
Theorem event_seqs_strictly_increase (P : Platform) (s : State) (connId : string) :
  reachable P s ->
  StronglySorted Z.lt (eventSeqs (outboundOf connId s))
  /\ Forall (fun n => n <= seq s) (eventSeqs (outboundOf connId s))
  /\ forall l,
       let s' := step P s l in
       (seq s' = seq s
        /\ eventSeqs (outboundOf connId s') = eventSeqs (outboundOf connId s))
       \/ (seq s' = seq s + 1
           /\ (eventSeqs (outboundOf connId s') = eventSeqs (outboundOf connId s)
               \/ eventSeqs (outboundOf connId s')
                  = eventSeqs (outboundOf connId s) ++ [seq s + 1])).
Proof.
  intros Hr.
  assert (Hsorted : forall s, reachable P s ->
            seqsUpTo (seq s) (eventSeqs (outboundOf connId s))).
  { intros s1 Hr1. apply reachable_Inv in Hr1. destruct Hr1 as [_ Hc].
    unfold outboundOf. destruct (conns s1 !! connId) as [c|] eqn:Hl.
    - exact (Hc connId c Hl).
    - split; constructor. }
  destruct (Hsorted s Hr) as [Hs Hb].
  split; [exact Hs|]. split; [exact Hb|].
  intros l s'.
  destruct (Phase_step P s l) as [[(Hseq & Hout)|(_ & Hseq & Hout)]].
  - left. split; [exact Hseq|apply Hout].
  - right. split; [exact Hseq|].
    destruct (Hout connId) as (new & Hnew & Hall).
    destruct (Hsorted s' (reachable_step P s l Hr)) as [Hs' _].
    fold s' in Hnew. rewrite Hnew in Hs' |- *.
    destruct new as [|x [|y new]].
    + left. now rewrite app_nil_r.
    + right. apply Forall_cons in Hall. destruct Hall as [-> _]. reflexivity.
    + exfalso. apply StronglySorted_suffix in Hs'.
      apply Forall_cons in Hall. destruct Hall as [-> Hall].
      apply Forall_cons in Hall. destruct Hall as [-> _].
      apply StronglySorted_inv in Hs'. destruct Hs' as [_ Hlt].
      apply Forall_cons in Hlt. destruct Hlt as [Hlt _]. lia.
Qed.

Lemma event_seqs_strictly_increase_witness :
  StronglySorted Z.lt (eventSeqs (outboundOf "B" gapState))
  /\ Forall (fun n => n <= seq gapState) (eventSeqs (outboundOf "B" gapState))
  /\ forall l,
       let s' := step sampleHost gapState l in
       (seq s' = seq gapState
        /\ eventSeqs (outboundOf "B" s') = eventSeqs (outboundOf "B" gapState))
       \/ (seq s' = seq gapState + 1
           /\ (eventSeqs (outboundOf "B" s') = eventSeqs (outboundOf "B" gapState)
               \/ eventSeqs (outboundOf "B" s')
                  = eventSeqs (outboundOf "B" gapState) ++ [seq gapState + 1])).
Proof.
  apply (event_seqs_strictly_increase sampleHost gapState "B").
  exists 0, (dial "A" 10 ++ dial "B" 20 ++ gapRun). vm_compute. reflexivity.
Defined.

(** C2 is false as stated: [B] is sent the events numbered 1 and 3, with
    nothing dropped on its socket; the number 2 went to the [accepted]
    event that only [A] receives. *)
Lemma event_seq_gap_without_drop :
  eventSeqs (outboundOf "B" gapState) = [1; 3]
  /\ 3 <> 1 + 1
  /\ eventSeqs (outboundOf "A" gapState) = [1; 2; 3]
  /\ option_map readyState (socketOf "B" gapState) = Some OPEN
  /\ option_map bufferedAmount (socketOf "B" gapState) = Some 0.
Proof. vm_compute. repeat split; discriminate. Qed.

(* ===================================================================== *)
(** ** Delivery to one socket *)
(* ===================================================================== *)

Lemma deliver_fast (d : bool) (f : Frame) (k : Socket) :
  bufferedAmount k <= MAX_BUFFERED_BYTES -> deliver d f k = sockSend f k.
Proof.
  intros H. unfold deliver. cbv zeta.
  apply Z.ltb_ge in H. now rewrite H.
Qed.

Lemma deliver_slow (d : bool) (f : Frame) (k : Socket) :
  MAX_BUFFERED_BYTES < bufferedAmount k ->
  deliver d f k = if d then k else sockClose 1008 (Some "slow consumer") k.
Proof.
  intros H. unfold deliver. cbv zeta.
  apply Z.ltb_lt in H. rewrite H. now destruct d.
Qed.

Lemma socketOf_broadcast (event : string) (payload : json) (dropIfSlow : bool)
    (sv : option StateVersion) (s : State) (id : string) :
  NoDup (clients s) ->
  socketOf id (broadcast event payload dropIfSlow sv s)
  = if decide (id ∈ clients s)
    then option_map (deliver dropIfSlow (FEvent event payload (seq s + 1) sv))
           (socketOf id s)
    else socketOf id s.
Proof.
  intros Hnd. unfold socketOf. rewrite broadcast_lookup by exact Hnd.
  destruct (decide (id ∈ clients s)); [|reflexivity].
  now destruct (conns s !! id).
Qed.

Lemma socketOf_Some (id : string) (s : State) (c : Conn) :
  conns s !! id = Some c -> socketOf id s = Some (socket c).
Proof. intros H. unfold socketOf. now rewrite H. Qed.

Lemma outboundOf_socketOf (id : string) (s : State) (k : Socket) :
  socketOf id s = Some k -> outboundOf id s = outbound k.
Proof.
  unfold socketOf, outboundOf. destruct (conns s !! id); cbn; [|discriminate].
  now intros [= <-].
Qed.

(* ===================================================================== *)
(** ** The [system-event] request *)
(* ===================================================================== *)

Lemma onMessage_request (P : Platform) (s : State) (connId : string) (c : Conn)
    (hello : Hello) (parsed : json) (clock : nat -> Z) (uuid : string) :
  conns s !! connId = Some c -> closed c = false -> client c = Some hello ->
  onMessage P connId (Some parsed) clock uuid s
  = handleRequest P connId parsed clock uuid s.
Proof. intros Hc Hclosed Hclient. unfold onMessage. now rewrite Hc, Hclosed, Hclient. Qed.

Lemma handleRequest_system_event (P : Platform) (s : State) (connId : string)
    (parsed : json) (req : RequestFrame) (clock : nat -> Z) (uuid : string) :
  validateRequestFrame parsed = Some req ->
  req_method req = "system-event" ->
  handleRequest P connId parsed clock uuid s = handleSystemEvent P connId req clock s.
Proof.
  intros Hreq Hm. unfold handleRequest. rewrite Hreq. cbv zeta. now rewrite Hm.
Qed.

(** What an accepted [system-event] does to the state. *)
Lemma handleSystemEvent_accepted (P : Platform) (s : State) (connId : string)
    (req : RequestFrame) (clock : nat -> Z) :
  NoDup (clients s) ->
  systemEventThrows (req_params req) = false ->
  truthy (systemEventText P (req_params req)) = true ->
  let r := listSystemPresence P (clock 0%nat) (clock 1%nat) (clock 2%nat) (entries s) in
  let ev :=
    FEvent "presence" (JObj [("presence", presenceListJson (snd r))]) (seq s + 1)
      (Some {| sv_presence := presenceVersion s + 1; sv_health := healthVersion s |}) in
  let res := FRes (JStr (req_id req)) true (Some okPayload) None in
  let s' := handleSystemEvent P connId req clock s in
  systemEvents s' = systemEvents s ++ [systemEventText P (req_params req)]
  /\ presenceVersion s' = presenceVersion s + 1
  /\ seq s' = seq s + 1
  /\ entries s' = fst r
  /\ forall id,
       socketOf id s'
       = option_map
           (fun k =>
              let k1 := if decide (id ∈ clients s) then deliver true ev k else k in
              if decide (connId = id) then sockSend res k1 else k1)
           (socketOf id s).
Proof.
  intros Hnd Hthrows Htext r ev res s'.
  subst s'. unfold handleSystemEvent. cbv zeta. rewrite Hthrows, Htext. cbn [negb].
  unfold broadcastPresence. rewrite broadcast_eq.
  repeat split.
  intros id. unfold respond, send. rewrite socketOf_withSocket.
  rewrite <- broadcast_eq.
  rewrite socketOf_broadcast by exact Hnd.
  cbn [fst snd listPresence clients seq presenceVersion healthVersion setEntries
         setPresenceVersion setSystemEvents].
  change (socketOf id (setEntries _ _)) with (socketOf id s).
  fold r. fold ev. fold res.
  destruct (decide (connId = id)); destruct (decide (id ∈ clients s));
    now destruct (socketOf id s).
Qed.

Lemma sockSend_open (f : Frame) (k : Socket) :
  readyState k = OPEN ->
  outbound (sockSend f k) = outbound k ++ [f] /\ readyState (sockSend f k) = OPEN.
Proof. intros H. unfold sockSend. rewrite H. cbn. now split. Qed.

(* ===================================================================== *)
(** ** Presence broadcasts and slow consumers *)
(* ===================================================================== *)

Lemma socketOf_close_other (id other : string) (s : State) :
  id <> other -> socketOf id (close other s) = socketOf id s.
Proof.
  intros Hne. unfold close, socketOf.
  destruct (conns s !! other) as [c|]; [|reflexivity].
  destruct (closed c); [reflexivity|].
  cbn [conns setConns]. rewrite lookup_insert_ne by congruence.
  now destruct (client c).
Qed.

Lemma socketOf_broadcastPresence_slow (P : Platform) (t0 t1 t2 : Z) (s : State)
    (id : string) (k : Socket) :
  NoDup (clients s) -> socketOf id s = Some k ->
  MAX_BUFFERED_BYTES < bufferedAmount k ->
  socketOf id (broadcastPresence P t0 t1 t2 s) = Some k.
Proof.
  intros Hnd Hk Hslow. unfold broadcastPresence.
  rewrite socketOf_broadcast by exact Hnd.
  change (socketOf id (fst (listPresence P t0 t1 t2 s))) with (socketOf id s).
  rewrite Hk. cbn [option_map]. rewrite deliver_slow by exact Hslow.
  now destruct (decide _).
Qed.

(** C3 (amended): the presence broadcasts, of an accepted [system-event]
    (one whose text converts to a string without throwing and is not blank)
    and of the close of another connection, pass over a connection whose buffered bytes
    exceed the high-water mark: its socket is neither written an event nor
    closed.  A connection in that state is closed with 1008
    ["slow consumer"], and not written to, by a broadcast issued without
    [dropIfSlow]: an agent event. *)
Theorem slow_consumer_policy (P : Platform) (s : State) (connId : string)
    (k : Socket) :
  reachable P s ->
  In connId (clients s) ->
  socketOf connId s = Some k ->
  MAX_BUFFERED_BYTES < bufferedAmount k ->
  (forall other c hello parsed req clock uuid,
      conns s !! other = Some c -> closed c = false -> client c = Some hello ->
      validateRequestFrame parsed = Some req ->
      req_method req = "system-event" ->
      systemEventThrows (req_params req) = false ->
      truthy (systemEventText P (req_params req)) = true ->
      socketOf connId (step P s (Message other (Some parsed) clock uuid))
      = Some (if decide (other = connId)
              then sockSend (FRes (JStr (req_id req)) true (Some okPayload) None) k
              else k))
  /\ (forall other clock,
        other <> connId ->
        socketOf connId (step P s (SocketClose other clock)) = Some k)
  /\ (forall evt,
        stopped s = false -> readyState k = OPEN ->
        exists k',
          socketOf connId (step P s (AgentEvent evt)) = Some k'
          /\ outbound k' = outbound k
          /\ readyState k' = CLOSING
          /\ closeSent k' = Some (1008, Some "slow consumer")).
Proof.
  intros Hr Hin Hk Hslow.
  apply reachable_Inv in Hr. destruct Hr as [Hnd _].
  apply list_elem_of_In in Hin.
  split; [|split].
  - intros other c hello parsed req clock uuid Hc Hclosed Hclient Hreq Hm Hthrows Htext.
    cbn [step].
    rewrite (onMessage_request P s other c hello) by assumption.
    rewrite (handleRequest_system_event P s other parsed req) by assumption.
    destruct (handleSystemEvent_accepted P s other req clock Hnd Hthrows Htext)
      as (_ & _ & _ & _ & Hsock).
    rewrite (Hsock connId), Hk. cbn [option_map].
    rewrite (decide_True (P := connId ∈ clients s)) by exact Hin.
    now rewrite deliver_slow by exact Hslow.
  - intros other clock Hne. cbn [step]. unfold onSocketClose.
    destruct (conns s !! other) as [c|] eqn:Hc; [|exact Hk].
    assert (Hk1 : socketOf connId (withSocket other sockClosed s) = Some k).
    { rewrite socketOf_withSocket. now rewrite decide_False by exact Hne. }
    destruct (readyState (socket c)); try exact Hk;
      (rewrite socketOf_close_other by congruence;
       destruct (client c) as [hello|]; [|exact Hk1];
       apply socketOf_broadcastPresence_slow; [exact Hnd|exact Hk1|exact Hslow]).
  - intros evt Hstop Hopen. cbn [step]. unfold onAgentEvent. rewrite Hstop.
    rewrite socketOf_broadcast by exact Hnd.
    rewrite decide_True by exact Hin.
    rewrite Hk. cbn [option_map]. rewrite deliver_slow by exact Hslow.
    eexists. split; [reflexivity|].
    unfold sockClose. rewrite Hopen. cbn. repeat split.
Qed.

Lemma slow_consumer_policy_witness :
  let k := {| readyState := OPEN; bufferedAmount := 2000000;
              outbound := outboundOf "B" twoClients; closeSent := None |} in
  (forall other c hello parsed req clock uuid,
      conns slowB !! other = Some c -> closed c = false -> client c = Some hello ->
      validateRequestFrame parsed = Some req ->
      req_method req = "system-event" ->
      systemEventThrows (req_params req) = false ->
      truthy (systemEventText sampleHost (req_params req)) = true ->
      socketOf "B" (step sampleHost slowB (Message other (Some parsed) clock uuid))
      = Some (if decide (other = "B")
              then sockSend (FRes (JStr (req_id req)) true (Some okPayload) None) k
              else k))
  /\ (forall other clock,
        other <> "B" ->
        socketOf "B" (step sampleHost slowB (SocketClose other clock)) = Some k)
  /\ (forall evt,
        stopped slowB = false -> readyState k = OPEN ->
        exists k',
          socketOf "B" (step sampleHost slowB (AgentEvent evt)) = Some k'
          /\ outbound k' = outbound k
          /\ readyState k' = CLOSING
          /\ closeSent k' = Some (1008, Some "slow consumer")).
Proof.
  apply (slow_consumer_policy sampleHost slowB "B"
           {| readyState := OPEN; bufferedAmount := 2000000;
              outbound := outboundOf "B" twoClients; closeSent := None |}).
  - exists 0, (dial "A" 10 ++ dial "B" 20 ++ [Buffered "B" 2000000]).
    vm_compute. reflexivity.
  - vm_compute. right. now left.
  - vm_compute. reflexivity.
  - vm_compute. reflexivity.
Defined.

(** C3 is false as stated: [B] is above the high-water mark when the
    [system-event] of [A] broadcasts a presence event.  [A] receives the
    event; [B] is skipped and its socket stays open, with no close frame. *)
Lemma presence_skips_slow_consumer :
  let s' := step sampleHost slowB
              (Message "A" (Some (systemEventReq "e1" "note from test")) (at_ 30) "") in
  option_map bufferedAmount (socketOf "B" slowB) = Some 2000000
  /\ MAX_BUFFERED_BYTES < 2000000
  /\ List.map frameKind (outboundOf "A" s') = ["hello-ok"; "event presence"; "res"]
  /\ socketOf "B" s' = socketOf "B" slowB
  /\ option_map readyState (socketOf "B" s') = Some OPEN
  /\ option_map closeSent (socketOf "B" s') = Some None.
Proof. vm_compute. repeat split. Qed.


(* ===================================================================== *)
(** ** The order of event and response *)
(* ===================================================================== *)

(** C5 (amended): on the connection that sent an accepted [system-event]
    (one whose text converts to a string without throwing and is not blank),
    the presence event of the broadcast is written first and the [res] of
    the request right after it. *)
Theorem system_event_presence_then_res (P : Platform) (s : State)
    (connId : string) (c : Conn) (hello : Hello) (parsed : json)
    (req : RequestFrame) (clock : nat -> Z) (uuid : string) :
  reachable P s ->
  conns s !! connId = Some c -> closed c = false -> client c = Some hello ->
  In connId (clients s) ->
  readyState (socket c) = OPEN ->
  bufferedAmount (socket c) <= MAX_BUFFERED_BYTES ->
  validateRequestFrame parsed = Some req ->
  req_method req = "system-event" ->
  systemEventThrows (req_params req) = false ->
  truthy (systemEventText P (req_params req)) = true ->
  let s' := step P s (Message connId (Some parsed) clock uuid) in
  exists payload sv,
    outboundOf connId s'
    = outboundOf connId s
      ++ [FEvent "presence" payload (seq s + 1) sv;
          FRes (JStr (req_id req)) true (Some okPayload) None].
Proof.
  intros Hr Hc Hclosed Hclient Hin Hopen Hfast Hreq Hm Hthrows Htext s'.
  apply reachable_Inv in Hr. destruct Hr as [Hnd _].
  subst s'. cbn [step].
  rewrite (onMessage_request P s connId c hello) by assumption.
  rewrite (handleRequest_system_event P s connId parsed req) by assumption.
  destruct (handleSystemEvent_accepted P s connId req clock Hnd Hthrows Htext)
    as (_ & _ & _ & _ & Hsock).
  specialize (Hsock connId).
  rewrite (socketOf_Some _ _ _ Hc) in Hsock.
  cbn [option_map] in Hsock.
  rewrite decide_True in Hsock by reflexivity.
  rewrite decide_True in Hsock by (now apply list_elem_of_In).
  rewrite deliver_fast in Hsock by exact Hfast.
  destruct (sockSend_open
              (FEvent "presence"
                 (JObj [("presence",
                         presenceListJson
                           (snd (listSystemPresence P (clock 0%nat) (clock 1%nat)
                                   (clock 2%nat) (entries s))))])
                 (seq s + 1)
                 (Some {| sv_presence := presenceVersion s + 1;
                          sv_health := healthVersion s |}))
              (socket c) Hopen) as [Hout1 Hopen1].
  eexists _, _.
  rewrite (outboundOf_socketOf _ _ _ Hsock).
  destruct (sockSend_open (FRes (JStr (req_id req)) true (Some okPayload) None) _ Hopen1)
    as [Hout2 _].
  rewrite Hout2, Hout1. unfold outboundOf. rewrite Hc.
  rewrite <- app_assoc. reflexivity.
Qed.

Lemma system_event_presence_then_res_witness :
  let s' := step sampleHost twoClients
              (Message "A" (Some (systemEventReq "e1" "note from test")) (at_ 30) "") in
  exists payload sv,
    outboundOf "A" s'
    = outboundOf "A" twoClients
      ++ [FEvent "presence" payload (seq twoClients + 1) sv;
          FRes (JStr "e1") true (Some okPayload) None].
Proof.
  eapply (system_event_presence_then_res sampleHost twoClients "A" _ _
            (systemEventReq "e1" "note from test")
            {| req_id := "e1"; req_method := "system-event";
               req_params := Some (JObj [("text", JStr "note from test")]) |}
            (at_ 30) "").
  - exists 0, (dial "A" 10 ++ dial "B" 20). vm_compute. reflexivity.
  - vm_compute; reflexivity.
  - vm_compute; reflexivity.
  - vm_compute; reflexivity.
  - vm_compute. now left.
  - vm_compute; reflexivity.
  - vm_compute. discriminate.
  - vm_compute; reflexivity.
  - reflexivity.
  - reflexivity.
  - vm_compute; reflexivity.
Defined.

(** C5 is false as stated: after the [system-event] of [A], the frames
    written to [A] are its [hello-ok], then the presence event, then the
    [res] of the request: the event comes before the [res]. *)
Lemma presence_event_precedes_res :
  let s' := step sampleHost twoClients
              (Message "A" (Some (systemEventReq "e1" "note from test")) (at_ 30) "") in
  List.map frameKind (outboundOf "A" twoClients) = ["hello-ok"]
  /\ List.map frameKind (outboundOf "A" s') = ["hello-ok"; "event presence"; "res"]
  /\ List.nth_error (outboundOf "A" s') 2
     = Some (FRes (JStr "e1") true (Some okPayload) None).
Proof. vm_compute. repeat split. Qed.



(** A [system-event] whose text is the object [{toString: 1}]: [String]
    throws, the [catch] logs the error, and no frame is written. *)
Example unconvertible_text_is_not_answered :
  let v := reqJson "e1" "system-event" [("text", JObj [("toString", JNum 1)])] in
  let s' := step sampleHost twoClients (Message "A" (Some v) (at_ 30) "") in
  validateRequestFrame v <> None
  /\ s' = logError twoClients
  /\ outboundOf "A" s' = outboundOf "A" twoClients.
Proof. vm_compute. repeat split. discriminate. Qed.


(* ===================================================================== *)
(** ** Messages that are not JSON *)
(* ===================================================================== *)

Lemma onMessage_unparseable (P : Platform) (s : State) (connId : string) (c : Conn)
    (hello : Hello) (clock : nat -> Z) (uuid : string) :
  conns s !! connId = Some c -> closed c = false -> client c = Some hello ->
  onMessage P connId None clock uuid s = logError s.
Proof. intros Hc Hclosed Hclient. unfold onMessage. now rewrite Hc, Hclosed, Hclient. Qed.

(** C6, at a message of [A] that is not JSON, after its handshake: the
    server logs the error and writes nothing, to [A] or to anyone; no [res]
    with id ["invalid"] is sent.  The connection stays open. *)
Theorem unparseable_message_gets_no_res :
  let s' := step sampleHost twoClients (Message "A" None (at_ 30) "") in
  outboundOf "A" s' = outboundOf "A" twoClients
  /\ responses (outboundOf "A" s') = []
  /\ conns s' = conns twoClients
  /\ logged s' = S (logged twoClients)
  /\ option_map readyState (socketOf "A" s') = Some OPEN.
Proof. vm_compute. repeat split. Qed.

(* ===================================================================== *)
(** ** Maps with distinct keys *)
(* ===================================================================== *)

Lemma keys_set {V : Type} (k : string) (v : V) (m : JsMap.t V) :
  JsMap.keys (JsMap.set k v m)
  = match JsMap.get k m with
    | Some _ => JsMap.keys m
    | None => JsMap.keys m ++ [k]
    end.
Proof.
  unfold JsMap.keys, JsMap.get.
  induction m as [|[k' v'] m IH]; simpl; [reflexivity|].
  destruct (String.eqb_spec k k') as [->|Hne]; simpl; [reflexivity|].
  rewrite IH. now destruct (assoc k m).
Qed.

Lemma get_None_keys {V : Type} (k : string) (m : JsMap.t V) :
  JsMap.get k m = None <-> k ∉ JsMap.keys m.
Proof.
  unfold JsMap.keys, JsMap.get.
  induction m as [|[k' v'] m IH]; simpl.
  - split; [intros _; apply not_elem_of_nil|reflexivity].
  - rewrite not_elem_of_cons.
    destruct (String.eqb_spec k k') as [->|Hne].
    + split; [discriminate|intros [H _]; contradiction].
    + rewrite IH. tauto.
Qed.

Lemma NoDup_keys_set {V : Type} (k : string) (v : V) (m : JsMap.t V) :
  NoDup (JsMap.keys m) -> NoDup (JsMap.keys (JsMap.set k v m)).
Proof.
  intros Hnd. rewrite keys_set.
  destruct (JsMap.get k m) eqn:E; [exact Hnd|].
  apply NoDup_app. repeat split; trivial.
  - intros x Hx Hx'. apply list_elem_of_singleton in Hx'. subst x.
    now apply get_None_keys in E.
  - apply NoDup_singleton.
Qed.

Lemma keys_filter_sub {V : Type} (p : string * V -> bool) (m : JsMap.t V) (k : string) :
  k ∈ JsMap.keys (List.filter p m) -> k ∈ JsMap.keys m.
Proof.
  unfold JsMap.keys. induction m as [|kv m IH]; simpl; [trivial|].
  destruct (p kv); simpl; rewrite ?elem_of_cons; intuition.
Qed.

Lemma NoDup_keys_filter {V : Type} (p : string * V -> bool) (m : JsMap.t V) :
  NoDup (JsMap.keys m) -> NoDup (JsMap.keys (List.filter p m)).
Proof.
  unfold JsMap.keys. induction m as [|kv m IH]; simpl; [trivial|].
  intros Hnd. apply NoDup_cons in Hnd. destruct Hnd as [Hk Hnd].
  destruct (p kv); simpl; [|now apply IH].
  apply NoDup_cons. split; [|now apply IH].
  intros Hin. apply Hk. eapply keys_filter_sub. exact Hin.
Qed.

(** On a map with distinct keys [delete] removes the binding of the key. *)
Lemma delete_filter {V : Type} (k : string) (m : JsMap.t V) :
  NoDup (JsMap.keys m) ->
  JsMap.delete k m = List.filter (fun kv => negb (String.eqb k (fst kv))) m.
Proof.
  unfold JsMap.keys. induction m as [|[k' v'] m IH]; simpl; [reflexivity|].
  intros Hnd. apply NoDup_cons in Hnd. destruct Hnd as [Hk Hnd].
  destruct (String.eqb_spec k k') as [->|Hne]; simpl.
  - symmetry. apply filter_all. intros [k0 v0] Hin. simpl.
    apply negb_true_iff, String.eqb_neq. intros ->.
    apply Hk. apply list_elem_of_In. change k0 with (fst (k0, v0)). now apply in_map.
  - f_equal. now apply IH.
Qed.

Lemma NoDup_keys_delete {V : Type} (k : string) (m : JsMap.t V) :
  NoDup (JsMap.keys m) -> NoDup (JsMap.keys (JsMap.delete k m)).
Proof. intros H. rewrite delete_filter by exact H. now apply NoDup_keys_filter. Qed.

Lemma get_delete_eq {V : Type} (k : string) (m : JsMap.t V) :
  NoDup (JsMap.keys m) -> JsMap.get k (JsMap.delete k m) = None.
Proof.
  intros H. apply get_None_keys. rewrite delete_filter by exact H.
  unfold JsMap.keys. intros Hin. apply list_elem_of_In, in_map_iff in Hin.
  destruct Hin as ([k' v'] & Hk & Hin). simpl in Hk. subst k'.
  apply filter_In in Hin. destruct Hin as [_ Hin]. simpl in Hin.
  now rewrite String.eqb_refl in Hin.
Qed.

Lemma get_delete_ne {V : Type} (k k' : string) (m : JsMap.t V) :
  k <> k' -> JsMap.get k' (JsMap.delete k m) = JsMap.get k' m.
Proof.
  intros Hne. unfold JsMap.get.
  induction m as [|[k0 v0] m IH]; simpl; [reflexivity|].
  destruct (String.eqb_spec k k0) as [->|Hk]; simpl.
  - destruct (String.eqb_spec k' k0); [congruence|reflexivity].
  - destruct (String.eqb_spec k' k0); [reflexivity|exact IH].
Qed.

Lemma In_get {V : Type} (k : string) (v : V) (m : JsMap.t V) :
  NoDup (JsMap.keys m) -> In (k, v) m -> JsMap.get k m = Some v.
Proof.
  unfold JsMap.keys, JsMap.get.
  induction m as [|[k' v'] m IH]; simpl; [tauto|].
  intros Hnd. apply NoDup_cons in Hnd. destruct Hnd as [Hk Hnd].
  intros [[= -> ->]|Hin].
  - now rewrite String.eqb_refl.
  - destruct (String.eqb_spec k k') as [->|Hne]; [|now apply IH].
    exfalso. apply Hk. apply list_elem_of_In. change k' with (fst (k', v)). now apply in_map.
Qed.

(* ===================================================================== *)
(** ** The presence registry: upsert, cap and expiry *)
(* ===================================================================== *)

Lemma orStr_truthy (a : option string) (b : string) :
  truthy b = true -> truthy (orStr a b) = true.
Proof.
  intros Hb. unfold orStr. destruct a as [s|]; [|exact Hb].
  destruct (truthy s) eqn:E; [exact E|exact Hb].
Qed.

Lemma ensureSelfPresence_NoDup (P : Platform) (now : Z) (es : JsMap.t SystemPresence) :
  NoDup (JsMap.keys es) -> NoDup (JsMap.keys (ensureSelfPresence P now es)).
Proof.
  intros H. unfold ensureSelfPresence. destruct es; [|exact H].
  unfold initSelfPresence. now apply NoDup_keys_set.
Qed.

(** X1: [upsertPresence] stores under [key] an entry stamped with the time of
    the call and carrying a non-empty text; the properties the patch holds
    replace the stored ones, those it does not hold are kept; the key keeps
    its position in the registry or goes last; every other entry is the one
    of the registry as [ensureSelfPresence] leaves it. *)
Theorem upsertPresence_lookup (P : Platform) (key : string) (patch : PresencePatch)
    (now0 now : Z) (es : JsMap.t SystemPresence) :
  let es0 := ensureSelfPresence P now0 es in
  let es' := upsertPresence P key patch now0 now es in
  let old {A : Type} (f : SystemPresence -> option A) : option A :=
    match JsMap.get key es0 with Some e => f e | None => None end in
  (exists merged,
      JsMap.get key es' = Some merged
      /\ ts merged = now
      /\ truthy (text merged) = true
      /\ (forall t, given (p_text patch) = Some t -> truthy t = true -> text merged = t)
      /\ host merged = match p_host patch with Some v => v | None => old host end
      /\ version merged = match p_version patch with Some v => v | None => old version end
      /\ mode merged = match p_mode patch with Some v => v | None => old mode end
      /\ reason merged = match p_reason patch with Some v => v | None => old reason end
      /\ instanceId merged
         = match p_instanceId patch with Some v => v | None => old instanceId end
      /\ ip merged = old ip
      /\ lastInputSeconds merged = old lastInputSeconds)
  /\ (forall k, k <> key -> JsMap.get k es' = JsMap.get k es0)
  /\ JsMap.keys es'
     = match JsMap.get key es0 with
       | Some _ => JsMap.keys es0
       | None => JsMap.keys es0 ++ [key]
       end.
Proof.
  cbv zeta. unfold upsertPresence. cbv zeta.
  set (es0 := ensureSelfPresence P now0 es).
  split; [|split].
  - eexists. split; [apply get_set_eq|]. cbn [ts text host version mode reason instanceId ip lastInputSeconds].
    split; [reflexivity|]. split; [|split].
    + apply orStr_truthy, orStr_truthy. reflexivity.
    + intros t Ht Htt. unfold orStr at 1. rewrite Ht, Htt. reflexivity.
    + unfold spread. repeat split.
  - intros k Hne. now apply get_set_ne.
  - apply keys_set.
Qed.

Lemma dropKeys_size {V : Type} (n : nat) :
  forall (sorted : list (string * V)) (m : JsMap.t V),
    NoDup (JsMap.keys sorted) ->
    (forall k, k ∈ JsMap.keys sorted -> k ∈ JsMap.keys m) ->
    (n <= List.length sorted)%nat ->
    JsMap.size (dropKeys n sorted m) = JsMap.size m - Z.of_nat n.
Proof.
  induction n as [|n IH]; intros [|[k v] rest] m Hnd Hsub Hlen; simpl in *;
    try lia.
  unfold JsMap.keys in Hnd. simpl in Hnd. apply NoDup_cons in Hnd.
  destruct Hnd as [Hk Hnd].
  rewrite IH.
  - rewrite keys_delete_length; [lia|].
    apply Hsub. unfold JsMap.keys. simpl. apply elem_of_cons. now left.
  - exact Hnd.
  - intros k' Hk'. apply keys_delete_other.
    + intros ->. contradiction.
    + apply Hsub. unfold JsMap.keys. simpl. apply elem_of_cons. now right.
  - lia.
Qed.

Lemma filter_twice {A : Type} (p q : A -> bool) (l : list A) :
  List.filter p (List.filter q l) = List.filter (fun x => q x && p x) l.
Proof.
  induction l as [|x l IH]; simpl; [reflexivity|].
  destruct (q x); simpl; [|exact IH].
  destruct (p x); [now f_equal|exact IH].
Qed.

(** What the loop leaves: the bindings whose key is not among the first
    [n] of [sorted]. *)
Lemma dropKeys_filter {V : Type} (n : nat) :
  forall (sorted : list (string * V)) (m : JsMap.t V),
    NoDup (JsMap.keys m) ->
    dropKeys n sorted m
    = List.filter
        (fun kv => negb (existsb (String.eqb (fst kv)) (JsMap.keys (firstn n sorted)))) m.
Proof.
  induction n as [|n IH]; intros [|[k v] rest] m Hnd; simpl;
    try (symmetry; apply filter_all; intros; reflexivity).
  rewrite IH by now apply NoDup_keys_delete.
  rewrite delete_filter by exact Hnd.
  rewrite filter_twice. apply List.filter_ext. intros [k' v']. simpl.
  rewrite (String.eqb_sym k' k). now rewrite negb_orb.
Qed.

Lemma StronglySorted_app_lt {A : Type} (R : A -> A -> Prop) (l k : list A) :
  StronglySorted R (l ++ k) -> forall x y, In x l -> In y k -> R x y.
Proof.
  induction l as [|a l IH]; simpl; [tauto|].
  intros H x y Hx Hy. apply StronglySorted_inv in H. destruct H as [Hs Ha].
  destruct Hx as [<-|Hx]; [|now apply IH].
  rewrite List.Forall_forall in Ha. apply Ha, in_or_app. now right.
Qed.

Lemma NoDup_keys_In_eq {V : Type} (m : list (string * V)) (k : string) (v v' : V) :
  NoDup (JsMap.keys m) -> In (k, v) m -> In (k, v') m -> v = v'.
Proof.
  intros Hnd H H'. apply (In_get _ _ _ Hnd) in H. apply (In_get _ _ _ Hnd) in H'.
  congruence.
Qed.

(** Dropping the keys of the first [n] bindings of the map sorted by [age]
    leaves no binding that is older than one it dropped. *)
Lemma dropKeys_oldest {V : Type} (age : V -> Z) (n : nat) (m : JsMap.t V)
    (gone kept : string * V) :
  NoDup (JsMap.keys m) ->
  let sorted := sortBy (fun a b => age (snd a) <=? age (snd b)) m in
  In gone m -> ~ In gone (dropKeys n sorted m) -> In kept (dropKeys n sorted m) ->
  age (snd gone) <= age (snd kept).
Proof.
  intros Hnd sorted. subst sorted.
  set (le := fun a b : string * V => age (snd a) <=? age (snd b)).
  assert (Hperm : Permutation (sortBy le m) m) by apply sortBy_Permutation.
  assert (Hsorted : StronglySorted (fun a b => age (snd a) <= age (snd b)) (sortBy le m)).
  { apply sortBy_sorted.
    - intros a b H. now apply Z.leb_le in H.
    - intros a b H. apply Z.leb_gt in H. lia.
    - intros a b c ? ?. lia. }
  rewrite dropKeys_filter by exact Hnd.
  destruct gone as [kg vg], kept as [kk vk]. intros Hg Hng Hk. simpl.
  rewrite filter_In in Hng, Hk. simpl in Hng, Hk.
  destruct Hk as [Hk Hkk].
  assert (Hgk : existsb (String.eqb kg) (JsMap.keys (firstn n (sortBy le m))) = true).
  { destruct (existsb _ _) eqn:Ex; [reflexivity|]. exfalso. apply Hng. now split. }
  rewrite <- (firstn_skipn n (sortBy le m)) in Hsorted.
  apply (StronglySorted_app_lt _ _ _ Hsorted (kg, vg) (kk, vk)).
  - apply existsb_exists in Hgk. destruct Hgk as (k0 & Hin & Heq).
    apply String.eqb_eq in Heq. subst k0.
    unfold JsMap.keys in Hin. apply in_map_iff in Hin.
    destruct Hin as ([k1 v1] & Hk1 & Hin). simpl in Hk1. subst k1.
    assert (v1 = vg); [|now subst].
    apply (NoDup_keys_In_eq m kg); trivial.
    apply (Permutation_in _ Hperm).
    rewrite <- (firstn_skipn n (sortBy le m)). apply in_or_app. now left.
  - apply (Permutation_in _ (Permutation_sym Hperm)) in Hk.
    rewrite <- (firstn_skipn n (sortBy le m)) in Hk.
    apply in_app_or in Hk. destruct Hk as [Hk|Hk]; [|exact Hk].
    exfalso. apply negb_true_iff in Hkk.
    assert (existsb (String.eqb kk) (JsMap.keys (firstn n (sortBy le m))) = true);
      [|congruence].
    apply existsb_exists. exists kk. split; [|apply String.eqb_refl].
    unfold JsMap.keys. change kk with (fst (kk, vk)). now apply in_map.
Qed.

Lemma enforceMax_size (es : JsMap.t SystemPresence) :
  NoDup (JsMap.keys es) ->
  JsMap.size (enforceMax es) = Z.min (JsMap.size es) MAX_ENTRIES.
Proof.
  intros Hnd. unfold enforceMax.
  destruct (MAX_ENTRIES <? JsMap.size es) eqn:E.
  2:{ apply Z.ltb_ge in E. lia. }
  apply Z.ltb_lt in E.
  set (le := fun a b : string * SystemPresence => ts (snd a) <=? ts (snd b)).
  assert (Hperm : Permutation (sortBy le es) es) by apply sortBy_Permutation.
  assert (Hpk : Permutation (JsMap.keys (sortBy le es)) (JsMap.keys es)).
  { unfold JsMap.keys. now apply Permutation_map. }
  rewrite dropKeys_size.
  - unfold JsMap.size, MAX_ENTRIES in *. lia.
  - now rewrite Hpk.
  - intros k Hk. now rewrite <- Hpk.
  - rewrite (Permutation_length Hperm). unfold JsMap.size, MAX_ENTRIES in *. lia.
Qed.

(** X4: the cap of [listSystemPresence] removes exactly the excess over
    [MAX_ENTRIES], oldest first: what it leaves is part of the registry,
    its size is the smaller of the old size and [MAX_ENTRIES], and no entry
    it removed is newer than an entry it kept. *)
Theorem enforceMax_evicts_oldest (es : JsMap.t SystemPresence) :
  NoDup (JsMap.keys es) ->
  JsMap.size (enforceMax es) = Z.min (JsMap.size es) MAX_ENTRIES
  /\ (forall kv, In kv (enforceMax es) -> In kv es)
  /\ (forall gone kept,
        In gone es -> ~ In gone (enforceMax es) -> In kept (enforceMax es) ->
        ts (snd gone) <= ts (snd kept)).
Proof.
  intros Hnd. split; [now apply enforceMax_size|].
  split; [intros kv; apply enforceMax_In|].
  unfold enforceMax.
  destruct (MAX_ENTRIES <? JsMap.size es) eqn:E; [|intros; contradiction].
  intros gone kept. now apply (dropKeys_oldest ts).
Qed.

(* ===================================================================== *)
(** ** The dedupe sweep, in general *)
(* ===================================================================== *)

(** The eviction loop drops the keys of a prefix of the sorted entries. *)
Lemma evictLoop_dropKeys (rest : list (string * DedupeEntry)) :
  forall (i : Z) (d : JsMap.t DedupeEntry),
    exists n, evictLoop i rest d = dropKeys n rest d.
Proof.
  induction rest as [|[k v] rest IH]; intros i d; simpl.
  - exists 0%nat. reflexivity.
  - destruct (i <? JsMap.size d - DEDUPE_MAX).
    + destruct (IH (i + 1) (JsMap.delete k d)) as (n & Hn). exists (S n). exact Hn.
    + exists 0%nat. reflexivity.
Qed.

Lemma filter_idem {A : Type} (p : A -> bool) (l : list A) :
  List.filter p (List.filter p l) = List.filter p l.
Proof.
  apply filter_all. intros x Hx. now apply filter_In in Hx.
Qed.

(** X6: what a sweep of the dedupe cache leaves.  Every entry older than
    [DEDUPE_TTL_MS] is gone.  If no more than [DEDUPE_MAX] entries are
    left then, the sweep keeps them all; otherwise it evicts oldest first,
    no evicted entry being newer than one that stays, but only half of the
    excess, rounded up. *)
Theorem dedupeCleanup_evicts_oldest_first (now : Z) (d : JsMap.t DedupeEntry) :
  NoDup (JsMap.keys d) ->
  let fresh := List.filter (fun kv => negb (DEDUPE_TTL_MS <? now - d_ts (snd kv))) d in
  let d' := dedupeCleanup now d in
  (forall kv, In kv d' -> In kv d /\ now - d_ts (snd kv) <= DEDUPE_TTL_MS)
  /\ (JsMap.size fresh <= DEDUPE_MAX -> d' = fresh)
  /\ (forall gone kept,
        In gone fresh -> ~ In gone d' -> In kept d' ->
        d_ts (snd gone) <= d_ts (snd kept))
  /\ JsMap.size d'
     = if DEDUPE_MAX <? JsMap.size fresh
       then JsMap.size fresh - (JsMap.size fresh - DEDUPE_MAX + 1) / 2
       else JsMap.size fresh.
Proof.
  intros Hnd fresh d'.
  assert (Hndf : NoDup (JsMap.keys fresh)) by now apply NoDup_keys_filter.
  assert (Hd' : d' = if DEDUPE_MAX <? JsMap.size fresh
                     then evictLoop 0
                            (sortBy (fun a b => d_ts (snd a) <=? d_ts (snd b)) fresh) fresh
                     else fresh) by reflexivity.
  split; [|split; [|split]].
  - intros kv Hkv. split; [|now apply (dedupeCleanup_expired_removed now d)].
    rewrite Hd' in Hkv. destruct (DEDUPE_MAX <? JsMap.size fresh).
    + apply evictLoop_In in Hkv. subst fresh. now apply filter_In in Hkv.
    + subst fresh. now apply filter_In in Hkv.
  - intros Hsize. rewrite Hd'. apply Z.leb_le in Hsize.
    rewrite Z.ltb_antisym, Hsize. reflexivity.
  - intros gone kept Hg Hng Hk. rewrite Hd' in Hng, Hk.
    destruct (DEDUPE_MAX <? JsMap.size fresh); [|contradiction].
    destruct (evictLoop_dropKeys
                (sortBy (fun a b => d_ts (snd a) <=? d_ts (snd b)) fresh) 0 fresh)
      as (n & Hn).
    rewrite Hn in Hng, Hk. now apply (dropKeys_oldest d_ts n fresh).
  - assert (Hsame : d' = dedupeCleanup now fresh).
    { subst d'. unfold dedupeCleanup. cbv zeta. subst fresh. now rewrite filter_idem. }
    rewrite Hsame. apply dedupeCleanup_size; [exact Hndf|].
    intros kv Hkv. subst fresh. apply filter_In in Hkv. destruct Hkv as [_ Hkv].
    now apply negb_true_iff, Z.ltb_ge in Hkv.
Qed.

Lemma touchSelfPresence_NoDup (P : Platform) (now : Z) (es : JsMap.t SystemPresence) :
  NoDup (JsMap.keys es) -> NoDup (JsMap.keys (touchSelfPresence P now es)).
Proof.
  intros H. unfold touchSelfPresence, initSelfPresence.
  destruct (JsMap.get (selfKey P) es); now apply NoDup_keys_set.
Qed.

Lemma touchSelfPresence_size (P : Platform) (now : Z) (es : JsMap.t SystemPresence) :
  JsMap.size (touchSelfPresence P now es) <= JsMap.size es + 1.
Proof.
  assert (H : List.length (JsMap.keys (touchSelfPresence P now es))
              = List.length (touchSelfPresence P now es)).
  { unfold JsMap.keys. apply length_map. }
  unfold JsMap.size. rewrite <- H.
  unfold touchSelfPresence, initSelfPresence.
  destruct (JsMap.get (selfKey P) es) eqn:E; rewrite keys_set, E;
    unfold JsMap.keys; rewrite ?length_app, !length_map; simpl; lia.
Qed.

Lemma dropKeys_NoDup {V : Type} (n : nat) :
  forall (sorted : list (string * V)) (m : JsMap.t V),
    NoDup (JsMap.keys m) -> NoDup (JsMap.keys (dropKeys n sorted m)).
Proof.
  induction n as [|n IH]; intros [|[k v] rest] m H; simpl; trivial.
  now apply IH, NoDup_keys_delete.
Qed.

Lemma enforceMax_NoDup (es : JsMap.t SystemPresence) :
  NoDup (JsMap.keys es) -> NoDup (JsMap.keys (enforceMax es)).
Proof.
  intros H. unfold enforceMax. destruct (MAX_ENTRIES <? JsMap.size es); [|exact H].
  now apply dropKeys_NoDup.
Qed.

Lemma listSystemPresence_NoDup (P : Platform) (now0 now now' : Z)
    (es : JsMap.t SystemPresence) :
  NoDup (JsMap.keys es) ->
  NoDup (JsMap.keys (fst (listSystemPresence P now0 now now' es))).
Proof.
  intros H. unfold listSystemPresence. cbn [fst].
  apply touchSelfPresence_NoDup, enforceMax_NoDup, NoDup_keys_filter.
  now apply ensureSelfPresence_NoDup.
Qed.

(** X2: a listing returns one element per entry of the registry it leaves,
    and at most [MAX_ENTRIES + 1] of them: the cap is applied before the
    gateway's own entry is written back. *)
Theorem listSystemPresence_bounded (P : Platform) (now0 now now' : Z)
    (es : JsMap.t SystemPresence) :
  NoDup (JsMap.keys es) ->
  let r := listSystemPresence P now0 now now' es in
  Z.of_nat (List.length (snd r)) = JsMap.size (fst r)
  /\ JsMap.size (fst r) <= MAX_ENTRIES + 1
  /\ NoDup (JsMap.keys (fst r)).
Proof.
  intros Hnd r. split; [|split].
  - subst r. unfold listSystemPresence. cbn [fst snd].
    rewrite (Permutation_length (sortBy_Permutation _ _)).
    unfold JsMap.values, JsMap.size. now rewrite length_map.
  - subst r. unfold listSystemPresence. cbn [fst].
    etransitivity; [apply touchSelfPresence_size|].
    assert (Hp : NoDup (JsMap.keys (pruneExpired now (ensureSelfPresence P now0 es)))).
    { apply NoDup_keys_filter. now apply ensureSelfPresence_NoDup. }
    rewrite (enforceMax_size _ Hp). lia.
  - now apply listSystemPresence_NoDup.
Qed.

(** X3: while the registry holds no more than [MAX_ENTRIES] entries, a
    listing loses no entry that is not older than [TTL_MS]: each one is
    still stored under its key and is in the list returned, the gateway's
    own with its timestamp renewed; an entry that is older is gone from
    both, unless it is the gateway's own. *)
Theorem listSystemPresence_keeps_fresh (P : Platform) (now0 now now' : Z)
    (es : JsMap.t SystemPresence) (k : string) (e : SystemPresence) :
  let es0 := ensureSelfPresence P now0 es in
  NoDup (JsMap.keys es) ->
  JsMap.size es0 <= MAX_ENTRIES ->
  JsMap.get k es0 = Some e ->
  let r := listSystemPresence P now0 now now' es in
  let e' := if String.eqb k (selfKey P) then withTs e now' else e in
  (now - ts e <= TTL_MS -> JsMap.get k (fst r) = Some e' /\ In e' (snd r))
  /\ (TTL_MS < now - ts e -> k <> selfKey P -> JsMap.get k (fst r) = None).
Proof.
  intros es0 Hnd Hsize Hget r e'. split.
  - intros Hfresh. now apply listSystemPresence_get_fresh.
  - intros Hold Hne. subst r. unfold listSystemPresence. cbn [fst]. fold es0.
    rewrite touchSelfPresence_get_other by exact Hne.
    apply get_None_keys. intros Hin.
    assert (Hnd0 : NoDup (JsMap.keys es0)) by now apply ensureSelfPresence_NoDup.
    apply list_elem_of_In in Hin. unfold JsMap.keys in Hin. apply in_map_iff in Hin.
    destruct Hin as ([k' e0] & Hk & Hin). simpl in Hk. subst k'.
    apply enforceMax_In in Hin.
    pose proof (pruneExpired_In _ _ _ Hin) as Hage. simpl in Hage.
    unfold pruneExpired in Hin. apply filter_In in Hin. destruct Hin as [Hin _].
    apply (In_get _ _ _ Hnd0) in Hin. rewrite Hget in Hin. injection Hin as <-. lia.
Qed.

Lemma findAddress_sound (l : list NetAddr) (a : string) :
  findAddress l = Some a ->
  exists n, In n l /\ family n = "IPv4" /\ internal n = false /\ address n = a
            /\ truthy a = true.
Proof.
  unfold findAddress. destruct (List.find isExternalIPv4 l) as [n|] eqn:E; [|discriminate].
  apply find_some in E. destruct E as [Hin Hn].
  destruct (truthy (address n)) eqn:T; [|discriminate].
  intros [= <-]. exists n. unfold isExternalIPv4 in Hn.
  apply andb_true_iff in Hn. destruct Hn as [Hf Hi].
  apply String.eqb_eq in Hf. apply negb_true_iff in Hi. auto.
Qed.

Lemma firstAddress_sound (ls : list (list NetAddr)) (a : string) :
  firstAddress ls = Some a -> exists l, In l ls /\ findAddress l = Some a.
Proof.
  induction ls as [|l ls IH]; simpl; [discriminate|].
  destruct (findAddress l) as [a'|] eqn:E.
  - intros [= <-]. exists l. auto.
  - intros H. destruct (IH H) as (l' & Hin & Hl'). exists l'. auto.
Qed.

Lemma firstAddress_None (ls : list (list NetAddr)) :
  firstAddress ls = None <-> forall l, In l ls -> findAddress l = None.
Proof.
  induction ls as [|l ls IH]; simpl.
  - split; [intros _ l []|reflexivity].
  - destruct (findAddress l) as [a|] eqn:E.
    + split; [discriminate|]. intros H. specialize (H l (or_introl eq_refl)). congruence.
    + rewrite IH. split.
      * intros H l' [<-|Hin]; auto.
      * intros H l' Hin. apply H. now right.
Qed.

Lemma firstAddress_first (before : list (list NetAddr)) (l : list NetAddr)
    (after : list (list NetAddr)) (a : string) :
  (forall l', In l' before -> findAddress l' = None) ->
  findAddress l = Some a ->
  firstAddress (before ++ l :: after) = Some a.
Proof.
  intros Hbefore Hl. induction before as [|l0 before IH]; simpl.
  - now rewrite Hl.
  - rewrite (Hbefore l0) by now left. apply IH. intros l' Hin. apply Hbefore. now right.
Qed.

(** X5: the address the gateway advertises for itself is the one of an
    IPv4 interface address that is not internal, taken from [en0] when it
    has one, else from [eth0], else from the first interface, in the order
    [os.networkInterfaces()] lists them, that has one; when no interface
    has one it is the host name.  An interface has one when its first
    address that is IPv4 and not internal is not the empty string. *)
Theorem resolvePrimaryIPv4_prefers_en0 (P : Platform) :
  let nets := os_networkInterfaces P in
  let addr name := findAddress (orElse (assoc name nets) []) in
  (forall a, addr "en0" = Some a -> resolvePrimaryIPv4 P = a)
  /\ (forall a, addr "en0" = None -> addr "eth0" = Some a -> resolvePrimaryIPv4 P = a)
  /\ (forall before name l after a,
        addr "en0" = None -> addr "eth0" = None ->
        nets = before ++ (name, l) :: after ->
        (forall name' l', In (name', l') before -> findAddress l' = None) ->
        findAddress l = Some a ->
        resolvePrimaryIPv4 P = a)
  /\ ((forall name l, In (name, l) nets -> findAddress l = None) ->
      resolvePrimaryIPv4 P = os_hostname P)
  /\ (resolvePrimaryIPv4 P = os_hostname P
      \/ exists name l n,
           In (name, l) nets /\ In n l /\ family n = "IPv4" /\ internal n = false
           /\ address n = resolvePrimaryIPv4 P /\ truthy (address n) = true).
Proof.
  cbv zeta. unfold resolvePrimaryIPv4, pick. cbn [List.map firstAddress].
  split; [|split; [|split; [|split]]].
  - intros a ->. reflexivity.
  - intros a -> ->. reflexivity.
  - intros before name l after a -> -> Hnets Hbefore Hl.
    rewrite Hnets, List.map_app. cbn [List.map snd].
    rewrite (firstAddress_first _ l _ a); [reflexivity| |exact Hl].
    intros l' Hin. apply in_map_iff in Hin. destruct Hin as ([name' l0] & <- & Hin).
    eapply Hbefore. exact Hin.
  - intros Hnone.
    assert (Hof : forall name, findAddress (orElse (assoc name (os_networkInterfaces P)) []) = None).
    { intros name. destruct (assoc name (os_networkInterfaces P)) as [l|] eqn:E; [|reflexivity].
      apply assoc_In in E. simpl. eapply Hnone. exact E. }
    rewrite !Hof.
    assert (Hall : firstAddress (List.map snd (os_networkInterfaces P)) = None).
    { apply firstAddress_None. intros l Hin. apply in_map_iff in Hin.
      destruct Hin as ([name l'] & <- & Hin). eapply Hnone. exact Hin. }
    rewrite Hall. reflexivity.
  - assert (Hname : forall name a,
              findAddress (orElse (assoc name (os_networkInterfaces P)) []) = Some a ->
              exists name l n,
                In (name, l) (os_networkInterfaces P) /\ In n l /\ family n = "IPv4"
                /\ internal n = false /\ address n = a /\ truthy (address n) = true).
    { intros name a H.
      destruct (assoc name (os_networkInterfaces P)) as [l|] eqn:E; [|discriminate].
      apply assoc_In in E. simpl in H. apply findAddress_sound in H.
      destruct H as (n & Hin & Hf & Hi & Ha & Ht).
      exists name, l, n. subst a. auto 10. }
    destruct (findAddress (orElse (assoc "en0" (os_networkInterfaces P)) [])) as [a|] eqn:E0.
    { right. simpl. now apply (Hname "en0"). }
    destruct (findAddress (orElse (assoc "eth0" (os_networkInterfaces P)) [])) as [a|] eqn:E1.
    { right. simpl. now apply (Hname "eth0"). }
    destruct (firstAddress (List.map snd (os_networkInterfaces P))) as [a|] eqn:E2;
      [|now left].
    right. simpl. apply firstAddress_sound in E2. destruct E2 as (l & Hin & Hl).
    apply in_map_iff in Hin. destruct Hin as ([name l'] & <- & Hin).
    apply findAddress_sound in Hl. destruct Hl as (n & Hn & Hf & Hi & Ha & Ht).
    exists name, l', n. subst a. auto 10.
Qed.

(** On a host whose [eth0] has no IPv4 address the gateway advertises the
    address of [wlan0], the first interface in the list that has one. *)
Example resolvePrimaryIPv4_falls_back :
  findAddress (orElse (assoc "en0" (os_networkInterfaces wifiHost)) []) = None
  /\ findAddress (orElse (assoc "eth0" (os_networkInterfaces wifiHost)) []) = None
  /\ resolvePrimaryIPv4 wifiHost = "192.168.1.7".
Proof. vm_compute. repeat split. Qed.

(* ===================================================================== *)
(** ** The gateway client: reconnecting, stopping, requests *)
(* ===================================================================== *)

Lemma fold_reject_effects (msg : string) (l : list (string * bool))
    (c : Client.GatewayClient) :
  Client.effects
    (List.fold_left (fun c kv => Client.emit (Client.Reject (fst kv) (JStr msg)) c) l c)
  = Client.effects c ++ List.map (fun kv => Client.Reject (fst kv) (JStr msg)) l.
Proof.
  revert c. induction l as [|kv l IH]; intros c; simpl; [now rewrite app_nil_r|].
  rewrite IH. cbn [Client.effects Client.emit]. now rewrite <- app_assoc.
Qed.

Lemma flushPendingErrors_effects (msg : string) (c : Client.GatewayClient) :
  Client.effects (Client.flushPendingErrors msg c)
  = Client.effects c
    ++ List.map (fun kv => Client.Reject (fst kv) (JStr msg)) (Client.pending c).
Proof.
  unfold Client.flushPendingErrors. cbn [Client.effects Client.setPending].
  apply fold_reject_effects.
Qed.

Lemma flushPendingErrors_fields (msg : string) (c : Client.GatewayClient) :
  let c' := Client.flushPendingErrors msg c in
  Client.opts c' = Client.opts c /\ Client.ws c' = Client.ws c
  /\ Client.backoffMs c' = Client.backoffMs c /\ Client.closed c' = Client.closed c
  /\ Client.lastSeq c' = Client.lastSeq c /\ Client.pending c' = [].
Proof.
  unfold Client.flushPendingErrors.
  cbn [Client.opts Client.ws Client.backoffMs Client.closed Client.lastSeq
       Client.pending Client.setPending].
  generalize (Client.pending c). intros l. revert c.
  induction l as [|kv l IH]; intros c; simpl; [repeat split|].
  destruct (IH (Client.emit (Client.Reject (fst kv) (JStr msg)) c))
    as (H1 & H2 & H3 & H4 & H5 & H6).
  rewrite H1, H2, H3, H4, H5. repeat split.
Qed.

(** The client after [n] [close] events of its socket. *)
Lemma closes_backoff (n : nat) (code : Z) (reason : string) (c : Client.GatewayClient) :
  Client.closed c = false -> 0 < Client.backoffMs c <= 30000 ->
  let c' := Nat.iter n (fun c => fst (Client.onWsClose code reason c)) c in
  Client.closed c' = false
  /\ Client.backoffMs c' = Z.min (Client.backoffMs c * 2 ^ Z.of_nat n) 30000.
Proof.
  intros Hc Hb. induction n as [|n IH].
  - simpl. split; [exact Hc|]. lia.
  - rewrite Nat.iter_succ. cbv zeta in IH |- *.
    set (cn := Nat.iter n _ c) in *. destruct IH as [IHc IHb].
    unfold Client.onWsClose. cbv zeta. cbn [fst].
    destruct (flushPendingErrors_fields
                ("gateway closed (" +:+ pretty code +:+ "): " +:+ reason)
                (Client.setWs false cn)) as (_ & _ & Hbo & Hcl & _).
    cbv zeta in Hbo, Hcl. cbn [Client.closed Client.backoffMs Client.setWs] in Hbo, Hcl.
    unfold Client.scheduleReconnect. rewrite Hcl, IHc. cbv zeta.
    cbn [fst Client.closed Client.backoffMs Client.setBackoffMs].
    rewrite Hcl, Hbo, IHc, IHb. split; [reflexivity|].
    rewrite Nat2Z.inj_succ, Z.pow_succ_r by lia.
    assert (0 < 2 ^ Z.of_nat n) by (apply Z.pow_pos_nonneg; lia).
    nia.
Qed.

(** X21: while the client is not stopped, every [close] of its socket
    rejects the pending requests and schedules one reconnect; the delays
    double from the current backoff and stay at 30 seconds once they reach
    it.  A [hello-ok] puts the backoff back to one second. *)
Theorem reconnect_backoff (n : nat) (code : Z) (reason : string)
    (c : Client.GatewayClient) :
  Client.closed c = false -> 0 < Client.backoffMs c <= 30000 ->
  let cn := Nat.iter n (fun c => fst (Client.onWsClose code reason c)) c in
  let r := Client.onWsClose code reason cn in
  List.filter (fun o => match o with Client.CallOnClose _ _ => false | _ => true end) (snd r)
  = [Client.StartAfter (Z.min (Client.backoffMs c * 2 ^ Z.of_nat n) 30000)]
  /\ Client.effects (fst r)
     = Client.effects cn
       ++ List.map
            (fun kv =>
               Client.Reject (fst kv)
                 (JStr ("gateway closed (" +:+ pretty code +:+ "): " +:+ reason)))
            (Client.pending cn)
  /\ Client.pending (fst r) = []
  /\ Client.ws (fst r) = false
  /\ forall hello, Client.typeIs "hello-ok" hello = true ->
       Client.backoffMs (Client.handleMessage (Some hello) (fst r)) = 1000.
Proof.
  intros Hc Hb cn r.
  destruct (closes_backoff n code reason c Hc Hb) as [Hcn Hbn]. fold cn in Hcn, Hbn.
  subst r. unfold Client.onWsClose. cbv zeta. cbn [fst snd].
  set (msg := "gateway closed (" +:+ pretty code +:+ "): " +:+ reason).
  destruct (flushPendingErrors_fields msg (Client.setWs false cn))
    as (Ho & Hw & Hbo & Hcl & _ & Hp).
  cbv zeta in Ho, Hw, Hbo, Hcl, Hp.
  cbn [Client.closed Client.backoffMs Client.setWs Client.ws Client.opts] in Ho, Hw, Hbo, Hcl.
  unfold Client.scheduleReconnect. rewrite Hcl, Hcn. cbv zeta. cbn [fst snd].
  rewrite Hbo, Hbn.
  cbn [Client.pending Client.ws Client.setBackoffMs].
  rewrite Hp, Hw. split; [|split; [|split; [reflexivity|split; [reflexivity|]]]].
  - cbn [List.app List.filter]. now destruct (Client.onClose _).
  - cbn [Client.effects Client.setBackoffMs]. now rewrite flushPendingErrors_effects.
  - intros hello Hty. unfold Client.handleMessage. rewrite Hty.
    unfold Client.emitIf. now destruct (Client.onHelloOk _).
Qed.

(** X22: [stop] rejects every pending request once, in the order the
    requests were made, and leaves the client stopped for good: [start]
    opens no socket, a [close] event of the old socket schedules no
    reconnect, and [request] fails as not connected. *)
Theorem stop_is_final (o : Client.ClientConfig) (c : Client.GatewayClient) :
  let c' := fst (Client.stop c) in
  Client.effects c'
  = Client.effects c
    ++ List.map (fun kv => Client.Reject (fst kv) (JStr "gateway client stopped"))
         (Client.pending c)
  /\ Client.pending c' = []
  /\ snd (Client.stop c) = (if Client.ws c then [Client.WsCloseNoCode] else [])
  /\ Client.start o c' = (c', [])
  /\ (forall code reason,
        let r := Client.onWsClose code reason c' in
        Client.effects (fst r) = Client.effects c'
        /\ Client.closed (fst r) = true
        /\ Client.backoffMs (fst r) = Client.backoffMs c
        /\ forall op, In op (snd r) -> op = Client.CallOnClose code reason)
  /\ (forall open id method params expectFinal,
        Client.request open id method params expectFinal c' = inr Client.NotConnected).
Proof.
  cbv zeta. unfold Client.stop. cbn [fst snd].
  set (msg := "gateway client stopped").
  set (c0 := Client.setWs false (Client.setClosed true c)).
  destruct (flushPendingErrors_fields msg c0) as (Ho & Hw & Hbo & Hcl & Hls & Hp).
  cbv zeta in Ho, Hw, Hbo, Hcl, Hls, Hp.
  split; [rewrite flushPendingErrors_effects; reflexivity|].
  split; [exact Hp|]. split; [reflexivity|].
  split; [unfold Client.start; now rewrite Hcl|].
  split.
  - intros code reason. unfold Client.onWsClose. cbv zeta. cbn [fst snd].
    set (msg' := "gateway closed (" +:+ pretty code +:+ "): " +:+ reason).
    set (c1 := Client.setWs false (Client.flushPendingErrors msg c0)).
    destruct (flushPendingErrors_fields msg' c1) as (Ho' & Hw' & Hbo' & Hcl' & _ & _).
    cbv zeta in Ho', Hw', Hbo', Hcl'.
    assert (Hc1 : Client.closed c1 = true) by (subst c1; cbn; exact Hcl).
    unfold Client.scheduleReconnect. rewrite Hcl', Hc1. cbn [fst snd List.app].
    rewrite flushPendingErrors_effects. subst c1.
    cbn [Client.effects Client.pending Client.setWs]. rewrite Hp. cbn [List.map].
    rewrite app_nil_r. split; [reflexivity|]. split; [now rewrite Hcl'|].
    split; [rewrite Hbo'; cbn [Client.backoffMs Client.setWs]; now rewrite Hbo|].
    intros op. destruct (Client.onClose _); cbn; intuition.
  - intros open id method params expectFinal. unfold Client.request. now rewrite Hw.
Qed.

Lemma truthy_eq (s : string) : truthy s = true <-> s <> "".
Proof. destruct s; simpl; split; congruence. Qed.

(** X23: [request] fails as not connected unless the client has a socket
    that is open, and as an invalid frame only for an empty id or method;
    otherwise it registers the request as pending under its id, leaving the
    other pending requests alone, and sends one frame, and that frame is
    one the server's [validateRequestFrame] accepts, with the same id,
    method and params. *)
Theorem request_sends_valid_frame (open : bool) (id method : string)
    (params : option json) (expectFinal : bool) (c : Client.GatewayClient) :
  match Client.request open id method params expectFinal c with
  | inr Client.NotConnected => Client.ws c && open = false
  | inr Client.InvalidRequestFrame =>
      Client.ws c && open = true /\ (id = "" \/ method = "")
  | inl (c', ops) =>
      Client.ws c && open = true /\ id <> "" /\ method <> ""
      /\ ops = [Client.WsSend (Client.requestFrame id method params)]
      /\ validateRequestFrame (Client.requestFrame id method params)
         = Some {| req_id := id; req_method := method; req_params := params |}
      /\ JsMap.get id (Client.pending c') = Some expectFinal
      /\ (forall id', id' <> id ->
            JsMap.get id' (Client.pending c') = JsMap.get id' (Client.pending c))
      /\ Client.effects c' = Client.effects c
  end.
Proof.
  unfold Client.request.
  destruct (Client.ws c && open) eqn:E; cbn [negb]; [|reflexivity].
  cbv zeta.
  assert (Hv : validateRequestFrame (Client.requestFrame id method params)
               = if truthy id && truthy method
                 then Some {| req_id := id; req_method := method; req_params := params |}
                 else None).
  { unfold validateRequestFrame, Client.requestFrame, field.
    destruct params as [v|]; cbn; destruct (truthy id), (truthy method); reflexivity. }
  rewrite Hv.
  destruct (truthy id) eqn:Ti; destruct (truthy method) eqn:Tm; cbn [andb].
  - apply truthy_eq in Ti, Tm. repeat split; trivial.
    + apply get_set_eq.
    + intros id' Hne. apply get_set_ne. congruence.
  - split; [reflexivity|]. right. destruct method; [reflexivity|discriminate].
  - split; [reflexivity|]. left. destruct id; [reflexivity|discriminate].
  - split; [reflexivity|]. left. destruct id; [reflexivity|discriminate].
Qed.

Lemma prop_field_skip (k k' : string) (o : option json) (rest : list (string * json)) :
  String.eqb k k' = false -> assoc k (field k' o ++ rest) = assoc k rest.
Proof. intros H. destruct o; simpl; [now rewrite H|reflexivity]. Qed.

Lemma prop_field_hit (k : string) (o : option json) :
  assoc k (field k o) = o.
Proof. destruct o; simpl; [now rewrite String.eqb_refl|reflexivity]. Qed.

(** Whether the payload of a [res] is an acknowledgement the client skips. *)
Lemma res_frame_props (id : json) (ok : bool) (payload : option json)
    (error : option ErrorShape) :
  let f := frameJson (FRes id ok payload error) in
  Client.typeIs "hello-ok" f = false /\ Client.typeIs "hello-error" f = false
  /\ Client.typeIs "event" f = false /\ Client.typeIs "res" f = true
  /\ prop "id" f = Some id /\ prop "ok" f = Some (JBool ok)
  /\ prop "payload" f = payload
  /\ prop "error" f = option_map errorJson error.
Proof.
  cbv zeta. unfold frameJson, Client.typeIs, prop.
  destruct payload, error; cbn; repeat split.
Qed.

Lemma handleMessage_res (c : Client.GatewayClient) (id : string) (ok : bool)
    (payload : option json) (error : option ErrorShape) :
  Client.handleMessage (Some (frameJson (FRes (JStr id) ok payload error))) c
  = match JsMap.get id (Client.pending c) with
    | None => c
    | Some expectFinal =>
        if expectFinal && acceptedAck payload then c
        else
          Client.emit
            (if ok then Client.Resolve id payload
             else Client.Reject id
                    (JStr (match error with
                           | Some e => message e
                           | None => "unknown error"
                           end)))
            (Client.setPending (JsMap.delete id (Client.pending c)) c)
    end.
Proof.
  destruct (res_frame_props (JStr id) ok payload error)
    as (T1 & T2 & T3 & T4 & Pid & Pok & Ppay & Perr).
  cbv zeta in T1, T2, T3, T4, Pid, Pok, Ppay, Perr.
  unfold Client.handleMessage. rewrite T1, T2, T3, T4.
  unfold Client.handleRes. rewrite Pid, Ppay, Pok, Perr.
  destruct (JsMap.get id (Client.pending c)) as [expectFinal|]; [|reflexivity].
  assert (Hacc : match prop "status" (nullish payload JNull) with
                 | Some (JStr st) => String.eqb st "accepted"
                 | _ => false
                 end = acceptedAck payload).
  { destruct payload as [[]|]; reflexivity. }
  rewrite Hacc. destruct (expectFinal && acceptedAck payload); [reflexivity|].
  destruct ok; cbn [Client.truthyJson]; [reflexivity|].
  destruct error as [e|]; reflexivity.
Qed.

(** X24: a [res] frame of the server, decoded by the client, settles the
    pending request with that id once: the promise is resolved with the
    payload when [ok] holds and rejected with the message of the error
    otherwise, and the request is pending no longer, so that a second
    [res] with the same id changes nothing.  A request made with
    [expectFinal] stays pending over a [res] whose payload has the status
    [accepted].  A [res] whose id is not pending changes nothing. *)
Theorem res_settles_pending_once (c : Client.GatewayClient) (id : string) (ok : bool)
    (payload : option json) (error : option ErrorShape) :
  NoDup (JsMap.keys (Client.pending c)) ->
  let res := Some (frameJson (FRes (JStr id) ok payload error)) in
  let c' := Client.handleMessage res c in
  match JsMap.get id (Client.pending c) with
  | None => c' = c
  | Some expectFinal =>
      if expectFinal && acceptedAck payload then c' = c
      else
        Client.effects c'
        = Client.effects c
          ++ [if ok then Client.Resolve id payload
              else Client.Reject id
                     (JStr (match error with
                            | Some e => message e
                            | None => "unknown error"
                            end))]
        /\ JsMap.get id (Client.pending c') = None
        /\ (forall id', id' <> id ->
              JsMap.get id' (Client.pending c') = JsMap.get id' (Client.pending c))
        /\ Client.handleMessage res c' = c'
  end.
Proof.
  intros Hnd res c'. subst c' res. rewrite handleMessage_res.
  destruct (JsMap.get id (Client.pending c)) as [expectFinal|] eqn:Hget; [|reflexivity].
  destruct (expectFinal && acceptedAck payload); [reflexivity|].
  assert (Hgone : JsMap.get id (JsMap.delete id (Client.pending c)) = None)
    by now apply get_delete_eq.
  cbn [Client.effects Client.emit Client.pending Client.setPending].
  repeat split; trivial.
  - intros id' Hne. apply get_delete_ne. congruence.
  - rewrite handleMessage_res. cbn [Client.pending Client.emit Client.setPending].
    now rewrite Hgone.
Qed.

(** X25: the [hello] the client sends passes the server's [validateHello]
    exactly when the protocol bounds are at least 1 and none of the client
    name, version, platform, mode and instance id it carries is the empty
    string; the server then reads from it what the options say, the token
    only when it is not empty. *)
Theorem client_hello_is_valid (plat : string) (o : Client.ClientConfig) :
  let lo := orElse (Client.minProtocol o) PROTOCOL_VERSION in
  let hi := orElse (Client.maxProtocol o) PROTOCOL_VERSION in
  let name := orElse (Client.clientName o) "webchat-backend" in
  let ver := orElse (Client.clientVersion o) "dev" in
  let pf := orElse (Client.platform o) plat in
  let md := orElse (Client.mode o) "backend" in
  (1 <= lo /\ 1 <= hi /\ name <> "" /\ ver <> "" /\ pf <> "" /\ md <> ""
   /\ Client.instanceId o <> Some ""
   <-> validateHello (Client.helloOf plat o) <> None)
  /\ forall h, validateHello (Client.helloOf plat o) = Some h ->
       h = {| minProtocol := lo; maxProtocol := hi; client_name := name;
              client_version := ver; client_platform := pf; client_mode := md;
              client_instanceId := Client.instanceId o;
              auth_token :=
                match Client.token o with
                | Some t => if truthy t then Some t else None
                | None => None
                end |}.
Proof.
  cbv zeta. destruct o as [u tok iid cn cv pf md lo hi].
  cbn [Client.minProtocol Client.maxProtocol Client.clientName Client.clientVersion
       Client.platform Client.mode Client.instanceId Client.token].
  set (lo' := orElse lo PROTOCOL_VERSION). set (hi' := orElse hi PROTOCOL_VERSION).
  set (name := orElse cn "webchat-backend"). set (ver := orElse cv "dev").
  set (pf' := orElse pf plat). set (md' := orElse md "backend").
  assert (Hv : validateHello
                 (Client.helloOf plat
                    {| Client.url := u; Client.token := tok; Client.instanceId := iid;
                       Client.clientName := cn; Client.clientVersion := cv;
                       Client.platform := pf; Client.mode := md;
                       Client.minProtocol := lo; Client.maxProtocol := hi |})
               = if (1 <=? lo') && (1 <=? hi') && truthy name && truthy ver && truthy pf'
                    && truthy md'
                    && match iid with Some i => truthy i | None => true end
                 then Some {| minProtocol := lo'; maxProtocol := hi'; client_name := name;
                              client_version := ver; client_platform := pf';
                              client_mode := md'; client_instanceId := iid;
                              auth_token :=
                                match tok with
                                | Some t => if truthy t then Some t else None
                                | None => None
                                end |}
                 else None).
  { unfold validateHello, Client.helloOf.
    cbn [Client.minProtocol Client.maxProtocol Client.clientName Client.clientVersion
         Client.platform Client.mode Client.instanceId Client.token].
    fold lo' hi' name ver pf' md'.
    destruct tok as [t|]; [destruct (truthy t) eqn:Tt|];
      destruct iid as [i|]; cbn;
      destruct (1 <=? lo'), (1 <=? hi'), (truthy name), (truthy ver), (truthy pf'),
        (truthy md'); cbn; try reflexivity;
      destruct (truthy i); reflexivity. }
  rewrite Hv. split.
  - rewrite <- !truthy_eq.
    destruct (1 <=? lo') eqn:E1; destruct (1 <=? hi') eqn:E2;
      rewrite ?Z.leb_le, ?Z.leb_gt in *;
      destruct (truthy name), (truthy ver), (truthy pf'), (truthy md'); cbn [andb];
      try (split; [intros (? & ? & ? & ? & ? & ? & ?); (lia || discriminate)
                  |intros H; now contradiction H]).
    destruct iid as [i|].
    + destruct (truthy i) eqn:Ti.
      * split; [discriminate|]. intros _. repeat split; trivial.
        intros [= ->]. discriminate.
      * split; [|intros H; now contradiction H].
        intros (_ & _ & _ & _ & _ & _ & Hi). exfalso. apply Hi.
        destruct i; [reflexivity|discriminate].
    + split; [discriminate|]. intros _. repeat split; trivial. discriminate.
  - intros h. destruct (_ && _); [|discriminate]. now intros [= <-].
Qed.

(* ===================================================================== *)
(** ** The handshake *)
(* ===================================================================== *)

Lemma onMessage_hello (P : Platform) (s : State) (connId : string) (c : Conn)
    (parsed : json) (clock : nat -> Z) (uuid : string) :
  conns s !! connId = Some c -> closed c = false -> client c = None ->
  onMessage P connId (Some parsed) clock uuid s = handleHello P connId parsed clock s.
Proof.
  intros Hc Hclosed Hclient. unfold onMessage. rewrite Hc, Hclosed, Hclient.
  reflexivity.
Qed.

Lemma sockClose_twice (c c' : Z) (r r' : option string) (k : Socket) :
  sockClose c' r' (sockClose c r k) = sockClose c r k.
Proof.
  unfold sockClose. destruct (readyState k) eqn:E; cbn [readyState]; rewrite ?E;
    reflexivity.
Qed.

Lemma setConns_twice (m m' : gmap string Conn) (s : State) :
  setConns m (setConns m' s) = setConns m s.
Proof. reflexivity. Qed.

Lemma rejectHello_eq (s : State) (connId : string) (c : Conn) (reason : string)
    (expected : option Z) (code : Z) (closeReason : string) :
  conns s !! connId = Some c -> closed c = false -> client c = None ->
  rejectHello connId reason expected code closeReason s
  = setConns
      (<[connId :=
           {| socket := sockClose code (Some closeReason)
                          (sockSend (FHelloError reason expected) (socket c));
              client := None; closed := true |}]> (conns s)) s.
Proof.
  intros Hc Hclosed Hclient. unfold rejectHello, send, withSocket, close. cbv zeta.
  cbn [conns setConns].
  rewrite !lookup_alter_eq, Hc. cbn [fmap option_fmap option_map onSocket closed client socket].
  rewrite Hclosed, Hclient. cbn [conns setConns].
  rewrite sockClose_twice, !setConns_twice. f_equal.
  apply map_eq. intros i. destruct (decide (connId = i)) as [->|Hne].
  - now rewrite !lookup_insert_eq.
  - rewrite !lookup_insert_ne by congruence.
    rewrite !lookup_alter_ne by congruence. reflexivity.
Qed.

(** X7: a [hello] that fails the schema, names a protocol range that does
    not hold version 1, or fails the token check, is answered with one
    [hello-error] frame, after which the server closes the socket with the
    code of the cause (1008, 1002, 1008) and marks the connection closed.
    Nothing else changes: the connection is not added to the clients, the
    presence registry and its version are untouched, and no port is
    called. *)
Theorem hello_rejected (P : Platform) (s : State) (connId : string) (c : Conn)
    (parsed : json) (clock : nat -> Z) (uuid : string) :
  conns s !! connId = Some c -> closed c = false -> client c = None ->
  let verdict :=
    match validateHello parsed with
    | None =>
        Some ("invalid hello: " +:+ helloErrorsText P parsed, None, 1008, "invalid hello")
    | Some hello =>
        if (maxProtocol hello <? PROTOCOL_VERSION) || (PROTOCOL_VERSION <? minProtocol hello)
        then Some ("protocol mismatch", Some PROTOCOL_VERSION, 1002, "protocol mismatch")
        else if unauthorized P hello
        then Some ("unauthorized", None, 1008, "unauthorized")
        else None
    end in
  forall reason expected code closeReason,
    verdict = Some (reason, expected, code, closeReason) ->
    step P s (Message connId (Some parsed) clock uuid)
    = setConns
        (<[connId :=
             {| socket := sockClose code (Some closeReason)
                            (sockSend (FHelloError reason expected) (socket c));
                client := None; closed := true |}]> (conns s)) s.
Proof.
  intros Hc Hclosed Hclient verdict reason expected code closeReason Hv.
  cbn [step]. rewrite (onMessage_hello P s connId c) by assumption.
  unfold handleHello. subst verdict.
  destruct (validateHello parsed) as [hello|].
  - destruct ((maxProtocol hello <? PROTOCOL_VERSION) || (PROTOCOL_VERSION <? minProtocol hello)).
    + injection Hv as <- <- <- <-. now apply rejectHello_eq.
    + destruct (unauthorized P hello); [|discriminate].
      injection Hv as <- <- <- <-. now apply rejectHello_eq.
  - injection Hv as <- <- <- <-. now apply rejectHello_eq.
Qed.

Lemma handleHello_accepted (P : Platform) (s : State) (connId : string)
    (parsed : json) (hello : Hello) (clock : nat -> Z) :
  validateHello parsed = Some hello ->
  minProtocol hello <= PROTOCOL_VERSION <= maxProtocol hello ->
  unauthorized P hello = false ->
  let r := helloPresence P connId hello clock (entries s) in
  handleHello P connId parsed clock s
  = mkState (seq s) (presenceVersion s + 1) (healthVersion s) (dedupe s) (fst r)
      (systemEvents s) (addClient connId (clients s))
      (alter (fun c => {| socket := socket c; client := Some hello; closed := closed c |})
         connId (conns s))
      (suspended s
       ++ [AwaitHelloHealth connId
             {| snap_presence := snd r; snap_health := JObj [];
                snap_stateVersion :=
                  {| sv_presence := presenceVersion s + 1;
                     sv_health := healthVersion s |};
                snap_uptimeMs := uptimeMs P |}])
      (portCalls s ++ [GetHealthSnapshot]) (logged s) (stopped s).
Proof.
  intros Hv [Hlo Hhi] Hauth. unfold handleHello. rewrite Hv.
  assert (E : (maxProtocol hello <? PROTOCOL_VERSION) || (PROTOCOL_VERSION <? minProtocol hello)
              = false).
  { apply orb_false_iff. split; apply Z.ltb_ge; lia. }
  rewrite E, Hauth. reflexivity.
Qed.

(** X8: a [hello] that passes the schema, the protocol check and the token
    check registers the connection as a client, upserts its presence entry,
    increments [presenceVersion] and asks for the health snapshot without
    writing a frame; when the snapshot arrives, [healthVersion] is
    incremented and one [hello-ok] is written, which carries protocol 1,
    the connection id, the presence list taken at the time of the [hello],
    the health snapshot, and both new versions. *)
Theorem handshake_completes (P : Platform) (s : State) (connId : string) (c : Conn)
    (parsed : json) (hello : Hello) (clock : nat -> Z) (uuid : string)
    (health : json) (now : Z) :
  conns s !! connId = Some c -> closed c = false -> client c = None ->
  validateHello parsed = Some hello ->
  minProtocol hello <= PROTOCOL_VERSION <= maxProtocol hello ->
  unauthorized P hello = false ->
  let r := helloPresence P connId hello clock (entries s) in
  let s1 := step P s (Message connId (Some parsed) clock uuid) in
  let s2 := step P s1 (Settle (List.length (suspended s)) (Value health) now) in
  (clients s1 = addClient connId (clients s)
   /\ conns s1 !! connId
      = Some {| socket := socket c; client := Some hello; closed := false |}
   /\ entries s1 = fst r
   /\ presenceVersion s1 = presenceVersion s + 1
   /\ healthVersion s1 = healthVersion s
   /\ seq s1 = seq s
   /\ portCalls s1 = portCalls s ++ [GetHealthSnapshot])
  /\ socketOf connId s2
     = Some (sockSend
               (FHelloOk
                  {| ok_protocol := 1;
                     ok_version := serverVersion P;
                     ok_commit := env_GIT_COMMIT P;
                     ok_host := os_hostname P;
                     ok_connId := connId;
                     ok_methods := METHODS;
                     ok_events := EVENTS;
                     ok_snapshot :=
                       {| snap_presence := snd r;
                          snap_health := health;
                          snap_stateVersion :=
                            {| sv_presence := presenceVersion s + 1;
                               sv_health := healthVersion s + 1 |};
                          snap_uptimeMs := uptimeMs P |};
                     ok_maxPayload := MAX_PAYLOAD_BYTES;
                     ok_maxBufferedBytes := MAX_BUFFERED_BYTES;
                     ok_tickIntervalMs := TICK_INTERVAL_MS |})
               (socket c))
  /\ healthVersion s2 = healthVersion s + 1
  /\ presenceVersion s2 = presenceVersion s + 1
  /\ clients s2 = addClient connId (clients s)
  /\ suspended s2 = suspended s
  /\ portCalls s2 = portCalls s ++ [GetHealthSnapshot].
Proof.
  intros Hc Hclosed Hclient Hv Hproto Hauth r s1 s2.
  assert (Hs1 : s1 = handleHello P connId parsed clock s).
  { subst s1. cbn [step]. now apply (onMessage_hello P s connId c). }
  rewrite (handleHello_accepted P s connId parsed hello clock Hv Hproto Hauth) in Hs1.
  fold r in Hs1.
  split.
  - rewrite Hs1. cbn [clients conns entries presenceVersion healthVersion seq portCalls].
    repeat split. rewrite lookup_alter_eq, Hc. cbn. now rewrite Hclosed.
  - set (frame := FHelloOk _).
    assert (Hs2 : s2 = mkState (seq s) (presenceVersion s + 1) (healthVersion s + 1)
                         (dedupe s) (fst r) (systemEvents s) (addClient connId (clients s))
                         (alter (onSocket (sockSend frame)) connId
                            (alter (fun c => {| socket := socket c; client := Some hello;
                                                closed := closed c |}) connId (conns s)))
                         (suspended s) (portCalls s ++ [GetHealthSnapshot])
                         (logged s) (stopped s)).
    { subst s2. cbn [step]. unfold resume. rewrite Hs1. cbn [suspended].
      rewrite list_lookup_middle by reflexivity.
      cbn [continue]. unfold send, withSocket, setConns, setHealthVersion, setSuspended.
      cbn [suspended seq presenceVersion healthVersion dedupe entries
           systemEvents clients conns portCalls logged stopped].
      rewrite delete_middle. now rewrite app_nil_r. }
    rewrite Hs2. unfold socketOf.
    cbn [clients conns entries presenceVersion healthVersion seq portCalls suspended].
    rewrite !lookup_alter_eq, Hc. cbn [fmap option_fmap option_map socket onSocket].
    repeat split.
Qed.

(** X9: when the health snapshot of a handshake fails, the connection is
    told nothing: no [hello-ok] and no [hello-error] is written and the
    socket stays open.  It is a client all the same: it stays in the
    clients set, where broadcasts reach it, and the handshake timer, which
    closes only connections without a client, leaves it alone. *)
Theorem hello_health_failure (P : Platform) (s : State) (connId : string) (c : Conn)
    (parsed : json) (hello : Hello) (clock : nat -> Z) (uuid : string)
    (err : string) (now : Z) :
  conns s !! connId = Some c -> closed c = false -> client c = None ->
  validateHello parsed = Some hello ->
  minProtocol hello <= PROTOCOL_VERSION <= maxProtocol hello ->
  unauthorized P hello = false ->
  let s1 := step P s (Message connId (Some parsed) clock uuid) in
  let s2 := step P s1 (Settle (List.length (suspended s)) (Threw err) now) in
  conns s2 !! connId = Some {| socket := socket c; client := Some hello; closed := false |}
  /\ (forall id, socketOf id s2 = socketOf id s)
  /\ clients s2 = addClient connId (clients s)
  /\ In connId (clients s2)
  /\ suspended s2 = suspended s
  /\ logged s2 = S (logged s)
  /\ step P s2 (HandshakeTimeout connId) = s2.
Proof.
  intros Hc Hclosed Hclient Hv Hproto Hauth s1 s2.
  assert (Hs1 : s1 = handleHello P connId parsed clock s).
  { subst s1. cbn [step]. now apply (onMessage_hello P s connId c). }
  rewrite (handleHello_accepted P s connId parsed hello clock Hv Hproto Hauth) in Hs1.
  assert (Hs2 : s2 = mkState (seq s) (presenceVersion s + 1) (healthVersion s) (dedupe s)
                       (fst (helloPresence P connId hello clock (entries s)))
                       (systemEvents s) (addClient connId (clients s))
                       (alter (fun c => {| socket := socket c; client := Some hello;
                                           closed := closed c |}) connId (conns s))
                       (suspended s) (portCalls s ++ [GetHealthSnapshot])
                       (S (logged s)) (stopped s)).
  { subst s2. cbn [step]. unfold resume. rewrite Hs1. cbn [suspended].
    rewrite list_lookup_middle by reflexivity.
    cbn [continue]. unfold logError, setLogged, setSuspended.
    cbn [suspended seq presenceVersion healthVersion dedupe entries
         systemEvents clients conns portCalls logged stopped].
    rewrite delete_middle. now rewrite app_nil_r. }
  assert (Hl : conns s2 !! connId
               = Some {| socket := socket c; client := Some hello; closed := false |}).
  { rewrite Hs2. cbn [conns]. rewrite lookup_alter_eq, Hc. cbn. now rewrite Hclosed. }
  split; [exact Hl|]. split; [|split; [|split; [|split; [|split]]]].
  - intros id. rewrite Hs2. unfold socketOf. cbn [conns].
    destruct (decide (connId = id)) as [->|Hne].
    + rewrite lookup_alter_eq. now destruct (conns s !! id).
    + now rewrite lookup_alter_ne by congruence.
  - now rewrite Hs2.
  - rewrite Hs2. cbn [clients]. unfold addClient.
    destruct (existsb (String.eqb connId) (clients s)) eqn:E.
    + apply existsb_exists in E. destruct E as (x & Hin & Hx).
      apply String.eqb_eq in Hx. now subst x.
    + apply in_or_app. right. now left.
  - now rewrite Hs2.
  - now rewrite Hs2.
  - cbn [step]. unfold onHandshakeTimeout. now rewrite Hl.
Qed.

Lemma size_set_le {V : Type} (k : string) (v : V) (m : JsMap.t V) :
  JsMap.size (JsMap.set k v m) <= JsMap.size m + 1.
Proof.
  unfold JsMap.size. induction m as [|[k' v'] m IH]; simpl; [lia|].
  destruct (String.eqb k k'); simpl in *; lia.
Qed.

Lemma ensureSelfPresence_nonempty (P : Platform) (now : Z) (es : JsMap.t SystemPresence) :
  es <> [] -> ensureSelfPresence P now es = es.
Proof. now destruct es. Qed.

Lemma set_nonempty {V : Type} (k : string) (v : V) (m : JsMap.t V) : JsMap.set k v m <> [].
Proof. destruct m as [|[k' v'] m]; simpl; [discriminate|]. now destruct (String.eqb k k'). Qed.

(** X10: the presence list taken for the [hello-ok] holds the entry of the
    connection itself, stored under its instance id (the connection id when
    it has none): reason [connect], the mode the client named, and as host
    and version those of the gateway.  This holds while the registry is
    below [MAX_ENTRIES] and the clock moves less than [TTL_MS] between the
    upsert and the listing. *)
Theorem hello_snapshot_lists_client (P : Platform) (connId : string) (hello : Hello)
    (clock : nat -> Z) (es : JsMap.t SystemPresence) :
  JsMap.size es < MAX_ENTRIES ->
  clock 3%nat - clock 1%nat <= TTL_MS ->
  let key := orStr (client_instanceId hello) connId in
  let r := helloPresence P connId hello clock es in
  exists e,
    JsMap.get key (fst r) = Some e /\ In e (snd r)
    /\ reason e = Some "connect"
    /\ mode e = Some (client_mode hello)
    /\ host e = Some (os_hostname P)
    /\ version e = Some (serverVersion P)
    /\ instanceId e = client_instanceId hello
    /\ ts e = if String.eqb key (selfKey P) then clock 4%nat else clock 1%nat.
Proof.
  intros Hsize Hclock key r. subst r. unfold helloPresence. fold key.
  set (up := upsertPresence P key (connectPatch P hello) (clock 0%nat) (clock 1%nat) es).
  assert (Hne : up <> []) by (subst up; unfold upsertPresence; apply set_nonempty).
  assert (Hup : exists m, JsMap.get key up = Some m /\ ts m = clock 1%nat
                          /\ reason m = Some "connect" /\ mode m = Some (client_mode hello)
                          /\ host m = Some (os_hostname P)
                          /\ version m = Some (serverVersion P)
                          /\ instanceId m = client_instanceId hello).
  { subst up. unfold upsertPresence. cbv zeta. eexists. split; [apply get_set_eq|].
    repeat split. }
  destruct Hup as (m & Hget & Hts & Hr & Hm & Hh & Hv & Hi).
  assert (Hsz : JsMap.size (ensureSelfPresence P (clock 2%nat) up) <= MAX_ENTRIES).
  { rewrite ensureSelfPresence_nonempty by exact Hne.
    subst up. unfold upsertPresence. cbv zeta.
    etransitivity; [apply size_set_le|].
    unfold ensureSelfPresence. destruct es as [|kv es'].
    - unfold initSelfPresence, JsMap.size, MAX_ENTRIES. simpl. lia.
    - unfold JsMap.size, MAX_ENTRIES in *. simpl in *. lia. }
  destruct (listSystemPresence_get_fresh P (clock 2%nat) (clock 3%nat) (clock 4%nat) up key m)
    as [Hg Hin].
  - exact Hsz.
  - now rewrite ensureSelfPresence_nonempty.
  - rewrite Hts. exact Hclock.
  - eexists. split; [exact Hg|]. split; [exact Hin|].
    destruct (String.eqb key (selfKey P)); cbn; auto 10.
Qed.

(* ===================================================================== *)
(** ** Who the server talks to *)
(* ===================================================================== *)

Lemma keepsShut_sockSend (f : Frame) : keepsShut (sockSend f).
Proof.
  intros k H. unfold sockSend. destruct (readyState k) eqn:E; cbn; congruence.
Qed.

Lemma keepsShut_sockClose (c : Z) (r : option string) : keepsShut (sockClose c r).
Proof.
  intros k H. unfold sockClose. destruct (readyState k) eqn:E; cbn; congruence.
Qed.

Lemma keepsShut_sockClose_result (c : Z) (r : option string) (k : Socket) :
  readyState (sockClose c r k) <> OPEN.
Proof. unfold sockClose. destruct (readyState k) eqn:E; cbn; congruence. Qed.

Lemma keepsShut_sockClosed : keepsShut sockClosed.
Proof. intros k H. discriminate. Qed.

Lemma keepsShut_sockBuffered (n : Z) : keepsShut (sockBuffered n).
Proof. intros k H. exact H. Qed.

Lemma keepsShut_deliver (d : bool) (f : Frame) : keepsShut (deliver d f).
Proof.
  intros k H. unfold deliver. cbv zeta.
  destruct (MAX_BUFFERED_BYTES <? bufferedAmount k); cbn [andb].
  - destruct d; [exact H|now apply keepsShut_sockClose].
  - now apply keepsShut_sockSend.
Qed.

Lemma quiet_outbound_sockClose (c : Z) (r : option string) (k : Socket) :
  outbound (sockClose c r k) = outbound k.
Proof. unfold sockClose. now destruct (readyState k). Qed.

Lemma HasClient_fields (id : string) (s s' : State) :
  conns s' = conns s -> HasClient id s -> HasClient id s'.
Proof. intros H [Hc]. split. now rewrite H. Qed.

Lemma HasClient_withSocket (id id' : string) (f : Socket -> Socket) (s : State) :
  HasClient id s -> HasClient id (withSocket id' f s).
Proof.
  intros [(c & Hc & Hcl)]. split. rewrite withSocket_lookup.
  destruct (decide (id' = id)) as [->|Hne].
  - rewrite Hc. cbn. eexists. split; [reflexivity|exact Hcl].
  - exists c. now split.
Qed.

Lemma HasClient_fold (id : string) (f : Socket -> Socket) (cs : list string) (s : State) :
  HasClient id s -> HasClient id (List.fold_left (fun s c => withSocket c f s) cs s).
Proof.
  revert s. induction cs as [|c cs IH]; intros s H; simpl; [exact H|].
  now apply IH, HasClient_withSocket.
Qed.

Lemma HasClient_close (id id' : string) (s : State) :
  HasClient id s -> HasClient id (close id' s).
Proof.
  intros H. unfold close.
  destruct (conns s !! id') as [c|] eqn:Hc; [|exact H].
  destruct (closed c); [exact H|].
  destruct H as [(c0 & Hc0 & Hcl)]. split. cbn [conns setConns].
  assert (Hconns : conns (match client c with
                          | Some _ => setClients (deleteClient id' (clients s)) s
                          | None => s
                          end) = conns s) by now destruct (client c).
  rewrite Hconns. destruct (decide (id' = id)) as [->|Hne].
  - rewrite lookup_insert_eq. eexists. split; [reflexivity|].
    cbn. rewrite Hc in Hc0. injection Hc0 as <-. exact Hcl.
  - rewrite lookup_insert_ne by exact Hne. exists c0. now split.
Qed.

Lemma Auth_fields (s s' : State) :
  clients s' = clients s -> conns s' = conns s -> suspended s' = suspended s ->
  Auth s -> Auth s'.
Proof.
  intros Hcl Hco Hsu [H1 H2 H3 H4 H5]. split; rewrite ?Hcl, ?Hco, ?Hsu; trivial.
  intros k Hk. apply (HasClient_fields _ s); [exact Hco|]. now apply H2.
Qed.

(** A socket operation on a connection that has a client, or one that
    writes no frame. *)
Lemma Auth_withSocket (id : string) (f : Socket -> Socket) (s : State) :
  keepsShut f ->
  HasClient id s \/ (forall k, outbound (f k) = outbound k) ->
  Auth s -> Auth (withSocket id f s).
Proof.
  intros Hf Hid [H1 H2 H3 H4 H5]. split.
  - intros id' Hin. destruct (H1 id' Hin) as (c & Hc & Hcl & Hclosed).
    cbn [clients withSocket setConns] in Hin |- *.
    rewrite withSocket_lookup. destruct (decide (id = id')) as [->|Hne].
    + rewrite Hc. cbn. eexists. split; [reflexivity|]. now split.
    + exists c. now split.
  - intros k Hk. apply HasClient_withSocket. now apply H2.
  - intros id' c' Hl Hcl Hclosed. rewrite withSocket_lookup in Hl.
    destruct (decide (id = id')) as [->|Hne]; [|now apply (H3 id' c')].
    destruct (conns s !! id') as [c|] eqn:Hc; [|discriminate].
    injection Hl as <-. cbn in Hcl, Hclosed |- *.
    destruct Hid as [[(c0 & Hc0 & Hcl0)]|Hq].
    + rewrite Hc in Hc0. injection Hc0 as <-. contradiction.
    + rewrite Hq. now apply (H3 id' c).
  - intros id' c' Hl Hcl. rewrite withSocket_lookup in Hl.
    destruct (decide (id = id')) as [->|Hne]; [|now apply (H4 id' c')].
    destruct (conns s !! id') as [c|] eqn:Hc; [|discriminate].
    injection Hl as <-. cbn in Hcl |- *.
    destruct Hid as [[(c0 & Hc0 & Hcl0)]|Hq].
    + rewrite Hc in Hc0. injection Hc0 as <-. contradiction.
    + rewrite Hq. now apply (H4 id' c).
  - intros id' c' Hl Hclosed. rewrite withSocket_lookup in Hl.
    destruct (decide (id = id')) as [->|Hne]; [|now apply (H5 id' c')].
    destruct (conns s !! id') as [c|] eqn:Hc; [|discriminate].
    injection Hl as <-. cbn in Hclosed |- *. apply Hf. now apply (H5 id' c).
Qed.

Lemma Auth_fold (f : Socket -> Socket) (cs : list string) (s : State) :
  keepsShut f ->
  (forall c, In c cs -> HasClient c s) \/ (forall k, outbound (f k) = outbound k) ->
  Auth s -> Auth (List.fold_left (fun s c => withSocket c f s) cs s).
Proof.
  intros Hf. revert s. induction cs as [|c cs IH]; intros s Hcs H; simpl; [exact H|].
  apply IH.
  - destruct Hcs as [Hcs|Hq]; [left|now right].
    intros c' Hc'. apply HasClient_withSocket, Hcs. now right.
  - apply Auth_withSocket; trivial.
    destruct Hcs as [Hcs|Hq]; [left|now right]. apply Hcs. now left.
Qed.

Lemma Auth_broadcast (event : string) (payload : json) (dropIfSlow : bool)
    (sv : option StateVersion) (s : State) :
  Auth s -> Auth (broadcast event payload dropIfSlow sv s).
Proof.
  intros H. unfold broadcast. cbv zeta.
  apply Auth_fold.
  - apply keepsShut_deliver.
  - left. intros c Hc. apply (HasClient_fields _ s); [reflexivity|].
    destruct (Auth_clients _ H c Hc) as (c0 & Hc0 & Hcl & _). split. now exists c0.
  - now apply (Auth_fields s).
Qed.

Lemma In_deleteClient (id id' : string) (cs : list string) :
  In id' (deleteClient id cs) -> In id' cs /\ id' <> id.
Proof.
  unfold deleteClient. rewrite filter_In. intros [Hin Hne]. split; [exact Hin|].
  apply negb_true_iff, String.eqb_neq in Hne. congruence.
Qed.

Lemma Auth_close (id : string) (s : State) : Auth s -> Auth (close id s).
Proof.
  intros H. unfold close.
  destruct (conns s !! id) as [c|] eqn:Hc; [|exact H].
  destruct (closed c) eqn:Hclosed; [exact H|].
  set (s1 := match client c with
             | Some _ => setClients (deleteClient id (clients s)) s
             | None => s
             end).
  assert (Hconns : conns s1 = conns s) by (subst s1; now destruct (client c)).
  assert (Hsusp : suspended s1 = suspended s) by (subst s1; now destruct (client c)).
  assert (Hclients : forall id', In id' (clients s1) -> In id' (clients s) /\ id' <> id).
  { intros id' Hin. subst s1. destruct (client c) eqn:Hcl.
    - cbn in Hin. now apply In_deleteClient.
    - split; [exact Hin|]. intros ->.
      destruct (Auth_clients _ H id Hin) as (c0 & Hc0 & Hcl0 & _).
      rewrite Hc in Hc0. injection Hc0 as <-. contradiction. }
  destruct H as [H1 H2 H3 H4 H5]. split; cbn [clients conns suspended setConns];
    rewrite ?Hconns, ?Hsusp.
  - intros id' Hin. destruct (Hclients id' Hin) as [Hin' Hne].
    rewrite lookup_insert_ne by congruence. now apply H1.
  - intros k Hk. destruct (H2 k Hk) as [(c0 & Hc0 & Hcl0)]. split.
    cbn [conns setConns]. rewrite ?Hconns.
    destruct (decide (id = connOf k)) as [Heq|Hne].
    + rewrite Heq, lookup_insert_eq. eexists. split; [reflexivity|]. cbn.
      rewrite Heq, Hc0 in Hc. now injection Hc as <-.
    + rewrite lookup_insert_ne by exact Hne. now exists c0.
  - intros id' c' Hl Hcl Hcd. destruct (decide (id = id')) as [->|Hne].
    + rewrite lookup_insert_eq in Hl. injection Hl as <-. discriminate.
    + rewrite lookup_insert_ne in Hl by exact Hne. now apply (H3 id' c').
  - intros id' c' Hl Hcl. destruct (decide (id = id')) as [->|Hne].
    + rewrite lookup_insert_eq in Hl. injection Hl as <-. cbn in Hcl |- *.
      rewrite quiet_outbound_sockClose. now apply (H4 id' c).
    + rewrite lookup_insert_ne in Hl by exact Hne. now apply (H4 id' c').
  - intros id' c' Hl Hcd. destruct (decide (id = id')) as [->|Hne].
    + rewrite lookup_insert_eq in Hl. injection Hl as <-. cbn.
      apply keepsShut_sockClose_result.
    + rewrite lookup_insert_ne in Hl by exact Hne. now apply (H5 id' c').
Qed.

Lemma AuthC_fields (id : string) (s s' : State) :
  clients s' = clients s -> conns s' = conns s -> suspended s' = suspended s ->
  AuthC id s -> AuthC id s'.
Proof.
  intros Hcl Hco Hsu [HA HC]. split.
  - now apply (Auth_fields s).
  - now apply (HasClient_fields id s).
Qed.

Lemma AuthC_send (id : string) (f : Frame) (s : State) :
  AuthC id s -> AuthC id (send id f s).
Proof.
  intros [HA HC]. split.
  - apply Auth_withSocket; [apply keepsShut_sockSend|now left|exact HA].
  - now apply HasClient_withSocket.
Qed.

Lemma AuthC_respond (id rid : string) (ok : bool) (payload : option json)
    (error : option ErrorShape) (s : State) :
  AuthC id s -> AuthC id (respond id rid ok payload error s).
Proof. apply AuthC_send. Qed.

Lemma AuthC_ack (id e : string) (p : json) (n : Z) (sv : option StateVersion) (s : State) :
  AuthC id s -> AuthC id (withSocket id (sockSend (FEvent e p n sv)) s).
Proof. apply (AuthC_send id (FEvent e p n sv)). Qed.

Lemma AuthC_await (id : string) (call : PortCall) (k : Suspended) (s : State) :
  connOf k = id -> AuthC id s -> AuthC id (await call k s).
Proof.
  intros Hk [HA HC]. split; [|now apply (HasClient_fields id s)].
  destruct HA as [H1 H2 H3 H4 H5]. split; trivial.
  intros k' Hk'. apply (HasClient_fields _ s); [reflexivity|].
  cbn [suspended await setSuspended setPortCalls] in Hk'. apply in_app_or in Hk'.
  destruct Hk' as [Hk'|[<-|[]]]; [now apply H2|]. now rewrite Hk.
Qed.

Lemma AuthC_setSeq id n s : AuthC id s -> AuthC id (setSeq n s).
Proof. now apply AuthC_fields. Qed.

Lemma AuthC_setEntries id e s : AuthC id s -> AuthC id (setEntries e s).
Proof. now apply AuthC_fields. Qed.

Lemma AuthC_setDedupe id d s : AuthC id s -> AuthC id (setDedupe d s).
Proof. now apply AuthC_fields. Qed.

Lemma AuthC_setSystemEvents id q s : AuthC id s -> AuthC id (setSystemEvents q s).
Proof. now apply AuthC_fields. Qed.

Lemma AuthC_setPresenceVersion id n s : AuthC id s -> AuthC id (setPresenceVersion n s).
Proof. now apply AuthC_fields. Qed.

Lemma AuthC_setHealthVersion id n s : AuthC id s -> AuthC id (setHealthVersion n s).
Proof. now apply AuthC_fields. Qed.

Lemma AuthC_logError id s : AuthC id s -> AuthC id (logError s).
Proof. now apply AuthC_fields. Qed.

Lemma AuthC_listPresence id P t0 t1 t2 s :
  AuthC id s -> AuthC id (fst (listPresence P t0 t1 t2 s)).
Proof. now apply AuthC_fields. Qed.

Lemma AuthC_broadcast id event payload dropIfSlow sv s :
  AuthC id s -> AuthC id (broadcast event payload dropIfSlow sv s).
Proof.
  intros [HA HC]. split; [now apply Auth_broadcast|].
  unfold broadcast. cbv zeta. apply HasClient_fold.
  now apply (HasClient_fields id s).
Qed.

Lemma AuthC_broadcastPresence id P t0 t1 t2 s :
  AuthC id s -> AuthC id (broadcastPresence P t0 t1 t2 s).
Proof.
  intros H. unfold broadcastPresence. now apply AuthC_broadcast, AuthC_listPresence.
Qed.

Lemma AuthC_close id id' s : AuthC id s -> AuthC id (close id' s).
Proof. intros [HA HC]. split; [now apply Auth_close|now apply HasClient_close]. Qed.

Lemma AuthC_sockClosed id id' s : AuthC id s -> AuthC id (withSocket id' sockClosed s).
Proof.
  intros [HA HC]. split; [|now apply HasClient_withSocket].
  apply Auth_withSocket; [apply keepsShut_sockClosed|now right|exact HA].
Qed.

(** Chains the lemmas above along the body of a handler. *)
Ltac authc_step :=
  first
    [ assumption
    | apply AuthC_respond | apply AuthC_send | apply AuthC_ack
    | apply AuthC_await; [reflexivity|]
    | apply AuthC_setSeq | apply AuthC_setEntries | apply AuthC_setDedupe
    | apply AuthC_setSystemEvents | apply AuthC_setPresenceVersion
    | apply AuthC_setHealthVersion | apply AuthC_logError
    | apply AuthC_listPresence | apply AuthC_broadcastPresence | apply AuthC_broadcast
    | apply AuthC_close | apply AuthC_sockClosed
    | match goal with
      | |- AuthC _ (match ?x with _ => _ end) => destruct x eqn:?
      end ].

Ltac authc_auto := cbv zeta; repeat authc_step.

Lemma AuthC_handleRequest (P : Platform) (id : string) (v : json) (clock : nat -> Z)
    (uuid : string) (s : State) :
  AuthC id s -> AuthC id (handleRequest P id v clock uuid s).
Proof.
  intros H.
  unfold handleRequest, handleSystemEvent, handleSend, handleAgent. authc_auto.
Qed.

Lemma AuthC_continue (P : Platform) (k : Suspended) (o : Outcome) (now : Z)
    (s s' : State) :
  AuthC (connOf k) s -> continue P k o now s = Some s' -> AuthC (connOf k) s'.
Proof.
  intros H. unfold continue.
  destruct k, o; cbn [connOf] in H |- *; intros [= <-]; authc_auto.
Qed.

Lemma In_list_delete {A : Type} (i : nat) (l : list A) (x : A) :
  In x (delete i l) -> In x l.
Proof.
  revert i. induction l as [|y l IH]; intros [|i]; cbn; try tauto.
  intros [<-|H]; [now left|right; now apply (IH i)].
Qed.

Lemma Auth_setSuspended_delete (i : nat) (s : State) :
  Auth s -> Auth (setSuspended (delete i (suspended s)) s).
Proof.
  intros [H1 H2 H3 H4 H5]. split; trivial.
  intros k Hk. apply (HasClient_fields _ s); [reflexivity|]. apply H2.
  cbn [suspended setSuspended] in Hk. now apply In_list_delete in Hk.
Qed.

Lemma Auth_resume (P : Platform) (i : nat) (o : Outcome) (now : Z) (s : State) :
  Auth s -> Auth (resume P i o now s).
Proof.
  intros H. unfold resume.
  destruct (suspended s !! i) as [k|] eqn:Hk; [|exact H].
  destruct (continue P k o now _) as [s'|] eqn:E; [|exact H].
  apply (authc_auth (connOf k)). eapply AuthC_continue; [|exact E].
  split; [now apply Auth_setSuspended_delete|].
  apply (HasClient_fields _ s); [reflexivity|].
  apply (Auth_suspended _ H). apply list_elem_of_In. eapply list_elem_of_lookup_2. exact Hk.
Qed.

Lemma Auth_rejectHello (s : State) (connId : string) (c : Conn) (reason : string)
    (expected : option Z) (code : Z) (closeReason : string) :
  conns s !! connId = Some c -> closed c = false -> client c = None ->
  Auth s -> Auth (rejectHello connId reason expected code closeReason s).
Proof.
  intros Hc Hclosed Hclient H. rewrite (rejectHello_eq s connId c) by assumption.
  pose proof (Auth_waiting _ H connId c Hc Hclient Hclosed) as Hout.
  destruct H as [H1 H2 H3 H4 H5]. split; cbn [clients conns suspended setConns].
  - intros id Hin. destruct (H1 id Hin) as (c0 & Hc0 & Hcl0 & Hcd0).
    destruct (decide (connId = id)) as [->|Hne].
    + rewrite Hc in Hc0. injection Hc0 as <-. contradiction.
    + rewrite lookup_insert_ne by exact Hne. now exists c0.
  - intros k Hk. destruct (H2 k Hk) as [(c0 & Hc0 & Hcl0)]. split. cbn [conns setConns].
    destruct (decide (connId = connOf k)) as [Heq|Hne].
    + rewrite <- Heq, Hc in Hc0. injection Hc0 as <-. contradiction.
    + rewrite lookup_insert_ne by exact Hne. now exists c0.
  - intros id c' Hl Hcl Hcd. destruct (decide (connId = id)) as [->|Hne].
    + rewrite lookup_insert_eq in Hl. injection Hl as <-. discriminate.
    + rewrite lookup_insert_ne in Hl by exact Hne. now apply (H3 id c').
  - intros id c' Hl Hcl. destruct (decide (connId = id)) as [->|Hne].
    + rewrite lookup_insert_eq in Hl. injection Hl as <-. cbn.
      rewrite quiet_outbound_sockClose. unfold sockSend.
      destruct (readyState (socket c)); cbn; rewrite Hout; [right|left|left]; eauto.
    + rewrite lookup_insert_ne in Hl by exact Hne. now apply (H4 id c').
  - intros id c' Hl Hcd. destruct (decide (connId = id)) as [->|Hne].
    + rewrite lookup_insert_eq in Hl. injection Hl as <-. cbn.
      apply keepsShut_sockClose_result.
    + rewrite lookup_insert_ne in Hl by exact Hne. now apply (H5 id c').
Qed.

Lemma In_addClient (id id' : string) (cs : list string) :
  In id' (addClient id cs) <-> In id' cs \/ id' = id.
Proof.
  unfold addClient. destruct (existsb (String.eqb id) cs) eqn:E.
  - split; [now left|]. intros [H| ->]; [exact H|].
    apply existsb_exists in E. destruct E as (x & Hin & Hx).
    apply String.eqb_eq in Hx. now subst x.
  - rewrite in_app_iff. cbn. intuition.
Qed.

Lemma Auth_handleHello (P : Platform) (s : State) (connId : string) (c : Conn)
    (parsed : json) (clock : nat -> Z) :
  conns s !! connId = Some c -> closed c = false -> client c = None ->
  Auth s -> Auth (handleHello P connId parsed clock s).
Proof.
  intros Hc Hclosed Hclient H.
  destruct (validateHello parsed) as [hello|] eqn:Hv.
  2:{ unfold handleHello. rewrite Hv. now apply (Auth_rejectHello s connId c). }
  destruct ((maxProtocol hello <? PROTOCOL_VERSION) || (PROTOCOL_VERSION <? minProtocol hello))
    eqn:Hp.
  { unfold handleHello. rewrite Hv, Hp. now apply (Auth_rejectHello s connId c). }
  destruct (unauthorized P hello) eqn:Ha.
  { unfold handleHello. rewrite Hv, Hp, Ha. now apply (Auth_rejectHello s connId c). }
  rewrite (handleHello_accepted P s connId parsed hello clock Hv); [|split|exact Ha].
  2,3: apply orb_false_iff in Hp; destruct Hp as [Hp1 Hp2];
       apply Z.ltb_ge in Hp1, Hp2; lia.
  assert (Hlook : forall id c',
            alter (fun c => {| socket := socket c; client := Some hello; closed := closed c |})
              connId (conns s) !! id = Some c' ->
            (id = connId /\ c' = {| socket := socket c; client := Some hello; closed := false |})
            \/ (id <> connId /\ conns s !! id = Some c')).
  { intros id c' Hl. destruct (decide (connId = id)) as [<-|Hne].
    - rewrite lookup_alter_eq, Hc in Hl. cbn in Hl. injection Hl as <-. left.
      now rewrite Hclosed.
    - rewrite lookup_alter_ne in Hl by exact Hne. right. split; [congruence|exact Hl]. }
  assert (Hkeep : forall id c0, conns s !! id = Some c0 -> client c0 <> None ->
            exists c', alter (fun c => {| socket := socket c; client := Some hello;
                                           closed := closed c |}) connId (conns s) !! id
                       = Some c' /\ client c' <> None /\ closed c' = closed c0).
  { intros id c0 Hc0 Hcl0. destruct (decide (connId = id)) as [<-|Hne].
    - rewrite Hc in Hc0. injection Hc0 as <-. contradiction.
    - rewrite lookup_alter_ne by exact Hne. exists c0. auto. }
  destruct H as [H1 H2 H3 H4 H5]. split; cbn [clients conns suspended].
  - intros id Hin. apply In_addClient in Hin. destruct Hin as [Hin| ->].
    + destruct (H1 id Hin) as (c0 & Hc0 & Hcl0 & Hcd0).
      destruct (Hkeep id c0 Hc0 Hcl0) as (c' & Hc' & Hcl' & Hcd').
      exists c'. split; [exact Hc'|]. split; [exact Hcl'|congruence].
    + rewrite lookup_alter_eq, Hc. cbn. eexists. split; [reflexivity|].
      split; [discriminate|exact Hclosed].
  - intros k Hk. split. cbn [conns]. apply in_app_or in Hk.
    destruct Hk as [Hk|[<-|[]]].
    + destruct (H2 k Hk) as [(c0 & Hc0 & Hcl0)].
      destruct (Hkeep _ c0 Hc0 Hcl0) as (c' & Hc' & Hcl' & _). now exists c'.
    + cbn [connOf]. rewrite lookup_alter_eq, Hc. cbn. eexists. split; [reflexivity|].
      discriminate.
  - intros id c' Hl Hcl Hcd. destruct (Hlook id c' Hl) as [[-> ->]|[Hne Hl']].
    + discriminate.
    + now apply (H3 id c').
  - intros id c' Hl Hcl. destruct (Hlook id c' Hl) as [[-> ->]|[Hne Hl']].
    + discriminate.
    + now apply (H4 id c').
  - intros id c' Hl Hcd. destruct (Hlook id c' Hl) as [[-> ->]|[Hne Hl']].
    + discriminate.
    + now apply (H5 id c').
Qed.

Lemma Auth_onMessage (P : Platform) (id : string) (parsed : option json)
    (clock : nat -> Z) (uuid : string) (s : State) :
  Auth s -> Auth (onMessage P id parsed clock uuid s).
Proof.
  intros H. unfold onMessage.
  destruct (conns s !! id) as [c|] eqn:Hc; [|exact H].
  destruct (closed c) eqn:Hclosed; [exact H|].
  destruct parsed as [v|]; destruct (client c) as [hello|] eqn:Hclient.
  - apply (authc_auth id). apply AuthC_handleRequest. split; [exact H|].
    split. exists c. split; [exact Hc|congruence].
  - now apply (Auth_handleHello P s id c).
  - now apply (Auth_fields s).
  - apply Auth_close. now apply (Auth_fields s).
Qed.

Lemma Auth_onConnection (id : string) (s : State) : Auth s -> Auth (onConnection id s).
Proof.
  intros H. unfold onConnection.
  destruct (stopped s); [exact H|].
  destruct (conns s !! id) eqn:Hl; [exact H|].
  destruct H as [H1 H2 H3 H4 H5]. split; cbn [clients conns suspended setConns].
  - intros id' Hin. destruct (H1 id' Hin) as (c0 & Hc0 & Hcl0 & Hcd0).
    rewrite lookup_insert_ne by congruence. now exists c0.
  - intros k Hk. destruct (H2 k Hk) as [(c0 & Hc0 & Hcl0)]. split. cbn [conns setConns].
    rewrite lookup_insert_ne by congruence. now exists c0.
  - intros id' c' Hl' Hcl Hcd. destruct (decide (id = id')) as [->|Hne].
    + rewrite lookup_insert_eq in Hl'. now injection Hl' as <-.
    + rewrite lookup_insert_ne in Hl' by exact Hne. now apply (H3 id' c').
  - intros id' c' Hl' Hcl. destruct (decide (id = id')) as [->|Hne].
    + rewrite lookup_insert_eq in Hl'. injection Hl' as <-. now left.
    + rewrite lookup_insert_ne in Hl' by exact Hne. now apply (H4 id' c').
  - intros id' c' Hl' Hcd. destruct (decide (id = id')) as [->|Hne].
    + rewrite lookup_insert_eq in Hl'. now injection Hl' as <-.
    + rewrite lookup_insert_ne in Hl' by exact Hne. now apply (H5 id' c').
Qed.

Lemma Auth_onSocketClose (P : Platform) (id : string) (clock : nat -> Z) (s : State) :
  Auth s -> Auth (onSocketClose P id clock s).
Proof.
  intros H. unfold onSocketClose.
  destruct (conns s !! id) as [c|] eqn:Hc; [|exact H].
  destruct (readyState (socket c)); [| |exact H];
    (destruct (client c) as [hello|] eqn:Hclient;
     [ apply (authc_auth id);
       assert (AuthC id s) by (split; [exact H|split; exists c; split; [exact Hc|congruence]]);
       authc_auto
     | apply Auth_close, Auth_withSocket;
       [apply keepsShut_sockClosed|now right|exact H] ]).
Qed.

Lemma Auth_serverClose (s : State) : Auth s -> Auth (serverClose s).
Proof.
  intros H. unfold serverClose. cbv zeta.
  set (s1 := List.fold_left _ _ _).
  assert (H1 : Auth s1).
  { subst s1. apply Auth_fold.
    - apply keepsShut_sockClose.
    - right. intros k. apply quiet_outbound_sockClose.
    - apply (Auth_fields (broadcast "shutdown"
               (JObj [("reason", JStr "gateway stopping"); ("restartExpectedMs", JNull)])
               false None s)); trivial.
      now apply Auth_broadcast. }
  destruct H1 as [_ H2 H3 H4 H5]. split; trivial.
  - intros id [].
  - intros k Hk. apply (HasClient_fields _ s1); [reflexivity|]. now apply H2.
Qed.

Lemma Auth_step (P : Platform) (s : State) (l : Label) : Auth s -> Auth (step P s l).
Proof.
  intros H. destruct l; cbn [step].
  - now apply Auth_onConnection.
  - now apply Auth_onMessage.
  - now apply Auth_resume.
  - now apply Auth_onSocketClose.
  - now apply Auth_close.
  - unfold onHandshakeTimeout. destruct (conns s !! connId) as [c|]; [|exact H].
    destruct (client c); [exact H|now apply Auth_close].
  - unfold onTick. destruct (stopped s); [exact H|now apply Auth_broadcast].
  - unfold onDedupeCleanup. destruct (stopped s); [exact H|now apply (Auth_fields s)].
  - unfold onAgentEvent. destruct (stopped s); [exact H|now apply Auth_broadcast].
  - apply Auth_withSocket; [apply keepsShut_sockBuffered|now right|exact H].
  - now apply Auth_serverClose.
Qed.

Lemma Auth_run (P : Platform) (ls : list Label) (s : State) :
  Auth s -> Auth (run P s ls).
Proof.
  revert s. induction ls as [|l ls IH]; intros s H; simpl; [exact H|].
  now apply IH, Auth_step.
Qed.

Lemma Auth_initialState (P : Platform) (t : Z) : Auth (initialState P t).
Proof.
  split; cbn.
  - intros id [].
  - intros k [].
  - intros id c Hl. now rewrite lookup_empty in Hl.
  - intros id c Hl. now rewrite lookup_empty in Hl.
  - intros id c Hl. now rewrite lookup_empty in Hl.
Qed.

Lemma reachable_Auth (P : Platform) (s : State) : reachable P s -> Auth s.
Proof. intros (t & ls & ->). apply Auth_run, Auth_initialState. Qed.

(** X11: a connection that has not got through the checks of [hello] is
    never written a response, an event or a [hello-ok]: in every state the
    server can reach, what was written to it is nothing or, once the server
    has closed it, the one [hello-error] of its rejection. *)
Theorem unauthenticated_gets_only_hello_error (P : Platform) (s : State)
    (id : string) (c : Conn) :
  reachable P s -> conns s !! id = Some c -> client c = None ->
  (closed c = false -> outbound (socket c) = [])
  /\ (outbound (socket c) = []
      \/ exists reason expected, outbound (socket c) = [FHelloError reason expected]).
Proof.
  intros Hr Hc Hcl. apply reachable_Auth in Hr. split.
  - intros Hcd. now apply (Auth_waiting _ Hr id c).
  - now apply (Auth_rejected _ Hr id c).
Qed.

(** X12: in every state the server can reach, the clients set, to which
    events are broadcast, holds only connections that exist, got through
    the checks of [hello] and were not closed by the server; and every
    connection the server closed has a socket that is closing or closed. *)
Theorem clients_are_live (P : Platform) (s : State) :
  reachable P s ->
  (forall id, In id (clients s) ->
     exists c hello, conns s !! id = Some c /\ client c = Some hello /\ closed c = false)
  /\ (forall id c, conns s !! id = Some c -> closed c = true ->
        readyState (socket c) <> OPEN /\ ~ In id (clients s)).
Proof.
  intros Hr. apply reachable_Auth in Hr. split.
  - intros id Hin. destruct (Auth_clients _ Hr id Hin) as (c & Hc & Hcl & Hcd).
    destruct (client c) as [hello|] eqn:E; [|contradiction]. now exists c, hello.
  - intros id c Hc Hcd. split; [now apply (Auth_closed _ Hr id c)|].
    intros Hin. destruct (Auth_clients _ Hr id Hin) as (c0 & Hc0 & _ & Hcd0).
    congruence.
Qed.

(* ===================================================================== *)
(** ** What a connection can become *)
(* ===================================================================== *)

Lemma Later_refl (c : Conn) : Later c c.
Proof.
  split; auto.
  exists []. now rewrite app_nil_r.
Qed.

Lemma Later_trans (c1 c2 c3 : Conn) : Later c1 c2 -> Later c2 c3 -> Later c1 c3.
Proof.
  intros [(n1 & F1) S1 C1 H1] [(n2 & F2) S2 C2 H2]. split.
  - exists (n1 ++ n2). now rewrite F2, F1, app_assoc.
  - intros Hs. destruct (S1 Hs) as (O1 & K1 & R1). destruct (S2 R1) as (O2 & K2 & R2).
    repeat split; congruence.
  - intros Hc. destruct (C1 Hc) as [D1 E1]. destruct (C2 D1) as [D2 E2].
    split; congruence.
  - intros h Hh. now apply H2, H1.
Qed.

Lemma steady_sockSend (f : Frame) : steady (sockSend f).
Proof.
  intros k. unfold sockSend. destruct (readyState k) eqn:E; cbn; rewrite ?E; split;
    try (exists []; now rewrite app_nil_r); try (now exists [f]); intros H;
    try contradiction; repeat split; congruence.
Qed.

Lemma steady_sockClose (c : Z) (r : option string) : steady (sockClose c r).
Proof.
  intros k. unfold sockClose. destruct (readyState k) eqn:E; cbn; rewrite ?E; split;
    try (exists []; now rewrite app_nil_r); intros H;
    try contradiction; repeat split; congruence.
Qed.

Lemma steady_sockClosed : steady sockClosed.
Proof.
  intros k. split; [exists []; cbn; now rewrite app_nil_r|].
  intros H. repeat split. discriminate.
Qed.

Lemma steady_sockBuffered (n : Z) : steady (sockBuffered n).
Proof.
  intros k. split; [exists []; cbn; now rewrite app_nil_r|].
  intros H. repeat split. exact H.
Qed.

Lemma steady_id : steady (fun k => k).
Proof.
  intros k. split; [exists []; now rewrite app_nil_r|]. intros H. repeat split. exact H.
Qed.

Lemma steady_deliver (d : bool) (f : Frame) : steady (deliver d f).
Proof.
  intros k. unfold deliver. cbv zeta.
  destruct (MAX_BUFFERED_BYTES <? bufferedAmount k); cbn [andb].
  - destruct d; [apply steady_id|apply steady_sockClose].
  - apply steady_sockSend.
Qed.

Lemma Later_onSocket (f : Socket -> Socket) (c : Conn) :
  steady f -> Later c (onSocket f c).
Proof.
  intros Hf. destruct (Hf (socket c)) as [Hn Hs]. split; cbn; auto.
Qed.

Lemma Later_shutdown (c : Conn) :
  Later c {| socket := sockClose 1000 None (socket c); client := client c;
             closed := true |}.
Proof.
  destruct (steady_sockClose 1000 None (socket c)) as [Hn Hs]. split; cbn; auto.
Qed.

Lemma Sim_refl (s : State) : Sim s s.
Proof. split. intros id c Hc. exists c. split; [exact Hc|apply Later_refl]. Qed.

Lemma Sim_fields (s0 s s' : State) : conns s' = conns s -> Sim s0 s -> Sim s0 s'.
Proof. intros H [Hs]. split. now rewrite H. Qed.

Lemma Sim_withSocket (s0 : State) (id : string) (f : Socket -> Socket) (s : State) :
  steady f -> Sim s0 s -> Sim s0 (withSocket id f s).
Proof.
  intros Hf [Hs]. split. intros id' c Hc.
  destruct (Hs id' c Hc) as (c' & Hc' & HL).
  rewrite withSocket_lookup. destruct (decide (id = id')) as [->|Hne].
  - rewrite Hc'. cbn. eexists. split; [reflexivity|].
    eapply Later_trans; [exact HL|now apply Later_onSocket].
  - now exists c'.
Qed.

Lemma Sim_fold (s0 : State) (f : Socket -> Socket) (cs : list string) (s : State) :
  steady f -> Sim s0 s -> Sim s0 (List.fold_left (fun s c => withSocket c f s) cs s).
Proof.
  intros Hf. revert s. induction cs as [|c cs IH]; intros s H; simpl; [exact H|].
  now apply IH, Sim_withSocket.
Qed.

Lemma Sim_close (s0 : State) (id : string) (s : State) : Sim s0 s -> Sim s0 (close id s).
Proof.
  intros H. unfold close.
  destruct (conns s !! id) as [c|] eqn:Hc; [|exact H].
  destruct (closed c); [exact H|].
  assert (Hconns : conns (match client c with
                          | Some _ => setClients (deleteClient id (clients s)) s
                          | None => s
                          end) = conns s) by now destruct (client c).
  destruct H as [Hs]. split. intros id' c0 Hc0. cbn [conns setConns]. rewrite Hconns.
  destruct (Hs id' c0 Hc0) as (c' & Hc' & HL).
  destruct (decide (id = id')) as [->|Hne].
  - rewrite lookup_insert_eq. eexists. split; [reflexivity|].
    rewrite Hc in Hc'. injection Hc' as <-.
    eapply Later_trans; [exact HL|apply Later_shutdown].
  - rewrite lookup_insert_ne by exact Hne. now exists c'.
Qed.

Lemma Sim_send s0 id f s : Sim s0 s -> Sim s0 (send id f s).
Proof. apply Sim_withSocket, steady_sockSend. Qed.

Lemma Sim_respond s0 id rid ok payload error s :
  Sim s0 s -> Sim s0 (respond id rid ok payload error s).
Proof. apply Sim_send. Qed.

Lemma Sim_ack s0 id f s : Sim s0 s -> Sim s0 (withSocket id (sockSend f) s).
Proof. apply Sim_withSocket, steady_sockSend. Qed.

Lemma Sim_sockClosed s0 id s : Sim s0 s -> Sim s0 (withSocket id sockClosed s).
Proof. apply Sim_withSocket, steady_sockClosed. Qed.

Lemma Sim_await s0 call k s : Sim s0 s -> Sim s0 (await call k s).
Proof. now apply Sim_fields. Qed.

Lemma Sim_setSeq s0 n s : Sim s0 s -> Sim s0 (setSeq n s).
Proof. now apply Sim_fields. Qed.

Lemma Sim_setEntries s0 e s : Sim s0 s -> Sim s0 (setEntries e s).
Proof. now apply Sim_fields. Qed.

Lemma Sim_setDedupe s0 d s : Sim s0 s -> Sim s0 (setDedupe d s).
Proof. now apply Sim_fields. Qed.

Lemma Sim_setSystemEvents s0 q s : Sim s0 s -> Sim s0 (setSystemEvents q s).
Proof. now apply Sim_fields. Qed.

Lemma Sim_setPresenceVersion s0 n s : Sim s0 s -> Sim s0 (setPresenceVersion n s).
Proof. now apply Sim_fields. Qed.

Lemma Sim_setHealthVersion s0 n s : Sim s0 s -> Sim s0 (setHealthVersion n s).
Proof. now apply Sim_fields. Qed.

Lemma Sim_setSuspended s0 l s : Sim s0 s -> Sim s0 (setSuspended l s).
Proof. now apply Sim_fields. Qed.

Lemma Sim_setStopped s0 b s : Sim s0 s -> Sim s0 (setStopped b s).
Proof. now apply Sim_fields. Qed.

Lemma Sim_setClients s0 cs s : Sim s0 s -> Sim s0 (setClients cs s).
Proof. now apply Sim_fields. Qed.

Lemma Sim_logError s0 s : Sim s0 s -> Sim s0 (logError s).
Proof. now apply Sim_fields. Qed.

Lemma Sim_listPresence s0 P t0 t1 t2 s :
  Sim s0 s -> Sim s0 (fst (listPresence P t0 t1 t2 s)).
Proof. now apply Sim_fields. Qed.

Lemma Sim_broadcast s0 event payload dropIfSlow sv s :
  Sim s0 s -> Sim s0 (broadcast event payload dropIfSlow sv s).
Proof.
  intros H. unfold broadcast. cbv zeta.
  apply Sim_fold; [apply steady_deliver|now apply Sim_setSeq].
Qed.

Lemma Sim_broadcastPresence s0 P t0 t1 t2 s :
  Sim s0 s -> Sim s0 (broadcastPresence P t0 t1 t2 s).
Proof. intros H. unfold broadcastPresence. now apply Sim_broadcast, Sim_listPresence. Qed.

Ltac sim_step :=
  first
    [ assumption | apply Sim_refl
    | apply Sim_respond | apply Sim_send | apply Sim_ack | apply Sim_sockClosed
    | apply Sim_await
    | apply Sim_setSeq | apply Sim_setEntries | apply Sim_setDedupe
    | apply Sim_setSystemEvents | apply Sim_setPresenceVersion
    | apply Sim_setHealthVersion | apply Sim_setSuspended | apply Sim_setStopped
    | apply Sim_setClients | apply Sim_logError
    | apply Sim_listPresence | apply Sim_broadcastPresence | apply Sim_broadcast
    | apply Sim_close
    | match goal with
      | |- Sim _ (match ?x with _ => _ end) => destruct x eqn:?
      end ].

Ltac sim_auto := cbv zeta; repeat sim_step.

Lemma Sim_handleRequest (P : Platform) (id : string) (v : json) (clock : nat -> Z)
    (uuid : string) (s : State) :
  Sim s (handleRequest P id v clock uuid s).
Proof. unfold handleRequest, handleSystemEvent, handleSend, handleAgent. sim_auto. Qed.

Lemma Sim_handleHello (P : Platform) (s : State) (connId : string) (c : Conn)
    (parsed : json) (clock : nat -> Z) :
  conns s !! connId = Some c -> closed c = false -> client c = None ->
  Sim s (handleHello P connId parsed clock s).
Proof.
  intros Hc Hclosed Hclient.
  assert (Hrej : forall reason expected code closeReason,
            Sim s (rejectHello connId reason expected code closeReason s)).
  { intros. unfold rejectHello. cbv zeta.
    apply Sim_close, Sim_withSocket; [apply steady_sockClose|]. apply Sim_send, Sim_refl. }
  destruct (validateHello parsed) as [hello|] eqn:Hv.
  2:{ unfold handleHello. rewrite Hv. apply Hrej. }
  destruct ((maxProtocol hello <? PROTOCOL_VERSION) || (PROTOCOL_VERSION <? minProtocol hello))
    eqn:Hp.
  { unfold handleHello. rewrite Hv, Hp. apply Hrej. }
  destruct (unauthorized P hello) eqn:Ha.
  { unfold handleHello. rewrite Hv, Hp, Ha. apply Hrej. }
  rewrite (handleHello_accepted P s connId parsed hello clock Hv); [|split|exact Ha].
  2,3: apply orb_false_iff in Hp; destruct Hp as [Hp1 Hp2];
       apply Z.ltb_ge in Hp1, Hp2; lia.
  split. intros id c0 Hc0. cbn [conns].
  destruct (decide (connId = id)) as [<-|Hne].
  - rewrite lookup_alter_eq, Hc. cbn. eexists. split; [reflexivity|].
    rewrite Hc in Hc0. injection Hc0 as <-.
    split; cbn; auto.
    + exists []. now rewrite app_nil_r.
    + intros Hcd. congruence.
    + intros h Hh. congruence.
  - rewrite lookup_alter_ne by exact Hne. exists c0. split; [exact Hc0|apply Later_refl].
Qed.

Lemma Sim_step (P : Platform) (s : State) (l : Label) : Sim s (step P s l).
Proof.
  destruct l; cbn [step].
  - unfold onConnection. destruct (stopped s); [apply Sim_refl|].
    destruct (conns s !! connId) eqn:Hl; [apply Sim_refl|].
    split. intros id c Hc. cbn [conns setConns].
    rewrite lookup_insert_ne by congruence. exists c. split; [exact Hc|apply Later_refl].
  - unfold onMessage.
    destruct (conns s !! connId) as [c|] eqn:Hc; [|apply Sim_refl].
    destruct (closed c) eqn:Hclosed; [apply Sim_refl|].
    destruct parsed as [v|]; destruct (client c) as [hello|] eqn:Hclient.
    + apply Sim_handleRequest.
    + now apply (Sim_handleHello P s connId c).
    + sim_auto.
    + sim_auto.
  - unfold resume. destruct (suspended s !! i) as [k|]; [|apply Sim_refl].
    destruct (continue P k o now _) as [s'|] eqn:E; [|apply Sim_refl].
    revert E. unfold continue. destruct k, o; intros [= <-]; sim_auto.
  - unfold onSocketClose.
    destruct (conns s !! connId) as [c|]; [|apply Sim_refl].
    destruct (readyState (socket c)); sim_auto.
  - unfold onSocketError. sim_auto.
  - unfold onHandshakeTimeout. sim_auto.
  - unfold onTick. sim_auto.
  - unfold onDedupeCleanup. sim_auto.
  - unfold onAgentEvent. sim_auto.
  - apply Sim_withSocket; [apply steady_sockBuffered|apply Sim_refl].
  - unfold serverClose. cbv zeta. apply Sim_setClients.
    apply Sim_fold; [apply steady_sockClose|]. sim_auto.
Qed.

Lemma Sim_trans (s0 s1 s2 : State) : Sim s0 s1 -> Sim s1 s2 -> Sim s0 s2.
Proof.
  intros [H1] [H2]. split. intros id c Hc.
  destruct (H1 id c Hc) as (c1 & Hc1 & L1). destruct (H2 id c1 Hc1) as (c2 & Hc2 & L2).
  exists c2. split; [exact Hc2|]. eapply Later_trans; eassumption.
Qed.

Lemma Sim_run (P : Platform) (ls : list Label) (s : State) : Sim s (run P s ls).
Proof.
  revert s. induction ls as [|l ls IH]; intros s; simpl; [apply Sim_refl|].
  eapply Sim_trans; [apply Sim_step|apply IH].
Qed.

(** X13: once the socket of a connection is closing or closed (the server
    closed the connection, closed it as a slow consumer or at shutdown, or
    the peer went away), nothing the server does later writes a frame to
    it, changes the close code it was given, or opens it again; a
    connection the server closed stays closed and keeps the client it
    had. *)
Theorem no_frame_after_close (P : Platform) (s : State) (id : string) (c : Conn)
    (ls : list Label) :
  reachable P s -> conns s !! id = Some c ->
  closed c = true \/ readyState (socket c) <> OPEN ->
  exists c',
    conns (run P s ls) !! id = Some c'
    /\ outbound (socket c') = outbound (socket c)
    /\ closeSent (socket c') = closeSent (socket c)
    /\ readyState (socket c') <> OPEN
    /\ (closed c = true -> closed c' = true /\ client c' = client c).
Proof.
  intros Hr Hc Hshut.
  assert (Hs : readyState (socket c) <> OPEN).
  { destruct Hshut as [Hcd|Hs]; [|exact Hs].
    apply reachable_Auth in Hr. now apply (Auth_closed _ Hr id c). }
  destruct (Sim_run P ls s) as [Hsim].
  destruct (Hsim id c Hc) as (c' & Hc' & HL).
  exists c'. split; [exact Hc'|].
  destruct (later_shut _ _ HL Hs) as (Ho & Hk & Hrs).
  repeat split; trivial; now apply (later_closed _ _ HL).
Qed.

Lemma onlyKeys_absent (allowed : list string) (fs : list (string * json)) (k : string) :
  onlyKeys allowed fs = true -> ~ In k allowed -> assoc k fs = None.
Proof.
  unfold onlyKeys. induction fs as [|[k' v] fs IH]; simpl; [reflexivity|].
  intros H Hk. apply andb_true_iff in H. destruct H as [Hk' H].
  destruct (String.eqb_spec k k') as [->|Hne]; [|now apply IH].
  exfalso. apply Hk. apply existsb_exists in Hk'. destruct Hk' as (x & Hin & Hx).
  apply String.eqb_eq in Hx. now subst x.
Qed.

Lemma hello_is_no_request (v : json) (h : Hello) :
  validateHello v = Some h -> validateRequestFrame v = None /\ prop "id" v = None.
Proof.
  unfold validateHello, validateRequestFrame.
  destruct v as [| | | | |fs]; try discriminate.
  destruct (onlyKeys _ fs) eqn:Hkeys; [|discriminate]. cbn [andb].
  unfold required at 1.
  destruct (assoc "type" fs) as [[| | |t| |]|] eqn:Ht; try discriminate.
  destruct (String.eqb_spec t "hello") as [->|]; [|discriminate].
  intros _. split.
  - unfold required at 1. rewrite Ht. cbn. now rewrite andb_false_r.
  - cbn [prop]. apply (onlyKeys_absent _ _ _ Hkeys).
    cbn. intuition discriminate.
Qed.

(** X14: a connection says [hello] once.  The client the server recorded
    for a connection is never replaced, whatever happens later; a second
    [hello] on the connection is treated as a request and answered with a
    [res] that is not ok, has the id ["invalid"] and the error code
    [INVALID_REQUEST], and changes nothing else. *)
Theorem hello_is_accepted_once (P : Platform) (s : State) (id : string) (c : Conn)
    (hello : Hello) :
  conns s !! id = Some c -> client c = Some hello ->
  (forall ls, exists c', conns (run P s ls) !! id = Some c' /\ client c' = Some hello)
  /\ (closed c = false ->
      forall v h' clock uuid,
        validateHello v = Some h' ->
        step P s (Message id (Some v) clock uuid)
        = send id
            (FRes (JStr "invalid") false None
               (Some (errorShape INVALID_REQUEST
                        ("invalid request frame: " +:+ requestFrameErrorsText P v)))) s).
Proof.
  intros Hc Hcl. split.
  - intros ls. destruct (Sim_run P ls s) as [Hsim].
    destruct (Hsim id c Hc) as (c' & Hc' & HL).
    exists c'. split; [exact Hc'|]. now apply (later_client _ _ HL).
  - intros Hcd v h' clock uuid Hv.
    destruct (hello_is_no_request v h' Hv) as [Hreq Hid].
    cbn [step]. rewrite (onMessage_request P s id c hello) by assumption.
    unfold handleRequest. now rewrite Hreq, Hid.
Qed.

(* ===================================================================== *)
(** ** Counters and the stop flag *)
(* ===================================================================== *)

Lemma Mono_refl (s : State) : Mono s s.
Proof. split; auto; lia. Qed.

Lemma Mono_trans (s0 s1 s2 : State) : Mono s0 s1 -> Mono s1 s2 -> Mono s0 s2.
Proof. intros [A1 B1 C1 D1] [A2 B2 C2 D2]. split; auto; lia. Qed.

Lemma Mono_fields (s0 s s' : State) :
  seq s' = seq s -> presenceVersion s' = presenceVersion s ->
  healthVersion s' = healthVersion s -> stopped s' = stopped s ->
  Mono s0 s -> Mono s0 s'.
Proof. intros E1 E2 E3 E4 [A B C D]. split; rewrite ?E1, ?E2, ?E3, ?E4; trivial. Qed.

Lemma Mono_fold (s0 : State) (f : Socket -> Socket) (cs : list string) (s : State) :
  Mono s0 s -> Mono s0 (List.fold_left (fun s c => withSocket c f s) cs s).
Proof.
  revert s. induction cs as [|c cs IH]; intros s H; simpl; [exact H|].
  apply IH. now apply (Mono_fields s0 s).
Qed.

Lemma Mono_withSocket s0 id f s : Mono s0 s -> Mono s0 (withSocket id f s).
Proof. now apply Mono_fields. Qed.

Lemma Mono_respond s0 id rid ok payload error s :
  Mono s0 s -> Mono s0 (respond id rid ok payload error s).
Proof. now apply Mono_fields. Qed.

Lemma Mono_send s0 id f s : Mono s0 s -> Mono s0 (send id f s).
Proof. now apply Mono_fields. Qed.

Lemma Mono_await s0 call k s : Mono s0 s -> Mono s0 (await call k s).
Proof. now apply Mono_fields. Qed.

Lemma Mono_setSeq s0 n s : seq s <= n -> Mono s0 s -> Mono s0 (setSeq n s).
Proof. intros Hn [A B C D]. split; cbn; trivial. lia. Qed.

Lemma Mono_setPresenceVersion s0 n s :
  presenceVersion s <= n -> Mono s0 s -> Mono s0 (setPresenceVersion n s).
Proof. intros Hn [A B C D]. split; cbn; trivial. lia. Qed.

Lemma Mono_setHealthVersion s0 n s :
  healthVersion s <= n -> Mono s0 s -> Mono s0 (setHealthVersion n s).
Proof. intros Hn [A B C D]. split; cbn; trivial. lia. Qed.

Lemma Mono_setStopped s0 s : Mono s0 s -> Mono s0 (setStopped true s).
Proof. intros [A B C D]. split; cbn; trivial. Qed.

Lemma Mono_setEntries s0 e s : Mono s0 s -> Mono s0 (setEntries e s).
Proof. now apply Mono_fields. Qed.

Lemma Mono_setDedupe s0 d s : Mono s0 s -> Mono s0 (setDedupe d s).
Proof. now apply Mono_fields. Qed.

Lemma Mono_setSystemEvents s0 q s : Mono s0 s -> Mono s0 (setSystemEvents q s).
Proof. now apply Mono_fields. Qed.

Lemma Mono_setSuspended s0 l s : Mono s0 s -> Mono s0 (setSuspended l s).
Proof. now apply Mono_fields. Qed.

Lemma Mono_setClients s0 cs s : Mono s0 s -> Mono s0 (setClients cs s).
Proof. now apply Mono_fields. Qed.

Lemma Mono_setClient s0 id h s : Mono s0 s -> Mono s0 (setClient id h s).
Proof. now apply Mono_fields. Qed.

Lemma Mono_logError s0 s : Mono s0 s -> Mono s0 (logError s).
Proof. now apply Mono_fields. Qed.

Lemma Mono_listPresence s0 P t0 t1 t2 s :
  Mono s0 s -> Mono s0 (fst (listPresence P t0 t1 t2 s)).
Proof. now apply Mono_fields. Qed.

Lemma Mono_buildSnapshot s0 P t0 t1 t2 s :
  Mono s0 s -> Mono s0 (fst (buildSnapshot P t0 t1 t2 s)).
Proof. now apply Mono_fields. Qed.

Lemma Mono_broadcast s0 event payload dropIfSlow sv s :
  Mono s0 s -> Mono s0 (broadcast event payload dropIfSlow sv s).
Proof.
  intros H. unfold broadcast. cbv zeta. apply Mono_fold, Mono_setSeq; [lia|exact H].
Qed.

Lemma Mono_broadcastPresence s0 P t0 t1 t2 s :
  Mono s0 s -> Mono s0 (broadcastPresence P t0 t1 t2 s).
Proof. intros H. unfold broadcastPresence. now apply Mono_broadcast, Mono_listPresence. Qed.

Lemma Mono_close s0 id s : Mono s0 s -> Mono s0 (close id s).
Proof.
  intros H. unfold close. destruct (conns s !! id) as [c|]; [|exact H].
  destruct (closed c); [exact H|].
  destruct (client c); now apply (Mono_fields s0 s).
Qed.

Lemma Mono_rejectHello s0 id reason expected c closeReason s :
  Mono s0 s -> Mono s0 (rejectHello id reason expected c closeReason s).
Proof.
  intros H. unfold rejectHello. cbv zeta.
  now apply Mono_close, Mono_withSocket, Mono_send.
Qed.

Ltac mono_step :=
  first
    [ assumption | apply Mono_refl
    | apply Mono_respond | apply Mono_send | apply Mono_await
    | apply Mono_setSeq; [cbn; lia|]
    | apply Mono_setPresenceVersion; [cbn; lia|]
    | apply Mono_setHealthVersion; [cbn; lia|]
    | apply Mono_setStopped | apply Mono_setEntries | apply Mono_setDedupe
    | apply Mono_setSystemEvents | apply Mono_setSuspended | apply Mono_setClients
    | apply Mono_setClient | apply Mono_logError
    | apply Mono_listPresence | apply Mono_buildSnapshot
    | apply Mono_broadcastPresence | apply Mono_broadcast
    | apply Mono_close | apply Mono_rejectHello | apply Mono_withSocket
    | match goal with
      | |- Mono _ (match ?x with _ => _ end) => destruct x eqn:?
      end ].

Ltac mono_auto := cbv zeta; repeat mono_step.

Lemma Mono_step (P : Platform) (s : State) (l : Label) : Mono s (step P s l).
Proof.
  destruct l; cbn [step].
  - unfold onConnection. destruct (stopped s); [apply Mono_refl|].
    destruct (conns s !! connId); [apply Mono_refl|].
    apply (Mono_fields s s); trivial. apply Mono_refl.
  - unfold onMessage, handleHello, handleRequest, handleSystemEvent, handleSend, handleAgent.
    mono_auto.
  - unfold resume. destruct (suspended s !! i) as [k|]; [|apply Mono_refl].
    destruct (continue P k o now _) as [s'|] eqn:E; [|apply Mono_refl].
    revert E. unfold continue. destruct k, o; intros [= <-]; mono_auto.
  - unfold onSocketClose. mono_auto.
  - unfold onSocketError. mono_auto.
  - unfold onHandshakeTimeout. mono_auto.
  - unfold onTick. mono_auto.
  - unfold onDedupeCleanup. mono_auto.
  - unfold onAgentEvent. mono_auto.
  - mono_auto.
  - unfold serverClose. cbv zeta. apply Mono_setClients, Mono_fold. mono_auto.
Qed.

Lemma Mono_run (P : Platform) (ls : list Label) (s : State) : Mono s (run P s ls).
Proof.
  revert s. induction ls as [|l ls IH]; intros s; simpl; [apply Mono_refl|].
  eapply Mono_trans; [apply Mono_step|apply IH].
Qed.

(* ===================================================================== *)
(** ** Shutdown, keepalive and the counters *)
(* ===================================================================== *)

Lemma socketOf_foldSocket (f : Socket -> Socket) (cs : list string) (s : State)
    (id : string) :
  NoDup cs ->
  socketOf id (List.fold_left (fun s c => withSocket c f s) cs s)
  = if decide (id ∈ cs) then option_map f (socketOf id s) else socketOf id s.
Proof.
  intros Hnd. unfold socketOf. rewrite fold_withSocket. cbn [conns setConns].
  rewrite lookup_fold_alter by exact Hnd.
  destruct (decide (id ∈ cs)); [|reflexivity]. now destruct (conns s !! id).
Qed.

(** X15: the counters [seq], [presenceVersion] and [healthVersion] never
    decrease, whatever the server does; and once the server has been
    stopped it stays stopped: its timers, the agent-event subscription and
    the listener do nothing any more. *)
Theorem counters_never_decrease (P : Platform) (s : State) (ls : list Label) :
  let s' := run P s ls in
  seq s <= seq s'
  /\ presenceVersion s <= presenceVersion s'
  /\ healthVersion s <= healthVersion s'
  /\ (stopped s = true ->
      stopped s' = true
      /\ forall now evt connId,
           step P s' (Tick now) = s' /\ step P s' (DedupeCleanup now) = s'
           /\ step P s' (AgentEvent evt) = s' /\ step P s' (Connection connId) = s').
Proof.
  cbv zeta. destruct (Mono_run P ls s) as [H1 H2 H3 H4]. repeat split; trivial.
  - now apply H4.
  - cbn [step]. unfold onTick. now rewrite H4.
  - cbn [step]. unfold onDedupeCleanup. now rewrite H4.
  - cbn [step]. unfold onAgentEvent. now rewrite H4.
  - cbn [step]. unfold onConnection. now rewrite H4.
Qed.

(** X16: [close()] of the server takes one sequence number for a [shutdown]
    event, stops the server and empties the clients set.  Each client gets
    the event and is then closed with 1012 ["service restart"]; a client
    above the high-water mark gets no event and is closed with 1008
    ["slow consumer"] instead, the code of the first close being the one
    that counts.  Connections that are not clients are left as they are. *)
Theorem serverClose_closes_clients (P : Platform) (s : State) :
  reachable P s ->
  let s' := step P s ServerClose in
  seq s' = seq s + 1 /\ stopped s' = true /\ clients s' = []
  /\ (forall id,
        socketOf id s'
        = if decide (id ∈ clients s)
          then option_map
                 (fun k => sockClose 1012 (Some "service restart")
                             (deliver false (shutdownEvent (seq s + 1)) k))
                 (socketOf id s)
          else socketOf id s)
  /\ (forall id k k',
        id ∈ clients s -> socketOf id s = Some k -> socketOf id s' = Some k' ->
        readyState k = OPEN ->
        readyState k' = CLOSING
        /\ if MAX_BUFFERED_BYTES <? bufferedAmount k
           then outbound k' = outbound k
                /\ closeSent k' = Some (1008, Some "slow consumer")
           else outbound k' = outbound k ++ [shutdownEvent (seq s + 1)]
                /\ closeSent k' = Some (1012, Some "service restart")).
Proof.
  intros Hr s'. pose proof (reachable_Inv P s Hr) as [Hnd _].
  assert (Hsock : forall id,
            socketOf id s'
            = if decide (id ∈ clients s)
              then option_map
                     (fun k => sockClose 1012 (Some "service restart")
                                 (deliver false (shutdownEvent (seq s + 1)) k))
                     (socketOf id s)
              else socketOf id s).
  { intros id. subst s'. cbn [step]. unfold serverClose. cbv zeta.
    change (socketOf id (setClients [] ?x)) with (socketOf id x).
    rewrite broadcast_eq. cbn [clients setStopped setConns setSeq].
    rewrite socketOf_foldSocket by exact Hnd.
    change (socketOf id (setStopped true ?x)) with (socketOf id x).
    rewrite <- broadcast_eq. rewrite socketOf_broadcast by exact Hnd.
    destruct (decide (id ∈ clients s)); [|reflexivity].
    now destruct (socketOf id s). }
  split; [|split; [|split; [|split]]].
  - subst s'. cbn [step]. unfold serverClose. cbv zeta. rewrite broadcast_eq.
    cbn [seq setClients]. rewrite fold_withSocket. reflexivity.
  - subst s'. cbn [step]. unfold serverClose. cbv zeta.
    cbn [stopped setClients]. rewrite fold_withSocket. reflexivity.
  - reflexivity.
  - exact Hsock.
  - intros id k k' Hin Hk Hk' Hopen. rewrite Hsock, Hk in Hk'.
    destruct (decide (id ∈ clients s)); [|contradiction]. cbn in Hk'.
    injection Hk' as <-. destruct k as [rs ba ob cs]. cbn in Hopen. subst rs.
    unfold deliver. cbv zeta. cbn [bufferedAmount].
    destruct (MAX_BUFFERED_BYTES <? ba); cbn; auto.
Qed.

(** X17: a keepalive tick takes one sequence number and writes one [tick]
    event, carrying the time of the tick, to every client whose socket is
    open and not above the high-water mark.  It closes nobody: a client
    above the mark is passed over, and no socket changes otherwise. *)
Theorem tick_reaches_fast_clients (P : Platform) (s : State) (now : Z) :
  reachable P s -> stopped s = false ->
  let s' := step P s (Tick now) in
  seq s' = seq s + 1
  /\ clients s' = clients s
  /\ dedupe s' = dedupe s /\ entries s' = entries s
  /\ presenceVersion s' = presenceVersion s
  /\ forall id k,
       socketOf id s = Some k ->
       socketOf id s'
       = Some (if decide (id ∈ clients s)
               then if MAX_BUFFERED_BYTES <? bufferedAmount k then k
                    else sockSend (tickEvent now (seq s + 1)) k
               else k).
Proof.
  intros Hr Hst s'. pose proof (reachable_Inv P s Hr) as [Hnd _].
  subst s'. cbn [step]. unfold onTick. rewrite Hst.
  split; [|split; [|split; [|split; [|split]]]];
    try (rewrite broadcast_eq; reflexivity).
  intros id k Hk. rewrite socketOf_broadcast by exact Hnd. rewrite Hk.
  destruct (decide (id ∈ clients s)); [|reflexivity].
  cbn [option_map]. unfold deliver. cbv zeta.
  now destruct (MAX_BUFFERED_BYTES <? bufferedAmount k).
Qed.

(* ===================================================================== *)
(** ** One answer per request *)
(* ===================================================================== *)

Lemma responses_app (l k : list Frame) : responses (l ++ k) = responses l ++ responses k.
Proof. unfold responses. apply List.filter_app. Qed.

Lemma Quiet_refl (s : State) : Quiet s s.
Proof. now split. Qed.

Lemma Quiet_fields (s0 s s' : State) :
  conns s' = conns s -> suspended s' = suspended s -> portCalls s' = portCalls s ->
  Quiet s0 s -> Quiet s0 s'.
Proof.
  intros Hc Hs Hp [Q1 Q2 Q3 Q4]. split; try congruence.
  - intros id. unfold outboundOf. rewrite Hc. apply Q3.
  - intros id. unfold socketOf. rewrite Hc. apply Q4.
Qed.

Lemma calm_sockSend_event (e : string) (p : json) (n : Z) (sv : option StateVersion) :
  calm (sockSend (FEvent e p n sv)).
Proof.
  intros k. unfold sockSend. destruct (readyState k) eqn:E; cbn; rewrite ?E; split; trivial.
  rewrite responses_app. cbn. apply app_nil_r.
Qed.

Lemma calm_deliver_drop (e : string) (p : json) (n : Z) (sv : option StateVersion) :
  calm (deliver true (FEvent e p n sv)).
Proof.
  intros k. unfold deliver. cbv zeta.
  destruct (MAX_BUFFERED_BYTES <? bufferedAmount k); cbn [andb]; [now split|].
  apply calm_sockSend_event.
Qed.

Lemma Quiet_withSocket (s0 : State) (id : string) (f : Socket -> Socket) (s : State) :
  calm f -> Quiet s0 s -> Quiet s0 (withSocket id f s).
Proof.
  intros Hf [Q1 Q2 Q3 Q4]. split; trivial.
  - intros id'. rewrite outboundOf_withSocket. rewrite <- Q3.
    destruct (decide (id = id')) as [->|]; [|reflexivity].
    unfold outboundOf. destruct (conns s !! id'); [|reflexivity]. apply Hf.
  - intros id'. rewrite socketOf_withSocket. rewrite <- Q4.
    destruct (decide (id = id')) as [->|]; [|reflexivity].
    destruct (socketOf id' s); [|reflexivity]. cbn. f_equal. apply Hf.
Qed.

Lemma Quiet_fold (s0 : State) (f : Socket -> Socket) (cs : list string) (s : State) :
  calm f -> Quiet s0 s -> Quiet s0 (List.fold_left (fun s c => withSocket c f s) cs s).
Proof.
  intros Hf. revert s. induction cs as [|c cs IH]; intros s H; simpl; [exact H|].
  now apply IH, Quiet_withSocket.
Qed.

Lemma Quiet_broadcastPresence (s0 : State) (P : Platform) (t0 t1 t2 : Z) (s : State) :
  Quiet s0 s -> Quiet s0 (broadcastPresence P t0 t1 t2 s).
Proof.
  intros H. unfold broadcastPresence, broadcast. cbv zeta.
  apply Quiet_fold; [apply calm_deliver_drop|]. now apply (Quiet_fields s0 s).
Qed.

(** The handler answers: one [res] on the connection, nothing else. *)
Lemma Quiet_respond (s0 s : State) (connId rid : string) (ok : bool)
    (payload : option json) (error : option ErrorShape) (k : Socket) :
  Quiet s0 s -> socketOf connId s0 = Some k -> readyState k = OPEN ->
  let s' := respond connId rid ok payload error s in
  responses (outboundOf connId s')
  = responses (outboundOf connId s0) ++ [FRes (JStr rid) ok payload error]
  /\ (forall id, id <> connId ->
        responses (outboundOf id s') = responses (outboundOf id s0))
  /\ suspended s' = suspended s0 /\ portCalls s' = portCalls s0.
Proof.
  intros [Q1 Q2 Q3 Q4] Hk Hopen s'. subst s'. unfold respond, send.
  split; [|split; [|split; assumption]].
  - rewrite outboundOf_withSocket. rewrite decide_True by reflexivity.
    specialize (Q4 connId). rewrite Hk in Q4. cbn in Q4. rewrite <- Q3.
    unfold socketOf in Q4. unfold outboundOf.
    destruct (conns s !! connId) as [c|]; [|discriminate]. cbn in Q4.
    unfold sockSend. injection Q4 as Q4. rewrite Q4, Hopen. cbn.
    rewrite responses_app. reflexivity.
  - intros id Hne. rewrite outboundOf_withSocket. rewrite decide_False by congruence.
    apply Q3.
Qed.

(** The handler waits for a port. *)
Lemma Quiet_await (s0 s : State) (call : PortCall) (k : Suspended) :
  Quiet s0 s ->
  let s' := await call k s in
  (forall id, responses (outboundOf id s') = responses (outboundOf id s0))
  /\ suspended s' = suspended s0 ++ [k] /\ portCalls s' = portCalls s0 ++ [call].
Proof.
  intros [Q1 Q2 Q3 Q4] s'. subst s'. unfold await.
  cbn [suspended portCalls setSuspended setPortCalls]. rewrite Q1, Q2.
  repeat split. intros id. apply Q3.
Qed.

Lemma Quiet_setSeq s0 n s : Quiet s0 s -> Quiet s0 (setSeq n s).
Proof. now apply Quiet_fields. Qed.

Lemma Quiet_setSystemEvents s0 q s : Quiet s0 s -> Quiet s0 (setSystemEvents q s).
Proof. now apply Quiet_fields. Qed.

Lemma Quiet_setPresenceVersion s0 n s : Quiet s0 s -> Quiet s0 (setPresenceVersion n s).
Proof. now apply Quiet_fields. Qed.

Lemma Quiet_listPresence s0 P t0 t1 t2 s :
  Quiet s0 s -> Quiet s0 (fst (listPresence P t0 t1 t2 s)).
Proof. now apply Quiet_fields. Qed.

Ltac quiet_step :=
  first
    [ apply Quiet_refl
    | apply Quiet_broadcastPresence
    | apply Quiet_withSocket; [apply calm_sockSend_event|]
    | apply Quiet_setSeq | apply Quiet_setSystemEvents
    | apply Quiet_setPresenceVersion | apply Quiet_listPresence ].

(** X18: a request frame that passes [validateRequestFrame], arriving on a
    connection that has a client and an open socket, is either answered at
    once, by one [res] with the id of the request, without any port being
    called; or it calls one port and leaves one handler suspended that will
    answer that connection with that id.  The first is the case for
    [system-presence], [system-event], [set-heartbeats], unknown methods,
    [send] and [agent] with invalid params or a cached outcome; the second
    for [health], [status] and a [send] or [agent] that is not cached.  The
    one exception is a [system-event] whose text cannot be converted to a
    string: it is neither answered nor suspended, the error is logged and
    the state is otherwise the same.  No other connection is written a
    [res]. *)
Theorem request_is_answered_or_suspended (P : Platform) (s : State) (connId : string)
    (c : Conn) (hello : Hello) (v : json) (req : RequestFrame) (clock : nat -> Z)
    (uuid : string) :
  conns s !! connId = Some c -> closed c = false -> client c = Some hello ->
  readyState (socket c) = OPEN ->
  validateRequestFrame v = Some req ->
  let s' := step P s (Message connId (Some v) clock uuid) in
  let unanswered :=
    String.eqb (req_method req) "system-event" && systemEventThrows (req_params req) in
  let async :=
    String.eqb (req_method req) "health" || String.eqb (req_method req) "status"
    || match requestKey req with
       | Some key => match JsMap.get key (dedupe s) with Some _ => false | None => true end
       | None => false
       end in
  (forall id, id <> connId ->
     responses (outboundOf id s') = responses (outboundOf id s))
  /\ if unanswered
     then s' = logError s
          /\ responses (outboundOf connId s') = responses (outboundOf connId s)
          /\ suspended s' = suspended s /\ portCalls s' = portCalls s
          /\ logged s' = S (logged s)
     else if async
     then responses (outboundOf connId s') = responses (outboundOf connId s)
          /\ exists k call,
               suspended s' = suspended s ++ [k] /\ portCalls s' = portCalls s ++ [call]
               /\ connOf k = connId /\ idOf k = req_id req
     else suspended s' = suspended s /\ portCalls s' = portCalls s
          /\ exists ok payload error,
               responses (outboundOf connId s')
               = responses (outboundOf connId s) ++ [FRes (JStr (req_id req)) ok payload error].
Proof.
  intros Hc Hclosed Hclient Hopen Hv s' unanswered async.
  assert (Hk : socketOf connId s = Some (socket c)) by now apply socketOf_Some.
  assert (Hs' : s' = handleRequest P connId v clock uuid s).
  { subst s'. cbn [step]. now apply (onMessage_request P s connId c hello). }
  enough (Hcase :
            (unanswered = true /\ s' = logError s)
            \/ (unanswered = false /\ async = true
                /\ exists s1 call k,
                     Quiet s s1 /\ connOf k = connId /\ idOf k = req_id req
                     /\ s' = await call k s1)
            \/ (unanswered = false /\ async = false
                /\ exists s1 ok payload error,
                     Quiet s s1 /\ s' = respond connId (req_id req) ok payload error s1)).
  { destruct Hcase as [[-> ->]
                      |[(-> & -> & s1 & call & k & HQ & Hck & Hik & ->)
                       |(-> & -> & s1 & ok & payload & error & HQ & ->)]].
    - repeat split.
    - destruct (Quiet_await s s1 call k HQ) as (R1 & R2 & R3).
      split; [intros id _; apply R1|]. split; [apply R1|]. exists k, call. auto.
    - destruct (Quiet_respond s s1 connId (req_id req) ok payload error (socket c)
                  HQ Hk Hopen) as (R1 & R2 & R3 & R4).
      split; [exact R2|]. split; [exact R3|]. split; [exact R4|]. eauto. }
  rewrite Hs'. clear Hs'. subst unanswered async. unfold handleRequest, requestKey.
  rewrite Hv. cbv zeta.
  destruct (String.eqb_spec (req_method req) "health") as [Hm|Hm1].
  { right; left. split; [now rewrite Hm|]. split; [reflexivity|]. do 3 eexists.
    split; [|split; [|split; [|reflexivity]]]; [|reflexivity|reflexivity].
    apply Quiet_refl. }
  destruct (String.eqb_spec (req_method req) "status") as [Hm|Hm2].
  { right; left. split; [now rewrite Hm|]. split; [reflexivity|]. do 3 eexists.
    split; [|split; [|split; [|reflexivity]]]; [|reflexivity|reflexivity].
    apply Quiet_refl. }
  destruct (String.eqb_spec (req_method req) "system-presence") as [Hm|Hm3].
  { right; right. rewrite Hm. split; [reflexivity|]. split; [reflexivity|]. do 4 eexists.
    split; [|reflexivity]. repeat quiet_step. }
  destruct (String.eqb_spec (req_method req) "system-event") as [Hm|Hm4].
  { unfold handleSystemEvent. cbv zeta. cbn [andb].
    destruct (systemEventThrows (req_params req)).
    { left. split; reflexivity. }
    right; right. rewrite Hm. split; [reflexivity|]. split; [reflexivity|].
    destruct (negb (truthy _)); do 4 eexists; (split; [|reflexivity]); repeat quiet_step. }
  cbn [andb].
  destruct (String.eqb_spec (req_method req) "set-heartbeats") as [Hm|Hm5].
  { right; right. rewrite Hm. split; [reflexivity|]. split; [reflexivity|]. do 4 eexists.
    split; [|reflexivity]. repeat quiet_step. }
  destruct (String.eqb_spec (req_method req) "send") as [Hm|Hm6].
  { unfold handleSend. cbv zeta. cbn [orb].
    destruct (validateSendParams _) as [params|]; cbn [option_map].
    - destruct (JsMap.get _ (dedupe s)) as [cached|].
      + right; right. split; [reflexivity|]. split; [reflexivity|]. do 4 eexists.
        split; [|reflexivity]. repeat quiet_step.
      + right; left. split; [reflexivity|]. split; [reflexivity|]. do 3 eexists.
        split; [|split; [|split; [|reflexivity]]]; [|reflexivity|reflexivity].
        apply Quiet_refl.
    - right; right. split; [reflexivity|]. split; [reflexivity|]. do 4 eexists.
      split; [|reflexivity]. repeat quiet_step. }
  destruct (String.eqb_spec (req_method req) "agent") as [Hm|Hm7].
  { unfold handleAgent. cbv zeta. cbn [orb].
    destruct (validateAgentParams _) as [params|]; cbn [option_map].
    - destruct (JsMap.get _ (dedupe s)) as [cached|].
      + right; right. split; [reflexivity|]. split; [reflexivity|]. do 4 eexists.
        split; [|reflexivity]. repeat quiet_step.
      + right; left. split; [reflexivity|]. split; [reflexivity|]. do 3 eexists.
        split; [|split; [|split; [|reflexivity]]]; [|reflexivity|reflexivity].
        repeat quiet_step.
    - right; right. split; [reflexivity|]. split; [reflexivity|]. do 4 eexists.
      split; [|reflexivity]. repeat quiet_step. }
  right; right. split; [reflexivity|]. split; [reflexivity|]. do 4 eexists.
  split; [|reflexivity]. repeat quiet_step.
Qed.

Lemma outboundOf_send_open (connId : string) (f : Frame) (s : State) (k : Socket) :
  socketOf connId s = Some k -> readyState k = OPEN ->
  outboundOf connId (send connId f s) = outboundOf connId s ++ [f]
  /\ forall id, id <> connId -> outboundOf id (send connId f s) = outboundOf id s.
Proof.
  intros Hk Hopen. unfold send. split.
  - rewrite outboundOf_withSocket, decide_True by reflexivity.
    unfold socketOf in Hk. unfold outboundOf.
    destruct (conns s !! connId) as [c|]; [|discriminate]. cbn in Hk.
    injection Hk as ->. unfold sockSend. now rewrite Hopen.
  - intros id Hne. rewrite outboundOf_withSocket. now rewrite decide_False by congruence.
Qed.

(** X19: when the port a suspended handler waits for settles, the handler
    is gone from the suspended ones and no port is called.  If the
    connection's socket is open, the handler writes one frame to it and
    none to any other connection: the [hello-ok] of a handshake, or the
    [res] with the id of the request, ok exactly when the port did not
    throw.  The exception is a health or status lookup that throws, for the
    handshake or for a [health] or [status] request: the error is logged
    and no frame is written, so such a request is never answered. *)
Theorem settle_answers_once (P : Platform) (s : State) (i : nat) (k : Suspended)
    (o : Outcome) (now : Z) (sock : Socket) :
  suspended s !! i = Some k -> settles k o = true ->
  socketOf (connOf k) s = Some sock -> readyState sock = OPEN ->
  let s' := step P s (Settle i o now) in
  let threw := match o with Threw _ => true | _ => false end in
  let lookup :=
    match k with
    | AwaitHelloHealth _ _ | AwaitHealth _ _ | AwaitStatus _ _ => true
    | _ => false
    end in
  suspended s' = delete i (suspended s)
  /\ portCalls s' = portCalls s
  /\ (forall id, id <> connOf k -> outboundOf id s' = outboundOf id s)
  /\ if lookup && threw
     then outboundOf (connOf k) s' = outboundOf (connOf k) s
          /\ logged s' = S (logged s)
     else exists frame,
            outboundOf (connOf k) s' = outboundOf (connOf k) s ++ [frame]
            /\ match k with
               | AwaitHelloHealth _ _ => exists h, frame = FHelloOk h
               | _ =>
                   exists payload error,
                     frame = FRes (JStr (idOf k)) (negb threw) payload error
               end.
Proof.
  intros Hk Hset Hsock Hopen s' threw lookup.
  subst s' threw lookup. cbn [step]. unfold resume. rewrite Hk.
  set (s0 := setSuspended (delete i (suspended s)) s).
  assert (Hsock0 : socketOf (connOf k) s0 = Some sock) by exact Hsock.
  assert (Hsend : forall f s1,
            conns s1 = conns s0 -> suspended s1 = suspended s0 ->
            portCalls s1 = portCalls s0 ->
            suspended (send (connOf k) f s1) = delete i (suspended s)
            /\ portCalls (send (connOf k) f s1) = portCalls s
            /\ (forall id, id <> connOf k ->
                  outboundOf id (send (connOf k) f s1) = outboundOf id s)
            /\ outboundOf (connOf k) (send (connOf k) f s1)
               = outboundOf (connOf k) s ++ [f]).
  { intros f s1 Hc1 Hs1 Hp1.
    assert (Hsock1 : socketOf (connOf k) s1 = Some sock).
    { unfold socketOf. rewrite Hc1. exact Hsock0. }
    destruct (outboundOf_send_open (connOf k) f s1 sock Hsock1 Hopen) as [E1 E2].
    assert (Hout : forall id, outboundOf id s1 = outboundOf id s).
    { intros id. unfold outboundOf. now rewrite Hc1. }
    repeat split.
    - cbn [suspended send withSocket setConns]. now rewrite Hs1.
    - cbn [portCalls send withSocket setConns]. now rewrite Hp1.
    - intros id Hne. rewrite E2 by exact Hne. apply Hout.
    - rewrite E1. now rewrite Hout. }
  destruct k as [c snap|c rid|c rid|c rid idem to|c rid idem runId];
    destruct o as [v|r| |err]; try discriminate Hset;
    cbn [continue connOf idOf andb negb] in *; unfold respond.
  - edestruct (Hsend (FHelloOk (helloOk P c (withHealth snap v (healthVersion s0 + 1))))
                 (setHealthVersion (healthVersion s0 + 1) s0)) as (E1 & E2 & E3 & E4);
      try reflexivity.
    split; [exact E1|]. split; [exact E2|]. split; [exact E3|]. eauto.
  - repeat split.
  - edestruct (Hsend (FRes (JStr rid) true (Some v) None)
                 (setHealthVersion (healthVersion s0 + 1) s0)) as (E1 & E2 & E3 & E4);
      try reflexivity.
    split; [exact E1|]. split; [exact E2|]. split; [exact E3|]. eauto.
  - repeat split.
  - edestruct (Hsend (FRes (JStr rid) true (Some v) None) s0) as (E1 & E2 & E3 & E4);
      try reflexivity.
    split; [exact E1|]. split; [exact E2|]. split; [exact E3|]. eauto.
  - repeat split.
  - match goal with
    | |- context [send c ?f ?s1] =>
        edestruct (Hsend f s1) as (E1 & E2 & E3 & E4); try reflexivity
    end.
    split; [exact E1|]. split; [exact E2|]. split; [exact E3|]. eauto.
  - match goal with
    | |- context [send c ?f ?s1] =>
        edestruct (Hsend f s1) as (E1 & E2 & E3 & E4); try reflexivity
    end.
    split; [exact E1|]. split; [exact E2|]. split; [exact E3|]. eauto.
  - match goal with
    | |- context [send c ?f ?s1] =>
        edestruct (Hsend f s1) as (E1 & E2 & E3 & E4); try reflexivity
    end.
    split; [exact E1|]. split; [exact E2|]. split; [exact E3|]. eauto.
  - match goal with
    | |- context [send c ?f ?s1] =>
        edestruct (Hsend f s1) as (E1 & E2 & E3 & E4); try reflexivity
    end.
    split; [exact E1|]. split; [exact E2|]. split; [exact E3|]. eauto.
Qed.

(* ===================================================================== *)
(** ** A client goes away *)
(* ===================================================================== *)

Lemma deliver_drop_closed (f : Frame) (k : Socket) :
  deliver true f (sockClosed k) = sockClosed k.
Proof.
  unfold deliver. cbv zeta.
  now destruct (MAX_BUFFERED_BYTES <? bufferedAmount (sockClosed k)).
Qed.

Lemma close_eq (s : State) (connId : string) (c : Conn) :
  conns s !! connId = Some c -> closed c = false ->
  close connId s
  = setConns
      (<[connId := {| socket := sockClose 1000 None (socket c); client := client c;
                      closed := true |}]> (conns s))
      (match client c with
       | Some _ => setClients (deleteClient connId (clients s)) s
       | None => s
       end).
Proof. intros Hc Hcd. unfold close. rewrite Hc, Hcd. now destruct (client c). Qed.

(** X20: when the socket of a client closes, the server upserts the reason
    [disconnect] into the client's presence entry, increments
    [presenceVersion], takes one sequence number and broadcasts the
    presence list, with the new versions, to the clients, passing over
    those above the high-water mark; then it takes the connection out of
    the clients set and marks it closed.  The entry is not deleted: while
    it is fresh and the registry below its cap, the list broadcast still
    holds it, with the reason [disconnect]. *)
Theorem client_disconnect (P : Platform) (s : State) (connId : string) (c : Conn)
    (hello : Hello) (clock : nat -> Z) :
  reachable P s ->
  conns s !! connId = Some c -> client c = Some hello -> closed c = false ->
  readyState (socket c) <> CLOSED ->
  let key := orStr (client_instanceId hello) connId in
  let r := goodbyePresence P connId hello clock (entries s) in
  let ev :=
    FEvent "presence" (JObj [("presence", presenceListJson (snd r))]) (seq s + 1)
      (Some {| sv_presence := presenceVersion s + 1; sv_health := healthVersion s |}) in
  let s' := step P s (SocketClose connId clock) in
  presenceVersion s' = presenceVersion s + 1
  /\ seq s' = seq s + 1
  /\ entries s' = fst r
  /\ clients s' = deleteClient connId (clients s)
  /\ ~ In connId (clients s')
  /\ conns s' !! connId
     = Some {| socket := sockClosed (socket c); client := Some hello; closed := true |}
  /\ (forall id, id <> connId ->
        socketOf id s'
        = if decide (id ∈ clients s)
          then option_map (deliver true ev) (socketOf id s)
          else socketOf id s)
  /\ (JsMap.size (entries s) < MAX_ENTRIES -> clock 3%nat - clock 1%nat <= TTL_MS ->
      exists e, JsMap.get key (fst r) = Some e /\ In e (snd r)
                /\ reason e = Some "disconnect").
Proof.
  intros Hr Hc Hcl Hcd Hrs key r ev s'.
  pose proof (reachable_Inv P s Hr) as [Hnd _].
  set (s1 := withSocket connId sockClosed s).
  set (s2 := setPresenceVersion (presenceVersion s + 1)
               (setEntries
                  (upsertPresence P key disconnectPatch (clock 0%nat) (clock 1%nat)
                     (entries s)) s1)).
  set (s3 := broadcastPresence P (clock 2%nat) (clock 3%nat) (clock 4%nat) s2).
  assert (Hs' : s' = close connId s3).
  { subst s'. cbn [step]. unfold onSocketClose. rewrite Hc, Hcl.
    destruct (readyState (socket c)); [reflexivity|reflexivity|contradiction]. }
  assert (Hs3 : s3 = broadcast "presence" (JObj [("presence", presenceListJson (snd r))])
                       true
                       (Some {| sv_presence := presenceVersion s + 1;
                                sv_health := healthVersion s |})
                       (setEntries (fst r) s2)) by reflexivity.
  assert (Hsock3 : forall id,
            socketOf id s3
            = if decide (id ∈ clients s)
              then option_map (deliver true ev) (socketOf id s1)
              else socketOf id s1).
  { intros id. rewrite Hs3. rewrite socketOf_broadcast by exact Hnd. reflexivity. }
  assert (Hsock1 : forall id,
            socketOf id s1
            = if decide (connId = id) then Some (sockClosed (socket c)) else socketOf id s).
  { intros id. subst s1. rewrite socketOf_withSocket.
    destruct (decide (connId = id)) as [<-|]; [|reflexivity].
    unfold socketOf. now rewrite Hc. }
  assert (Hc3 : conns s3 !! connId
                = Some {| socket := sockClosed (socket c); client := Some hello;
                          closed := false |}).
  { rewrite Hs3. rewrite broadcast_lookup by exact Hnd.
    cbn [conns clients setEntries setPresenceVersion s2 s1 withSocket setConns].
    rewrite lookup_alter_eq, Hc. cbn [fmap option_fmap option_map onSocket socket].
    unfold onSocket. cbn [socket client closed]. rewrite Hcl, Hcd.
    destruct (decide (connId ∈ clients s)); [|reflexivity].
    now rewrite deliver_drop_closed. }
  assert (Hfin : s' = setConns
                         (<[connId := {| socket := sockClosed (socket c);
                                         client := Some hello; closed := true |}]>
                            (conns s3))
                         (setClients (deleteClient connId (clients s3)) s3)).
  { rewrite Hs'. now rewrite (close_eq s3 connId _ Hc3). }
  clearbody s'. clear Hs'. subst s'.
  assert (Hf3 : seq s3 = seq s + 1 /\ presenceVersion s3 = presenceVersion s + 1
                /\ entries s3 = fst r /\ clients s3 = clients s).
  { rewrite Hs3, broadcast_eq. repeat split. }
  destruct Hf3 as (F1 & F2 & F3 & F4).
  cbn [presenceVersion seq entries clients conns setConns setClients].
  rewrite F1, F2, F3, F4.
  split; [reflexivity|]. split; [reflexivity|]. split; [reflexivity|].
  split; [reflexivity|]. split; [|split; [|split]].
  - intros Hin. apply In_deleteClient in Hin. now destruct Hin.
  - now rewrite lookup_insert_eq.
  - intros id Hne. unfold socketOf at 1. cbn [conns setConns].
    assert (Hne' : connId <> id) by (intros Heq; apply Hne; now symmetry).
    rewrite lookup_insert_ne by exact Hne'.
    change (option_map socket (conns s3 !! id)) with (socketOf id s3).
    rewrite Hsock3, Hsock1. now rewrite (decide_False (P := connId = id)) by exact Hne'.
  - intros Hsize Hclock. subst r. unfold goodbyePresence. fold key.
    set (up := upsertPresence P key disconnectPatch (clock 0%nat) (clock 1%nat) (entries s)).
    assert (Hne : up <> []) by (subst up; unfold upsertPresence; apply set_nonempty).
    assert (Hup : exists m, JsMap.get key up = Some m /\ ts m = clock 1%nat
                            /\ reason m = Some "disconnect").
    { subst up. unfold upsertPresence. cbv zeta. eexists. split; [apply get_set_eq|].
      repeat split. }
    destruct Hup as (m & Hget & Hts & Hre).
    assert (Hsz : JsMap.size (ensureSelfPresence P (clock 2%nat) up) <= MAX_ENTRIES).
    { rewrite ensureSelfPresence_nonempty by exact Hne.
      subst up. unfold upsertPresence. cbv zeta.
      etransitivity; [apply size_set_le|].
      unfold ensureSelfPresence. destruct (entries s) as [|kv es'].
      - unfold initSelfPresence, JsMap.size, MAX_ENTRIES. simpl. lia.
      - unfold JsMap.size, MAX_ENTRIES in *. simpl in *. lia. }
    destruct (listSystemPresence_get_fresh P (clock 2%nat) (clock 3%nat) (clock 4%nat)
                up key m) as [Hg Hin].
    + exact Hsz.
    + now rewrite ensureSelfPresence_nonempty.
    + rewrite Hts. exact Hclock.
    + eexists. split; [exact Hg|]. split; [exact Hin|].
      destruct (String.eqb key (selfKey P)); exact Hre.
Qed.

(* ===================================================================== *)
(** ** A request from the client to the server and back *)
(* ===================================================================== *)

(** X26: client and server together, for the two kinds of request the
    server answers without a port or the registry.  A request the client
    makes on an open socket reaches the server as a valid frame; for
    [set-heartbeats] the server answers ok with [{ok: true}] and the
    client resolves the promise with that payload; for a method the server
    does not know it answers with [INVALID_REQUEST] and the client rejects
    the promise with the message ["unknown method: <method>"].  Either way
    one [res] is written, the server's state is otherwise unchanged, and
    the request is pending no longer. *)
Theorem request_round_trip (P : Platform) (s : State) (connId : string) (c : Conn)
    (hello : Hello) (cl : Client.GatewayClient) (id method : string)
    (params : option json) (expectFinal : bool) (clock : nat -> Z) (uuid : string) :
  conns s !! connId = Some c -> closed c = false -> client c = Some hello ->
  readyState (socket c) = OPEN ->
  Client.ws cl = true -> NoDup (JsMap.keys (Client.pending cl)) ->
  id <> "" -> method <> "" ->
  method = "set-heartbeats" \/ ~ In method METHODS ->
  let res :=
    if String.eqb method "set-heartbeats"
    then FRes (JStr id) true (Some okPayload) None
    else FRes (JStr id) false None
           (Some (errorShape INVALID_REQUEST ("unknown method: " +:+ method))) in
  exists cl1,
    Client.request true id method params expectFinal cl
    = inl (cl1, [Client.WsSend (Client.requestFrame id method params)])
    /\ step P s (Message connId (Some (Client.requestFrame id method params)) clock uuid)
       = send connId res s
    /\ outboundOf connId (send connId res s) = outboundOf connId s ++ [res]
    /\ let cl2 := Client.handleMessage (Some (frameJson res)) cl1 in
       Client.effects cl2
       = Client.effects cl
         ++ [if String.eqb method "set-heartbeats"
             then Client.Resolve id (Some okPayload)
             else Client.Reject id (JStr ("unknown method: " +:+ method))]
       /\ JsMap.get id (Client.pending cl2) = None.
Proof.
  intros Hc Hcd Hcl Hopen Hws Hnd Hid Hm Hmeth res.
  assert (Hv : validateRequestFrame (Client.requestFrame id method params)
               = Some {| req_id := id; req_method := method; req_params := params |}).
  { unfold validateRequestFrame, Client.requestFrame, field.
    apply truthy_eq in Hid, Hm.
    destruct params as [v|]; cbn; now rewrite Hid, Hm. }
  eexists. split; [|split; [|split]].
  - unfold Client.request. rewrite Hws. cbn [andb negb]. cbv zeta. rewrite Hv. reflexivity.
  - cbn [step]. rewrite (onMessage_request P s connId c hello) by assumption.
    unfold handleRequest. rewrite Hv. cbv zeta. cbn [req_method req_id].
    subst res. destruct Hmeth as [->|Hnot]; [reflexivity|].
    assert (Hneq : forall m, In m METHODS -> String.eqb method m = false).
    { intros m Hin. apply String.eqb_neq. intros ->. contradiction. }
    rewrite !Hneq by (cbn; auto 10). reflexivity.
  - apply (outboundOf_send_open connId res s (socket c)); [|exact Hopen].
    now apply socketOf_Some.
  - cbv zeta. subst res.
    destruct (String.eqb method "set-heartbeats");
      rewrite handleMessage_res;
      cbn [Client.pending Client.setPending]; rewrite get_set_eq;
      cbn [acceptedAck okPayload prop assoc String.eqb Ascii.eqb Bool.eqb];
      rewrite andb_false_r;
      cbn [Client.effects Client.emit Client.pending Client.setPending message errorShape];
      (split; [reflexivity|]); apply get_delete_eq; now apply NoDup_keys_set.
Qed.

(* ===================================================================== *)
(** ** The web chat's agent request *)
(* ===================================================================== *)

Lemma trim_nonempty (s : string) : truthy (trim s) = true -> truthy s = true.
Proof. destruct s; [discriminate|reflexivity]. Qed.

Lemma onlyString_cases (o : option BodyValue) :
  onlyString o = None \/ exists t, onlyString o = Some (Whole (JStr t)).
Proof. destruct o as [[[| | |t| |]|]|]; cbn; eauto. Qed.

(** X27: whenever the web chat's [handleRpc] reaches its request to the
    gateway, the text of the body is not blank and the gateway is up, and
    the params it sends pass the gateway's [validateAgentParams] exactly
    when the timeout of the body is no number or is an integer that is not
    negative: the message is the text as given, the idempotency key is the
    fresh id, [deliver] is always a boolean, and [thinking], [to] and
    [timeout] are sent only when they have the right type.  A timeout that
    is negative or no integer is sent all the same, and makes the gateway
    reject the request. *)
Theorem rpc_agent_params_are_valid (P : Platform) (gatewayUp : bool) (body : Body)
    (uuid : string) (params : list (string * BodyValue)) :
  uuid <> "" ->
  handleRpc P gatewayUp body uuid = RpcAgent params ->
  let str k :=
    match member k body with Some (Whole (JStr t)) => Some t | _ => None end in
  exists text,
    rpcText P body = Some text
    /\ truthy (trim text) = true /\ gatewayUp = true
    /\ assoc "timeout" params = onlyNumber (member "timeout" body)
    /\ validateAgentParamsOf params
       = let sent timeout :=
           Some {| ap_message := text;
                   ap_to := str "to";
                   ap_sessionId := None;
                   ap_thinking := str "thinking";
                   ap_deliver := Some (toBoolean (member "deliver" body));
                   ap_timeout := timeout;
                   ap_idempotencyKey := uuid |} in
         match member "timeout" body with
         | Some (Fraction _) => None
         | Some (Whole (JNum n)) => if n <? 0 then None else sent (Some n)
         | _ => sent None
         end.
Proof.
  intros Hu Hrpc str. unfold handleRpc in Hrpc.
  destruct body as [|fs]; [discriminate|].
  destruct (rpcText P (BodyMembers fs)) as [text|]; [|discriminate].
  destruct (truthy (trim text)) eqn:Ht; [|discriminate]. cbn [negb] in Hrpc.
  destruct gatewayUp; [|discriminate]. cbn [negb] in Hrpc.
  cbv zeta in Hrpc. apply (f_equal (fun r => match r with RpcAgent ps => ps | _ => [] end))
    in Hrpc. subst params. exists text.
  split; [reflexivity|]. split; [exact Ht|]. split; [reflexivity|].
  apply trim_nonempty in Ht. apply truthy_eq in Hu.
  assert (Hstr : forall k, str k = match onlyString (assoc k fs) with
                                   | Some (Whole (JStr t)) => Some t
                                   | _ => None
                                   end).
  { intros k. subst str. cbn [member].
    now destruct (assoc k fs) as [[[| | |t| |]|]|]. }
  rewrite !Hstr. clear Hstr. clearbody str.
  unfold validateAgentParamsOf, validateAgentParams. cbn [member].
  destruct (onlyString_cases (assoc "thinking" fs)) as [->|[th ->]];
    destruct (onlyString_cases (assoc "to" fs)) as [->|[to ->]];
    destruct (assoc "timeout" fs) as [[[| |tm| | |]|]|];
    cbn; rewrite ?Ht, ?Hu; cbn; (split; [reflexivity|]); try reflexivity;
    rewrite (Z.leb_antisym tm 0); destruct (tm <? 0); reflexivity.
Qed.

(* ===================================================================== *)
(** ** The theorems at the sample data *)
(* ===================================================================== *)

Lemma reachable_twoClients : reachable sampleHost twoClients.
Proof. exists 0, (dial "A" 10 ++ dial "B" 20). reflexivity. Qed.

Lemma reachable_oneConnection : reachable sampleHost oneConnection.
Proof. exists 0, [Connection "A"]. reflexivity. Qed.

Lemma reachable_refusedA : reachable sampleHost refusedA.
Proof.
  exists 0, [Connection "A"; Message "A" (Some futureHello) (at_ 10) ""]. reflexivity.
Qed.

Lemma NoDup_keys_registryOf_3 : NoDup (JsMap.keys (registryOf 3 0)).
Proof.
  vm_compute. repeat constructor; rewrite ?elem_of_cons, ?elem_of_nil; intuition discriminate.
Qed.

Lemma NoDup_keys_twoClients : NoDup (JsMap.keys (entries twoClients)).
Proof.
  vm_compute. repeat constructor; rewrite ?elem_of_cons, ?elem_of_nil; intuition discriminate.
Qed.

(** Keys made of a prefix and a number are distinct. *)
Lemma NoDup_keys_numbered {V : Type} (prefix : string) (f : nat -> V) (n : nat) :
  NoDup (JsMap.keys (List.map (fun i => (prefix +:+ pretty i, f i)) (List.seq 0 n))).
Proof.
  unfold JsMap.keys. rewrite List.map_map. cbn [fst].
  change (NoDup ((fun i : nat => prefix +:+ pretty i) <$> List.seq 0 n)).
  apply NoDup_fmap_2; [|apply NoDup_seq].
  intros i j H. apply (inj (String.app prefix)) in H. now apply (inj pretty) in H.
Qed.

Lemma NoDup_keys_registryOf (n : nat) (t : Z) : NoDup (JsMap.keys (registryOf n t)).
Proof. apply (NoDup_keys_numbered "node-"). Qed.

Lemma NoDup_keys_agedCache (n : nat) : NoDup (JsMap.keys (agedCache n)).
Proof. apply NoDup_keys_numbered. Qed.

(** Of 203 entries written at the times 0 to 202, the cap removes the three
    oldest. *)
Example enforceMax_drops_three_oldest :
  JsMap.size (registryOf 203 0) = 203
  /\ JsMap.size (enforceMax (registryOf 203 0)) = 200
  /\ List.map (fun kv => (fst kv, ts (snd kv))) (firstn 4 (registryOf 203 0))
     = [("node-0", 0); ("node-1", 1); ("node-2", 2); ("node-3", 3)]
  /\ List.map (fun kv => (fst kv, ts (snd kv))) (firstn 2 (enforceMax (registryOf 203 0)))
     = [("node-3", 3); ("node-4", 4)].
Proof. vm_compute. repeat split. Qed.

Lemma enforceMax_evicts_oldest_witness :
  JsMap.size (enforceMax (registryOf 203 0))
  = Z.min (JsMap.size (registryOf 203 0)) MAX_ENTRIES
  /\ (forall kv, In kv (enforceMax (registryOf 203 0)) -> In kv (registryOf 203 0))
  /\ (forall gone kept,
        In gone (registryOf 203 0) -> ~ In gone (enforceMax (registryOf 203 0)) ->
        In kept (enforceMax (registryOf 203 0)) ->
        ts (snd gone) <= ts (snd kept)).
Proof. apply (enforceMax_evicts_oldest (registryOf 203 0)), NoDup_keys_registryOf. Defined.

Lemma listSystemPresence_bounded_witness :
  let r := listSystemPresence sampleHost 0 100 101 (entries twoClients) in
  Z.of_nat (List.length (snd r)) = JsMap.size (fst r)
  /\ JsMap.size (fst r) <= MAX_ENTRIES + 1
  /\ NoDup (JsMap.keys (fst r)).
Proof.
  apply (listSystemPresence_bounded sampleHost 0 100 101 (entries twoClients)).
  apply NoDup_keys_twoClients.
Defined.

Lemma listSystemPresence_keeps_fresh_witness :
  let r := listSystemPresence sampleHost 0 100 101 (registryOf 3 0) in
  (100 - ts (nodeEntry 1 0) <= TTL_MS ->
   JsMap.get "node-1" (fst r) = Some (nodeEntry 1 0) /\ In (nodeEntry 1 0) (snd r))
  /\ (TTL_MS < 100 - ts (nodeEntry 1 0) -> "node-1" <> selfKey sampleHost ->
      JsMap.get "node-1" (fst r) = None).
Proof.
  apply (listSystemPresence_keeps_fresh sampleHost 0 100 101 (registryOf 3 0) "node-1"
           (nodeEntry 1 0)).
  - apply NoDup_keys_registryOf_3.
  - vm_compute. discriminate.
  - reflexivity.
Defined.

(** A sweep at time 300 005 of 1010 entries written at the times 0 to 1009:
    the five entries written before time 5 have expired; of the 1005 left,
    five above the cap, the sweep evicts the three oldest and leaves 1002. *)
Example dedupeCleanup_sweeps_and_evicts :
  let fresh :=
    List.filter (fun kv => negb (DEDUPE_TTL_MS <? 300005 - d_ts (snd kv)))
      (agedCache 1010) in
  let d' := dedupeCleanup 300005 (agedCache 1010) in
  JsMap.size (agedCache 1010) = 1010
  /\ JsMap.size fresh = 1005
  /\ List.map (fun kv => (fst kv, d_ts (snd kv))) (firstn 2 fresh)
     = [("send:5", 5); ("send:6", 6)]
  /\ JsMap.size d' = 1002
  /\ List.map (fun kv => (fst kv, d_ts (snd kv))) (firstn 2 d')
     = [("send:8", 8); ("send:9", 9)].
Proof. vm_compute. repeat split. Qed.

Lemma dedupeCleanup_evicts_oldest_first_witness :
  let fresh :=
    List.filter (fun kv => negb (DEDUPE_TTL_MS <? 300005 - d_ts (snd kv)))
      (agedCache 1010) in
  let d' := dedupeCleanup 300005 (agedCache 1010) in
  (forall kv, In kv d' -> In kv (agedCache 1010) /\ 300005 - d_ts (snd kv) <= DEDUPE_TTL_MS)
  /\ (JsMap.size fresh <= DEDUPE_MAX -> d' = fresh)
  /\ (forall gone kept,
        In gone fresh -> ~ In gone d' -> In kept d' ->
        d_ts (snd gone) <= d_ts (snd kept))
  /\ JsMap.size d'
     = if DEDUPE_MAX <? JsMap.size fresh
       then JsMap.size fresh - (JsMap.size fresh - DEDUPE_MAX + 1) / 2
       else JsMap.size fresh.
Proof.
  apply (dedupeCleanup_evicts_oldest_first 300005 (agedCache 1010)).
  apply NoDup_keys_agedCache.
Defined.

Lemma reconnect_backoff_witness :
  let cn := Nat.iter 5 (fun c => fst (Client.onWsClose 1006 "" c)) (Client.new allCallbacks) in
  let r := Client.onWsClose 1006 "" cn in
  List.filter (fun o => match o with Client.CallOnClose _ _ => false | _ => true end) (snd r)
  = [Client.StartAfter 30000]
  /\ Client.effects (fst r)
     = Client.effects cn
       ++ List.map
            (fun kv =>
               Client.Reject (fst kv)
                 (JStr ("gateway closed (" +:+ pretty 1006 +:+ "): " +:+ "")))
            (Client.pending cn)
  /\ Client.pending (fst r) = []
  /\ Client.ws (fst r) = false
  /\ forall hello, Client.typeIs "hello-ok" hello = true ->
       Client.backoffMs (Client.handleMessage (Some hello) (fst r)) = 1000.
Proof.
  apply (reconnect_backoff 5 1006 "" (Client.new allCallbacks)).
  - reflexivity.
  - cbn. lia.
Defined.

Lemma res_settles_pending_once_witness :
  let c := Client.setPending [("r1", false)] (sampleClient None) in
  let res := Some (frameJson (FRes (JStr "r1") true (Some okPayload) None)) in
  let c' := Client.handleMessage res c in
  Client.effects c' = [Client.Resolve "r1" (Some okPayload)]
  /\ JsMap.get "r1" (Client.pending c') = None
  /\ (forall id', id' <> "r1" ->
        JsMap.get id' (Client.pending c') = JsMap.get id' (Client.pending c))
  /\ Client.handleMessage res c' = c'.
Proof.
  apply (res_settles_pending_once (Client.setPending [("r1", false)] (sampleClient None))
           "r1" true (Some okPayload) None).
  cbn. apply NoDup_singleton.
Defined.

Lemma hello_rejected_witness :
  step sampleHost oneConnection (Message "A" (Some futureHello) (at_ 10) "")
  = setConns
      (<["A" :=
           {| socket := sockClose 1002 (Some "protocol mismatch")
                          (sockSend (FHelloError "protocol mismatch" (Some PROTOCOL_VERSION))
                             (socket freshConn));
              client := None; closed := true |}]> (conns oneConnection)) oneConnection.
Proof.
  apply (hello_rejected sampleHost oneConnection "A" freshConn futureHello (at_ 10) "");
    reflexivity.
Defined.

Lemma handshake_completes_witness :
  let s := oneConnection in
  let r := helloPresence sampleHost "A" sampleHelloRead (at_ 10) (entries s) in
  let s1 := step sampleHost s (Message "A" (Some sampleHello) (at_ 10) "") in
  let s2 := step sampleHost s1 (Settle (List.length (suspended s)) (Value (JObj [])) 11) in
  (clients s1 = addClient "A" (clients s)
   /\ conns s1 !! "A"
      = Some {| socket := socket freshConn; client := Some sampleHelloRead; closed := false |}
   /\ entries s1 = fst r
   /\ presenceVersion s1 = presenceVersion s + 1
   /\ healthVersion s1 = healthVersion s
   /\ seq s1 = seq s
   /\ portCalls s1 = portCalls s ++ [GetHealthSnapshot])
  /\ socketOf "A" s2
     = Some (sockSend
               (FHelloOk
                  {| ok_protocol := 1;
                     ok_version := serverVersion sampleHost;
                     ok_commit := env_GIT_COMMIT sampleHost;
                     ok_host := os_hostname sampleHost;
                     ok_connId := "A";
                     ok_methods := METHODS;
                     ok_events := EVENTS;
                     ok_snapshot :=
                       {| snap_presence := snd r;
                          snap_health := JObj [];
                          snap_stateVersion :=
                            {| sv_presence := presenceVersion s + 1;
                               sv_health := healthVersion s + 1 |};
                          snap_uptimeMs := uptimeMs sampleHost |};
                     ok_maxPayload := MAX_PAYLOAD_BYTES;
                     ok_maxBufferedBytes := MAX_BUFFERED_BYTES;
                     ok_tickIntervalMs := TICK_INTERVAL_MS |})
               (socket freshConn))
  /\ healthVersion s2 = healthVersion s + 1
  /\ presenceVersion s2 = presenceVersion s + 1
  /\ clients s2 = addClient "A" (clients s)
  /\ suspended s2 = suspended s
  /\ portCalls s2 = portCalls s ++ [GetHealthSnapshot].
Proof.
  apply (handshake_completes sampleHost oneConnection "A" freshConn sampleHello
           sampleHelloRead (at_ 10) "" (JObj []) 11).
  - reflexivity.
  - reflexivity.
  - reflexivity.
  - vm_compute. reflexivity.
  - vm_compute. split; discriminate.
  - vm_compute. reflexivity.
Defined.

Lemma hello_health_failure_witness :
  let s := oneConnection in
  let s1 := step sampleHost s (Message "A" (Some sampleHello) (at_ 10) "") in
  let s2 := step sampleHost s1 (Settle (List.length (suspended s)) (Threw "down") 11) in
  conns s2 !! "A"
  = Some {| socket := socket freshConn; client := Some sampleHelloRead; closed := false |}
  /\ (forall id, socketOf id s2 = socketOf id s)
  /\ clients s2 = addClient "A" (clients s)
  /\ In "A" (clients s2)
  /\ suspended s2 = suspended s
  /\ logged s2 = S (logged s)
  /\ step sampleHost s2 (HandshakeTimeout "A") = s2.
Proof.
  apply (hello_health_failure sampleHost oneConnection "A" freshConn sampleHello
           sampleHelloRead (at_ 10) "" "down" 11).
  - reflexivity.
  - reflexivity.
  - reflexivity.
  - vm_compute. reflexivity.
  - vm_compute. split; discriminate.
  - vm_compute. reflexivity.
Defined.

Lemma hello_snapshot_lists_client_witness :
  let key := orStr (client_instanceId sampleHelloRead) "A" in
  let r := helloPresence sampleHost "A" sampleHelloRead (at_ 10) (entries oneConnection) in
  exists e,
    JsMap.get key (fst r) = Some e /\ In e (snd r)
    /\ reason e = Some "connect"
    /\ mode e = Some (client_mode sampleHelloRead)
    /\ host e = Some (os_hostname sampleHost)
    /\ version e = Some (serverVersion sampleHost)
    /\ instanceId e = client_instanceId sampleHelloRead
    /\ ts e = if String.eqb key (selfKey sampleHost) then at_ 10 4%nat else at_ 10 1%nat.
Proof.
  apply (hello_snapshot_lists_client sampleHost "A" sampleHelloRead (at_ 10)
           (entries oneConnection)).
  - vm_compute. reflexivity.
  - vm_compute. discriminate.
Defined.

Lemma unauthenticated_gets_only_hello_error_witness :
  (closed refusedConnA = false -> outbound (socket refusedConnA) = [])
  /\ (outbound (socket refusedConnA) = []
      \/ exists reason expected,
           outbound (socket refusedConnA) = [FHelloError reason expected]).
Proof.
  apply (unauthenticated_gets_only_hello_error sampleHost refusedA "A" refusedConnA).
  - apply reachable_refusedA.
  - vm_compute. reflexivity.
  - vm_compute. reflexivity.
Defined.

Lemma clients_are_live_witness :
  (forall id, In id (clients twoClients) ->
     exists c hello,
       conns twoClients !! id = Some c /\ client c = Some hello /\ closed c = false)
  /\ (forall id c, conns twoClients !! id = Some c -> closed c = true ->
        readyState (socket c) <> OPEN /\ ~ In id (clients twoClients)).
Proof. apply (clients_are_live sampleHost twoClients), reachable_twoClients. Defined.

Lemma no_frame_after_close_witness :
  exists c',
    conns (run sampleHost refusedA [Tick 5; AgentEvent JNull]) !! "A" = Some c'
    /\ outbound (socket c') = outbound (socket refusedConnA)
    /\ closeSent (socket c') = closeSent (socket refusedConnA)
    /\ readyState (socket c') <> OPEN
    /\ (closed refusedConnA = true -> closed c' = true /\ client c' = client refusedConnA).
Proof.
  apply (no_frame_after_close sampleHost refusedA "A" refusedConnA [Tick 5; AgentEvent JNull]).
  - apply reachable_refusedA.
  - vm_compute. reflexivity.
  - left. vm_compute. reflexivity.
Defined.

Lemma hello_is_accepted_once_witness :
  (forall ls, exists c',
      conns (run sampleHost twoClients ls) !! "A" = Some c'
      /\ client c' = Some sampleHelloRead)
  /\ (closed connA = false ->
      forall v h' clock uuid,
        validateHello v = Some h' ->
        step sampleHost twoClients (Message "A" (Some v) clock uuid)
        = send "A"
            (FRes (JStr "invalid") false None
               (Some (errorShape INVALID_REQUEST
                        ("invalid request frame: "
                         +:+ requestFrameErrorsText sampleHost v)))) twoClients).
Proof.
  apply (hello_is_accepted_once sampleHost twoClients "A" connA sampleHelloRead).
  - vm_compute. reflexivity.
  - vm_compute. reflexivity.
Defined.

Lemma serverClose_closes_clients_witness :
  let s := twoClients in
  let s' := step sampleHost s ServerClose in
  seq s' = seq s + 1 /\ stopped s' = true /\ clients s' = []
  /\ (forall id,
        socketOf id s'
        = if decide (id ∈ clients s)
          then option_map
                 (fun k => sockClose 1012 (Some "service restart")
                             (deliver false (shutdownEvent (seq s + 1)) k))
                 (socketOf id s)
          else socketOf id s)
  /\ (forall id k k',
        id ∈ clients s -> socketOf id s = Some k -> socketOf id s' = Some k' ->
        readyState k = OPEN ->
        readyState k' = CLOSING
        /\ if MAX_BUFFERED_BYTES <? bufferedAmount k
           then outbound k' = outbound k
                /\ closeSent k' = Some (1008, Some "slow consumer")
           else outbound k' = outbound k ++ [shutdownEvent (seq s + 1)]
                /\ closeSent k' = Some (1012, Some "service restart")).
Proof. apply (serverClose_closes_clients sampleHost twoClients), reachable_twoClients. Defined.

Lemma tick_reaches_fast_clients_witness :
  let s := twoClients in
  let s' := step sampleHost s (Tick 5) in
  seq s' = seq s + 1
  /\ clients s' = clients s
  /\ dedupe s' = dedupe s /\ entries s' = entries s
  /\ presenceVersion s' = presenceVersion s
  /\ forall id k,
       socketOf id s = Some k ->
       socketOf id s'
       = Some (if decide (id ∈ clients s)
               then if MAX_BUFFERED_BYTES <? bufferedAmount k then k
                    else sockSend (tickEvent 5 (seq s + 1)) k
               else k).
Proof.
  apply (tick_reaches_fast_clients sampleHost twoClients 5).
  - apply reachable_twoClients.
  - reflexivity.
Defined.

Lemma request_is_answered_or_suspended_witness :
  let s := twoClients in
  let s' := step sampleHost s (Message "A" (Some (systemEventReq "e1" "note")) (at_ 30) "") in
  (forall id, id <> "A" -> responses (outboundOf id s') = responses (outboundOf id s))
  /\ suspended s' = suspended s /\ portCalls s' = portCalls s
  /\ exists ok payload error,
       responses (outboundOf "A" s')
       = responses (outboundOf "A" s) ++ [FRes (JStr "e1") ok payload error].
Proof.
  apply (request_is_answered_or_suspended sampleHost twoClients "A" connA sampleHelloRead
           (systemEventReq "e1" "note") noteReq (at_ 30) "");
    vm_compute; reflexivity.
Defined.

Lemma settle_answers_once_witness :
  let s := agentInFlight in
  let s' := step sampleHost s (Settle 0 Returned 40) in
  suspended s' = delete 0%nat (suspended s)
  /\ portCalls s' = portCalls s
  /\ (forall id, id <> "A" -> outboundOf id s' = outboundOf id s)
  /\ exists frame,
       outboundOf "A" s' = outboundOf "A" s ++ [frame]
       /\ exists payload error, frame = FRes (JStr "ag1") true payload error.
Proof.
  apply (settle_answers_once sampleHost agentInFlight 0 (AwaitAgent "A" "ag1" "I" "run-1")
           Returned 40 socketAInFlight);
    vm_compute; reflexivity.
Defined.

Lemma client_disconnect_witness :
  let s := twoClients in
  let key := orStr (client_instanceId sampleHelloRead) "A" in
  let r := goodbyePresence sampleHost "A" sampleHelloRead (at_ 30) (entries s) in
  let ev :=
    FEvent "presence" (JObj [("presence", presenceListJson (snd r))]) (seq s + 1)
      (Some {| sv_presence := presenceVersion s + 1; sv_health := healthVersion s |}) in
  let s' := step sampleHost s (SocketClose "A" (at_ 30)) in
  presenceVersion s' = presenceVersion s + 1
  /\ seq s' = seq s + 1
  /\ entries s' = fst r
  /\ clients s' = deleteClient "A" (clients s)
  /\ ~ In "A" (clients s')
  /\ conns s' !! "A"
     = Some {| socket := sockClosed (socket connA); client := Some sampleHelloRead;
               closed := true |}
  /\ (forall id, id <> "A" ->
        socketOf id s'
        = if decide (id ∈ clients s)
          then option_map (deliver true ev) (socketOf id s)
          else socketOf id s)
  /\ (JsMap.size (entries s) < MAX_ENTRIES -> at_ 30 3%nat - at_ 30 1%nat <= TTL_MS ->
      exists e, JsMap.get key (fst r) = Some e /\ In e (snd r)
                /\ reason e = Some "disconnect").
Proof.
  apply (client_disconnect sampleHost twoClients "A" connA sampleHelloRead (at_ 30)).
  - apply reachable_twoClients.
  - vm_compute. reflexivity.
  - vm_compute. reflexivity.
  - vm_compute. reflexivity.
  - vm_compute. discriminate.
Defined.

Lemma request_round_trip_witness :
  let res :=
    FRes (JStr "r1") false None
      (Some (errorShape INVALID_REQUEST ("unknown method: " +:+ "nope"))) in
  exists cl1,
    Client.request true "r1" "nope" None false (sampleClient None)
    = inl (cl1, [Client.WsSend (Client.requestFrame "r1" "nope" None)])
    /\ step sampleHost twoClients
         (Message "A" (Some (Client.requestFrame "r1" "nope" None)) (at_ 30) "")
       = send "A" res twoClients
    /\ outboundOf "A" (send "A" res twoClients) = outboundOf "A" twoClients ++ [res]
    /\ let cl2 := Client.handleMessage (Some (frameJson res)) cl1 in
       Client.effects cl2
       = Client.effects (sampleClient None)
         ++ [Client.Reject "r1" (JStr ("unknown method: " +:+ "nope"))]
       /\ JsMap.get "r1" (Client.pending cl2) = None.
Proof.
  apply (request_round_trip sampleHost twoClients "A" connA sampleHelloRead
           (sampleClient None) "r1" "nope" None false (at_ 30) "").
  - vm_compute. reflexivity.
  - vm_compute. reflexivity.
  - vm_compute. reflexivity.
  - vm_compute. reflexivity.
  - reflexivity.
  - apply NoDup_nil_2.
  - discriminate.
  - discriminate.
  - right. vm_compute. intuition discriminate.
Defined.

Lemma rpc_agent_params_are_valid_witness :
  let body :=
    BodyMembers [("text", Whole (JStr "hi")); ("to", Whole (JNum 7));
                 ("timeout", Fraction "1.5")] in
  exists text,
    rpcText sampleHost body = Some text
    /\ truthy (trim text) = true /\ true = true
    /\ assoc "timeout"
         [("message", Whole (JStr "hi")); ("deliver", Whole (JBool false));
          ("timeout", Fraction "1.5"); ("idempotencyKey", Whole (JStr "k1"))]
       = Some (Fraction "1.5")
    /\ validateAgentParamsOf
         [("message", Whole (JStr "hi")); ("deliver", Whole (JBool false));
          ("timeout", Fraction "1.5"); ("idempotencyKey", Whole (JStr "k1"))]
       = None.
Proof.
  apply (rpc_agent_params_are_valid sampleHost true
           (BodyMembers [("text", Whole (JStr "hi")); ("to", Whole (JNum 7));
                         ("timeout", Fraction "1.5")]) "k1"
           [("message", Whole (JStr "hi")); ("deliver", Whole (JBool false));
            ("timeout", Fraction "1.5"); ("idempotencyKey", Whole (JStr "k1"))]).
  - discriminate.
  - vm_compute. reflexivity.
Defined.

(** Three bodies with the text [hi]: with the timeout 5 the params pass the
    gateway's schema, with the timeout -1 or 1.5 they are sent and fail it. *)
Example rpc_timeouts :
  let run timeout :=
    match handleRpc sampleHost true
            (BodyMembers [("text", Whole (JStr "hi")); ("timeout", timeout)]) "k1" with
    | RpcAgent params => Some (assoc "timeout" params, validateAgentParamsOf params)
    | _ => None
    end in
  run (Whole (JNum 5))
  = Some (Some (Whole (JNum 5)),
          Some {| ap_message := "hi"; ap_to := None; ap_sessionId := None;
                  ap_thinking := None; ap_deliver := Some false;
                  ap_timeout := Some 5; ap_idempotencyKey := "k1" |})
  /\ run (Whole (JNum (-1))) = Some (Some (Whole (JNum (-1))), None)
  /\ run (Fraction "1.5") = Some (Some (Fraction "1.5"), None).
Proof. vm_compute. repeat split. Qed.
